(** * keepalived-log-parser: the log classification and state reconstruction
      of [keepalived.py], embedded and verified.

    The embedding follows the methods of [KeepalivedLogParser] that carry
    the logic: [getTime], [setEntryVip], [parseLogs], [processEntries] and
    the final sort of [findLogs].  Instance attributes become fields of an
    explicit state, Python exceptions become an error result, and the Qt
    widgets (progress bar, labels, layouts) are left out. *)

From Stdlib Require Import ZArith List Permutation Sorted Ascii String OrdersEx.
From stdpp Require Import base tactics option list sorting gmap strings.

Open Scope string_scope.
Open Scope Z_scope.
Open Scope list_scope.

(** ** Python strings: [in], [split()] *)

Module PyStr.

(** [str.isspace] on the code points below 256. *)
Definition isspace (c : ascii) : bool :=
  let n := nat_of_ascii c in
  ((9 <=? n)%nat && (n <=? 13)%nat) || ((28 <=? n)%nat && (n <=? 32)%nat)
  || (n =? 133)%nat || (n =? 160)%nat.

(** [s.startswith(p)] *)
Fixpoint startswith (p s : string) : bool :=
  match p, s with
  | EmptyString, _ => true
  | String _ _, EmptyString => false
  | String a p', String b s' => if Ascii.eqb a b then startswith p' s' else false
  end.

(** [needle in hay] *)
Fixpoint contains (needle hay : string) : bool :=
  startswith needle hay
  || match hay with
     | EmptyString => false
     | String _ hay' => contains needle hay'
     end.

(** [s.split()]: the maximal runs of non-space characters, in order.
    [cur] is the run being read, in reverse. *)
Fixpoint split_from (cur : list ascii) (s : string) : list string :=
  match s with
  | EmptyString =>
      match cur with
      | [] => []
      | _ => [string_of_list_ascii (rev cur)]
      end
  | String c s' =>
      if isspace c then
        match cur with
        | [] => split_from [] s'
        | _ => string_of_list_ascii (rev cur) :: split_from [] s'
        end
      else split_from (c :: cur) s'
  end.

Definition split (s : string) : list string := split_from [] s.

End PyStr.

(** ** Exceptions *)

(** The exceptions the modelled code can raise.  [NoLogEntries] stands for
    [Exception('No log entries')]; [TypeError] is that of a comparison
    between an offset-naive and an offset-aware [datetime], and that of
    [None - None]. *)
Inductive exn : Type :=
  | ValueError
  | IndexError
  | NoLogEntries
  | TypeError.

Inductive result (A : Type) : Type :=
  | Ok (a : A)
  | Raise (e : exn).
Arguments Ok {A} a.
Arguments Raise {A} e.

#[global] Instance result_ret : MRet result := fun A a => Ok a.
#[global] Instance result_bind : MBind result := fun A B k r =>
  match r with
  | Ok a => k a
  | Raise e => Raise e
  end.

#[global] Instance result_fmap : FMap result := fun A B f r =>
  match r with
  | Ok a => Ok (f a)
  | Raise e => Raise e
  end.

Definition is_ok {A : Type} (r : result A) : bool :=
  match r with Ok _ => true | Raise _ => false end.

(** ** Python lists and ordered dicts *)

(** [l[i]] *)
Definition getitem {A : Type} (l : list A) (i : nat) : result A :=
  match l !! i with
  | Some x => Ok x
  | None => Raise IndexError
  end.

(** [l[-1]] *)
Definition getlast {A : Type} (l : list A) : result A :=
  match last l with
  | Some x => Ok x
  | None => Raise IndexError
  end.

(** [l.index(x)] *)
Fixpoint index (x : string) (l : list string) : result nat :=
  match l with
  | [] => Raise ValueError
  | y :: l' => if String.eqb y x then Ok 0%nat
               else i ← index x l'; Ok (S i)
  end.

(** [sorted(l, key=key)]: Python's sort is stable, and a stable sort has
    one possible result, computed here by insertion. *)
Section Sorted.
Context {A : Type} (key : A → Z).

Fixpoint insert_sorted (x : A) (l : list A) : list A :=
  match l with
  | [] => [x]
  | y :: l' => if (key x <=? key y)%Z then x :: y :: l'
               else y :: insert_sorted x l'
  end.

Fixpoint sorted (l : list A) : list A :=
  match l with
  | [] => []
  | x :: l' => insert_sorted x (sorted l')
  end.
End Sorted.

(** [collections.OrderedDict] with string keys: the items in insertion
    order, keys pairwise distinct. *)
Module OD.
Section OD.
Context {V : Type}.
Definition t := list (string * V).

(** [d.get(k)] *)
Fixpoint get (k : string) (d : list (string * V)) : option V :=
  match d with
  | [] => None
  | (k', v) :: d' => if String.eqb k' k then Some v else get k d'
  end.

(** [d.setdefault(k, v)] *)
Fixpoint setdefault (k : string) (v : V) (d : list (string * V)) : list (string * V) :=
  match d with
  | [] => [(k, v)]
  | (k', v') :: d' => if String.eqb k' k then (k', v') :: d'
                      else (k', v') :: setdefault k v d'
  end.

(** [d[k] = v] *)
Fixpoint set (k : string) (v : V) (d : list (string * V)) : list (string * V) :=
  match d with
  | [] => [(k, v)]
  | (k', v') :: d' => if String.eqb k' k then (k', v) :: d'
                      else (k', v') :: set k v d'
  end.

(** the value under [k] replaced by [f] of it, as [d[k].append(x)] does *)
Fixpoint update (k : string) (f : V → V) (d : list (string * V)) : list (string * V) :=
  match d with
  | [] => []
  | (k', v') :: d' => if String.eqb k' k then (k', f v') :: d'
                      else (k', v') :: update k f d'
  end.

Definition keys (d : list (string * V)) : list string := map fst d.
End OD.
End OD.

(** ** Timestamps *)

(** A [datetime.datetime]: the seconds of its date and time since
    0001-01-01T00:00:00, the microsecond field, and its offset from UTC in
    seconds, [None] for an offset-naive value. *)
Record datetime : Type := mkDatetime {
  dt_seconds : Z;
  dt_microsecond : Z;
  dt_utcoffset : option Z
}.

(** An offset-aware value: one with [tzinfo].  Two values of one kind
    compare and subtract; [<] and [>] between an offset-naive and an
    offset-aware value raise [TypeError]. *)
Definition aware (d : datetime) : bool :=
  match dt_utcoffset d with Some _ => true | None => false end.

(** [d.replace(microsecond=0)], as the count of seconds by which values
    of its kind compare and subtract: the seconds of its date and time for
    an offset-naive value, those of its time in UTC for an offset-aware
    one. *)
Definition replace_microsecond_0 (d : datetime) : Z :=
  dt_seconds d - default 0 (dt_utcoffset d).

(** [l[i] = x] *)
Definition setitem {A : Type} (l : list A) (i : nat) (x : A) : result (list A) :=
  if decide (i < length l)%nat then Ok (<[i:=x]> l) else Raise IndexError.

(** ** The data of [keepalived.py] *)

(** The six event names [scriptSucceeded] ... [nodeAddress], pairwise
    distinct string constants in the source. *)
Inductive event : Type :=
  | scriptSucceeded
  | scriptFailed
  | tookVip
  | lostVip
  | reloading
  | nodeAddress.

#[global] Instance event_eq_dec : EqDecision event.
Proof. solve_decision. Defined.

(** [class LogEntry]; [vip] is 0 = API 0, 1 = API 1, 2 = Ingress 0,
    3 = Ingress 1. *)
Record LogEntry : Type := mkLogEntry {
  timestamp : Z;
  line : string;
  entry_event : event;
  vip : nat
}.

(** [LogEntry(timestamp, line, event)]: [vip] starts at 0. *)
Definition newLogEntry (ts : Z) (l : string) (ev : event) : LogEntry :=
  mkLogEntry ts l ev 0.

Definition with_vip (entry : LogEntry) (v : nat) : LogEntry :=
  mkLogEntry (timestamp entry) (line entry) (entry_event entry) v.

Definition with_event (entry : LogEntry) (ev : event) : LogEntry :=
  mkLogEntry (timestamp entry) (line entry) ev (vip entry).

(** [class NodeData] *)
Record NodeData : Type := mkNodeData {
  vipChanges : list (list Z);
  events : list LogEntry;
  addrs : gset string
}.

(** [NodeData()] *)
Definition newNodeData : NodeData := mkNodeData [[]; []; []; []] [] ∅.

(** A log file as [parseLogs] sees it: the parts of its path and the lines
    its handle yields. *)
Record logFile : Type := mkLogFile {
  parts : list string;
  lines : list string
}.

(** The attributes of [KeepalivedLogParser] the core reads and writes.
    A [datetime] is kept as the seconds of [replace_microsecond_0]; the
    datetimes that a parser holds are all of one kind, since line 188 raises
    before one of the other kind is stored, and [tzAware] is this kind: that
    of the values in [timeBounds], once they are set. *)
Record parser : Type := mkParser {
  isMustGather : bool;
  logEntries : list (string * list LogEntry);
  nodeData : list (string * NodeData);
  timeBounds : option Z * option Z;
  vips : list string;
  tzAware : bool
}.

(** The attributes as [__init__] leaves them, with the layout flag that
    [findLogs] sets. *)
Definition newParser (mg : bool) : parser :=
  mkParser mg [] [] (None, None) [""; ""; ""; ""] false.

Definition with_logEntries (self : parser) (d : list (string * list LogEntry)) : parser :=
  mkParser (isMustGather self) d (nodeData self) (timeBounds self) (vips self)
    (tzAware self).

Definition with_nodeData (self : parser) (d : list (string * NodeData)) : parser :=
  mkParser (isMustGather self) (logEntries self) d (timeBounds self) (vips self)
    (tzAware self).

Definition with_timeBounds (self : parser) (tb : option Z * option Z) : parser :=
  mkParser (isMustGather self) (logEntries self) (nodeData self) tb (vips self)
    (tzAware self).

Definition with_vips (self : parser) (v : list string) : parser :=
  mkParser (isMustGather self) (logEntries self) (nodeData self) (timeBounds self) v
    (tzAware self).

Definition with_tzAware (self : parser) (aw : bool) : parser :=
  mkParser (isMustGather self) (logEntries self) (nodeData self) (timeBounds self)
    (vips self) aw.

(** [self.logEntries[name].append(entry)]; [parseLogs] has called
    [setdefault(name, [])] before any append. *)
Definition appendEntry (name : string) (entry : LogEntry) (self : parser) : parser :=
  with_logEntries self (OD.update name (λ es, es ++ [entry]) (logEntries self)).

(** ** [setEntryVip] *)

Definition setEntryVip (entry : LogEntry) (l : string) : LogEntry :=
  if PyStr.contains "API_1" l then with_vip entry 1
  else if PyStr.contains "INGRESS_0" l || PyStr.contains "_INGRESS)" l then with_vip entry 2
  else if PyStr.contains "INGRESS_1" l then with_vip entry 3
  else entry.

(** ** [getTime] and [parseLogs] *)

Section Parse.

(** [datetime.datetime.fromisoformat], of Python's library: [None] where
    it raises [ValueError]. *)
Variable fromisoformat : string → option datetime.

Definition getTime (l : string) : result Z :=
  tok ← getitem (PyStr.split l) 0;
  match fromisoformat tok with
  | Some d => Ok (replace_microsecond_0 d)
  | None => Raise ValueError
  end.

(** The kind of the datetime that [getTime] returns for [l]: whether it
    is offset-aware. *)
Definition getAware (l : string) : bool :=
  match getitem (PyStr.split l) 0 with
  | Ok tok => match fromisoformat tok with Some d => aware d | None => false end
  | Raise _ => false
  end.

(** The comparisons of lines 188 and 190, of a timestamp of kind [aw] with
    the bounds that are not [None]: they raise [TypeError] when the kinds
    differ. *)
Definition compareBounds (aw : bool) (self : parser) : result unit :=
  match timeBounds self with
  | (None, None) => Ok ()
  | _ => if Bool.eqb aw (tzAware self) then Ok () else Raise TypeError
  end.

(** Lines 188-191: the earliest and latest timestamps. *)
Definition updateBounds (ts : Z) (tb : option Z * option Z) : option Z * option Z :=
  let lo := match fst tb with
            | None => Some ts
            | Some b => if (ts <? b)%Z then Some ts else Some b
            end in
  let hi := match snd tb with
            | None => Some ts
            | Some b => if (ts >? b)%Z then Some ts else Some b
            end in
  (lo, hi).

(** Lines 193-200: health check scripts. *)
Definition scriptCheck (name : string) (ts : Z) (l : string) (self : parser) : parser :=
  if PyStr.contains "VRRP_Script" l
     && (PyStr.contains "succeeded" l || PyStr.contains "failed" l) then
    let entry := newLogEntry ts l scriptFailed in
    let entry := if PyStr.contains "succeeded" l
                 then with_event entry scriptSucceeded else entry in
    let entry := with_vip entry 1 in
    let entry := if PyStr.contains "chk_ocp" l then with_vip entry 0 else entry in
    appendEntry name entry self
  else self.

Definition isArpLine (l : string) : bool :=
  PyStr.contains "Sending/queueing gratuitous ARPs" l
  || PyStr.contains "Sending/queueing Unsolicited Neighbour Adverts" l.

(** Lines 203-210: gratuitous ARPs and neighbour adverts. *)
Definition arpCheck (name : string) (ts : Z) (l : string)
    (self : parser) (gratuitousArp : list bool) : result (parser * list bool) :=
  if isArpLine l then
    let entry := newLogEntry ts l tookVip in
    let entry := setEntryVip entry l in
    tok ← getlast (PyStr.split l);
    vs ← setitem (vips self) (vip entry) tok;
    let self := with_vips self vs in
    seen ← getitem gratuitousArp (vip entry);
    if negb seen then
      gratuitousArp ← setitem gratuitousArp (vip entry) true;
      Ok (appendEntry name entry self, gratuitousArp)
    else Ok (self, gratuitousArp)
  else Ok (self, gratuitousArp).

(** Lines 211-216 *)
Definition masterCheck (name : string) (ts : Z) (l : string)
    (self : parser) (gratuitousArp : list bool) : result (parser * list bool) :=
  if PyStr.contains "Entering MASTER STATE" l then
    let entry := newLogEntry ts l tookVip in
    let entry := setEntryVip entry l in
    gratuitousArp ← setitem gratuitousArp (vip entry) true;
    Ok (appendEntry name entry self, gratuitousArp)
  else Ok (self, gratuitousArp).

(** Lines 217-220 *)
Definition backupCheck (name : string) (ts : Z) (l : string) (self : parser) : parser :=
  if PyStr.contains "Entering BACKUP STATE" l then
    let entry := newLogEntry ts l lostVip in
    let entry := setEntryVip entry l in
    appendEntry name entry self
  else self.

(** Lines 221-223 *)
Definition reloadCheck (name : string) (ts : Z) (l : string) (self : parser) : parser :=
  if PyStr.contains "Reloading ..." l then
    appendEntry name (newLogEntry ts l reloading) self
  else self.

(** Lines 224-226 *)
Definition addressCheck (name : string) (ts : Z) (l : string) (self : parser) : parser :=
  if PyStr.contains "Assigned address" l then
    appendEntry name (newLogEntry ts l nodeAddress) self
  else self.

(** The body of [for line in handle]. *)
Definition parseLine (name : string) (l : string)
    (self : parser) (gratuitousArp : list bool) : result (parser * list bool) :=
  ts ← getTime l;
  let aw := getAware l in
  _ ← compareBounds aw self;
  let self := with_tzAware (with_timeBounds self (updateBounds ts (timeBounds self))) aw in
  let self := scriptCheck name ts l self in
  '(self, gratuitousArp) ← arpCheck name ts l self gratuitousArp;
  '(self, gratuitousArp) ← masterCheck name ts l self gratuitousArp;
  let self := backupCheck name ts l self in
  let self := reloadCheck name ts l self in
  let self := addressCheck name ts l self in
  Ok (self, gratuitousArp).

(** [for line in handle: ...] *)
Fixpoint parseLines (name : string) (ls : list string)
    (self : parser) (gratuitousArp : list bool) : result (parser * list bool) :=
  match ls with
  | [] => Ok (self, gratuitousArp)
  | l :: ls' =>
      '(self, gratuitousArp) ← parseLine name l self gratuitousArp;
      parseLines name ls' self gratuitousArp
  end.

(** Lines 175-178: [f.name], or under the must-gather layout the part
    after ['pods']. *)
Definition nodeName (mg : bool) (f : logFile) : result string :=
  if mg then
    i ← index "pods" (parts f);
    getitem (parts f) (i + 1)
  else Ok (default "" (last (parts f))).

(** The body of [for f in self.logFiles], the progress text apart. *)
Definition parseFile (f : logFile) (self : parser) : result parser :=
  name ← nodeName (isMustGather self) f;
  let self := with_logEntries self (OD.setdefault name [] (logEntries self)) in
  let gratuitousArp := [false; false; false; false] in
  '(self, _) ← parseLines name (lines f) self gratuitousArp;
  Ok self.

(** [parseLogs], over [self.logFiles] *)
Fixpoint parseLogs (logFiles : list logFile) (self : parser) : result parser :=
  match logFiles with
  | [] => Ok self
  | f :: fs => self ← parseFile f self; parseLogs fs self
  end.

(** ** [processEntries] *)

(** Lines 248-254: the VIP events. *)
Definition vipEvent (entry : LogEntry) (data : NodeData) (haveVip : list bool)
    : result (NodeData * list bool) :=
  have ← getitem haveVip (vip entry);
  if have : bool then
    if decide (entry_event entry = lostVip) then
      changes ← getitem (vipChanges data) (vip entry);
      vc ← setitem (vipChanges data) (vip entry) (changes ++ [timestamp entry]);
      haveVip ← setitem haveVip (vip entry) false;
      Ok (mkNodeData vc (events data) (addrs data), haveVip)
    else Ok (data, haveVip)
  else if decide (entry_event entry = tookVip) then
    changes ← getitem (vipChanges data) (vip entry);
    vc ← setitem (vipChanges data) (vip entry) (changes ++ [timestamp entry]);
    haveVip ← setitem haveVip (vip entry) true;
    Ok (mkNodeData vc (events data) (addrs data), haveVip)
  else Ok (data, haveVip).

(** Lines 256-259: the health check and reload events. *)
Definition healthEvent (entry : LogEntry) (data : NodeData) : NodeData :=
  let data :=
    if bool_decide (entry_event entry = scriptSucceeded ∨ entry_event entry = scriptFailed)
    then mkNodeData (vipChanges data) (events data ++ [entry]) (addrs data)
    else data in
  if decide (entry_event entry = reloading)
  then mkNodeData (vipChanges data) (events data ++ [entry]) (addrs data)
  else data.

(** Lines 260-263: the node addresses. *)
Definition addressEvent (entry : LogEntry) (data : NodeData) : result NodeData :=
  if decide (entry_event entry = nodeAddress) then
    let ps := PyStr.split (line entry) in
    i ← index "address" ps;
    currentAddr ← getitem ps (i + 1);
    Ok (mkNodeData (vipChanges data) (events data) ({[currentAddr]} ∪ addrs data))
  else Ok data.

(** The body of [for entry in sorted(entries, ...)]. *)
Definition processEntry (entry : LogEntry) (data : NodeData) (haveVip : list bool)
    : result (NodeData * list bool) :=
  '(data, haveVip) ← vipEvent entry data haveVip;
  let data := healthEvent entry data in
  data ← addressEvent entry data;
  Ok (data, haveVip).

Fixpoint replay (entries : list LogEntry) (data : NodeData) (haveVip : list bool)
    : result (NodeData * list bool) :=
  match entries with
  | [] => Ok (data, haveVip)
  | entry :: rest =>
      '(data, haveVip) ← processEntry entry data haveVip;
      replay rest data haveVip
  end.

(** One node: a fresh [NodeData], [haveVip] all false, the entries in
    timestamp order.  The timestamps of the entries of a parser are of one
    kind, so the sort compares them all. *)
Definition processNode (entries : list LogEntry) : result NodeData :=
  '(data, _) ← replay (sorted timestamp entries) newNodeData [false; false; false; false];
  Ok data.

(** [for name, entries in self.logEntries.items()]; [self.nodeData[name]]
    is assigned first and filled in place, which on return is the
    assignment of the filled value. *)
Fixpoint processItems (items : list (string * list LogEntry))
    (nd : list (string * NodeData)) : result (list (string * NodeData)) :=
  match items with
  | [] => Ok nd
  | (name, entries) :: rest =>
      data ← processNode entries;
      processItems rest (OD.set name data nd)
  end.

Definition processEntries (self : parser) : result parser :=
  if (length (logEntries self) =? 0)%nat then Raise NoLogEntries
  else
    nd ← processItems (logEntries self) (nodeData self);
    Ok (with_nodeData self nd).

(** [run], from a new parser, without [findLogs] and [populateView]: the
    exception of either step is shown and raised again. *)
Definition run (mg : bool) (logFiles : list logFile) : result parser :=
  self ← parseLogs logFiles (newParser mg);
  processEntries self.

End Parse.

(** ** A concrete [fromisoformat]

    Python's function restricted to [YYYY-MM-DDTHH:MM:SS], with an optional
    fraction of three or six digits and an optional offset [+HH:MM] or
    [-HH:MM]: every version of the library accepts these strings with the
    value computed here, and the closed examples below use no other. *)
Module Iso.

Definition digit (c : ascii) : option Z :=
  let n := Z.of_nat (nat_of_ascii c) in
  if (48 <=? n) && (n <=? 57) then Some (n - 48) else None.

Fixpoint number (acc : Z) (cs : list ascii) : option Z :=
  match cs with
  | [] => Some acc
  | c :: cs' => d ← digit c; number (10 * acc + d) cs'
  end.

Definition is_leap (y : Z) : bool :=
  ((y mod 4 =? 0) && negb (y mod 100 =? 0)) || (y mod 400 =? 0).

Definition days_in_month (y m : Z) : Z :=
  if m =? 2 then (if is_leap y then 29 else 28)
  else if (m =? 4) || (m =? 6) || (m =? 9) || (m =? 11) then 30
  else 31.

Definition days_before_year (y : Z) : Z :=
  let p := y - 1 in p * 365 + p / 4 - p / 100 + p / 400.

Fixpoint days_before_month_from (y : Z) (m : nat) : Z :=
  match m with
  | O => 0
  | S m' => days_before_month_from y m' + days_in_month y (Z.of_nat m)
  end.

Definition days_before_month (y m : Z) : Z :=
  days_before_month_from y (Z.to_nat (m - 1)).

(** [date.toordinal]: 0001-01-01 is day 1. *)
Definition toordinal (y m d : Z) : Z :=
  days_before_year y + days_before_month y m + d.

Definition fraction (cs : list ascii) : option Z :=
  match cs with
  | [] => Some 0
  | "."%char :: ds =>
      if decide (length ds = 3%nat) then n ← number 0 ds; Some (n * 1000)
      else if decide (length ds = 6%nat) then number 0 ds
      else None
  | _ => None
  end.

(** The offset from UTC in seconds: [None] without one. *)
Definition offset (cs : list ascii) : option (option Z) :=
  match cs with
  | [] => Some None
  | [sg; h1; h2; ":"%char; m1; m2] =>
      hh ← number 0 [h1; h2];
      mm ← number 0 [m1; m2];
      if (hh <=? 23) && (mm <=? 59) then
        if Ascii.eqb sg "+"%char then Some (Some (hh * 3600 + mm * 60))
        else if Ascii.eqb sg "-"%char then Some (Some (- (hh * 3600 + mm * 60)))
        else None
      else None
  | _ => None
  end.

Definition is_sign (c : ascii) : bool := Ascii.eqb c "+"%char || Ascii.eqb c "-"%char.

(** What follows the seconds: the fraction, then the offset. *)
Fixpoint before_sign (cs : list ascii) : list ascii * list ascii :=
  match cs with
  | [] => ([], [])
  | c :: cs' => if is_sign c then ([], cs)
                else let '(a, b) := before_sign cs' in (c :: a, b)
  end.

Definition fromisoformat (s : string) : option datetime :=
  match list_ascii_of_string s with
  | y1 :: y2 :: y3 :: y4 :: "-"%char :: m1 :: m2 :: "-"%char :: d1 :: d2
    :: "T"%char :: h1 :: h2 :: ":"%char :: n1 :: n2 :: ":"%char :: s1 :: s2 :: rest =>
      y ← number 0 [y1; y2; y3; y4];
      m ← number 0 [m1; m2];
      d ← number 0 [d1; d2];
      hh ← number 0 [h1; h2];
      mm ← number 0 [n1; n2];
      ss ← number 0 [s1; s2];
      let '(frac, tz) := before_sign rest in
      us ← fraction frac;
      off ← offset tz;
      if (1 <=? y) && (1 <=? m) && (m <=? 12) && (1 <=? d) && (d <=? days_in_month y m)
         && (hh <=? 23) && (mm <=? 59) && (ss <=? 59)
      then Some (mkDatetime ((toordinal y m d - 1) * 86400 + hh * 3600 + mm * 60 + ss)
                   us off)
      else None
  | _ => None
  end.

End Iso.

(** The pipeline with the concrete timestamps. *)
Definition getTime_iso : string → result Z := getTime Iso.fromisoformat.
Definition run_iso : bool → list logFile → result parser := run Iso.fromisoformat.

Definition t_2023_01_01 : Z := 63808128000.

(** ** What one line contributes *)

(** The slot [setEntryVip] gives a new entry. *)
Definition lineSlot (l : string) : nat :=
  vip (setEntryVip (newLogEntry 0 l tookVip) l).

Definition isMasterLine (l : string) : bool := PyStr.contains "Entering MASTER STATE" l.

(** The entries the six tests of [parseLine] append for a line read at
    [ts] under the flags [g], in the order of the tests. *)
Definition scriptEntries (ts : Z) (l : string) : list LogEntry :=
  if PyStr.contains "VRRP_Script" l
     && (PyStr.contains "succeeded" l || PyStr.contains "failed" l)
  then [mkLogEntry ts l
          (if PyStr.contains "succeeded" l then scriptSucceeded else scriptFailed)
          (if PyStr.contains "chk_ocp" l then 0 else 1)]
  else [].

Definition arpEntries (ts : Z) (l : string) (g : list bool) : list LogEntry :=
  if isArpLine l && negb (default true (g !! lineSlot l))
  then [mkLogEntry ts l tookVip (lineSlot l)] else [].

Definition masterEntries (ts : Z) (l : string) : list LogEntry :=
  if isMasterLine l then [mkLogEntry ts l tookVip (lineSlot l)] else [].

Definition backupEntries (ts : Z) (l : string) : list LogEntry :=
  if PyStr.contains "Entering BACKUP STATE" l
  then [mkLogEntry ts l lostVip (lineSlot l)] else [].

Definition reloadEntries (ts : Z) (l : string) : list LogEntry :=
  if PyStr.contains "Reloading ..." l then [mkLogEntry ts l reloading 0] else [].

Definition addressEntries (ts : Z) (l : string) : list LogEntry :=
  if PyStr.contains "Assigned address" l then [mkLogEntry ts l nodeAddress 0] else [].

Definition lineEntries (ts : Z) (l : string) (g : list bool) : list LogEntry :=
  scriptEntries ts l ++ arpEntries ts l g ++ masterEntries ts l
  ++ backupEntries ts l ++ reloadEntries ts l ++ addressEntries ts l.

(** The flags after the line. *)
Definition lineFlags (g : list bool) (l : string) : list bool :=
  if isArpLine l || isMasterLine l then <[lineSlot l := true]> g else g.

(** The labels after the line. *)
Definition lineVips (vs : list string) (l : string) : list string :=
  if isArpLine l then <[lineSlot l := default "" (last (PyStr.split l))]> vs else vs.

(** [self.logEntries[name]] extended by several entries. *)
Definition appendEntries (name : string) (es : list LogEntry) (self : parser) : parser :=
  with_logEntries self (OD.update name (λ old, old ++ es) (logEntries self)).

(** ** What a file and a run contribute *)

(** [gratuitousArp] at the start of a file, [haveVip] at the start of a
    node. *)
Definition allFalse : list bool := [false; false; false; false].

(** The entries a sequence of timed lines appends, from the flags [g]. *)
Fixpoint linesEntries (tls : list (Z * string)) (g : list bool) : list LogEntry :=
  match tls with
  | [] => []
  | (ts, l) :: rest => lineEntries ts l g ++ linesEntries rest (lineFlags g l)
  end.

(** The bounds after the timestamps [tss]. *)
Definition boundsOf (tb : option Z * option Z) (tss : list Z) : option Z * option Z :=
  foldl (λ tb ts, updateBounds ts tb) tb tss.

Section Resolve.
Variable fromisoformat : string → option datetime.

(** The lines of a file with their timestamps; the first line without
    one raises. *)
Fixpoint stampLines (ls : list string) : result (list (Z * string)) :=
  match ls with
  | [] => Ok []
  | l :: ls' =>
      ts ← getTime fromisoformat l;
      rest ← stampLines ls';
      Ok ((ts, l) :: rest)
  end.

(** A file read: its node name and its timed lines. *)
Definition resolve (mg : bool) (f : logFile) : result (string * list (Z * string)) :=
  name ← nodeName mg f;
  tls ← stampLines (lines f);
  Ok (name, tls).

Fixpoint resolveAll (mg : bool) (fs : list logFile)
    : result (list (string * list (Z * string))) :=
  match fs with
  | [] => Ok []
  | f :: fs' =>
      r ← resolve mg f;
      rest ← resolveAll mg fs';
      Ok (r :: rest)
  end.

(** The parser after a file that was read. *)
Definition absorbFile (self : parser) (r : string * list (Z * string)) : parser :=
  mkParser (isMustGather self)
    (OD.update r.1 (λ old, old ++ linesEntries r.2 allFalse)
       (OD.setdefault r.1 [] (logEntries self)))
    (nodeData self)
    (boundsOf (timeBounds self) (r.2.*1))
    (foldl lineVips (vips self) (r.2.*2))
    (tzAware self).

Definition absorb (self : parser) (rs : list (string * list (Z * string))) : parser :=
  foldl absorbFile self rs.

(** The kind that the comparisons of lines 188-191 meet: that of the
    bounds, and none while the bounds are [None]. *)
Definition kindOf (tb : option Z * option Z) (aw : bool) : option bool :=
  match tb with
  | (None, None) => None
  | _ => Some aw
  end.

(** The timestamps of the lines [ls] compare with the bounds and with one
    another: each is of the kind that it meets. *)
Fixpoint oneKind (ref : option bool) (ls : list string) : Prop :=
  match ls with
  | [] => True
  | l :: ls' =>
      match ref with Some k => getAware fromisoformat l = k | None => True end
      ∧ oneKind (Some (getAware fromisoformat l)) ls'
  end.

(** The kind of the datetimes of a parser after the lines [ls]. *)
Definition kindAfter (aw : bool) (ls : list string) : bool :=
  foldl (λ _ l, getAware fromisoformat l) aw ls.

(** The kind that the comparisons meet after the lines [ls]. *)
Definition refAfter (ref : option bool) (ls : list string) : option bool :=
  foldl (λ _ l, Some (getAware fromisoformat l)) ref ls.

(** The timestamps of the files are of one kind: all offset-naive or all
    offset-aware. *)
Definition sameKind (files : list logFile) : Prop :=
  ∀ f f' l l', f ∈ files → f' ∈ files → l ∈ lines f → l' ∈ lines f' →
    getAware fromisoformat l = getAware fromisoformat l'.

End Resolve.

(** The entries of the files of node [name], in the order of the files. *)
Definition nodeEntries (name : string) (rs : list (string * list (Z * string)))
    : list LogEntry :=
  concat (map (λ r, if decide (r.1 = name) then linesEntries r.2 allFalse else []) rs).

(** All timed lines of a run, in the order they are read. *)
Definition allLines (rs : list (string * list (Z * string))) : list (Z * string) :=
  concat (rs.*2).

(** [tb] holds the least and the greatest of [tss], or nothing when there
    is no timestamp. *)
Definition isBounds (tb : option Z * option Z) (tss : list Z) : Prop :=
  match tss with
  | [] => tb = (None, None)
  | _ => ∃ lo hi, tb = (Some lo, Some hi) ∧ lo ∈ tss ∧ hi ∈ tss
                  ∧ ∀ t, t ∈ tss → lo ≤ t ≤ hi
  end.

(** ** The replay of a node *)

(** The kinds of [n] successive boundaries: gained, lost, gained, ... *)
Definition transitions (n : nat) : list event :=
  (λ i, if Nat.even i then tookVip else lostVip) <$> seq 0 n.

(** What holds of [data] and [haveVip] after the entries [pre] of a node:
    the boundaries of a slot are the timestamps of entries [es] of that slot
    taken in order from [pre], of alternating kinds, and the slot is held
    when their number is odd. *)
Definition replayInv (pre : list LogEntry) (data : NodeData) (haveVip : list bool) : Prop :=
  length haveVip = 4%nat ∧ length (vipChanges data) = 4%nat ∧
  ∀ s, (s < 4)%nat →
    ∃ es, es `sublist_of` pre
          ∧ Forall (λ e, vip e = s) es
          ∧ vipChanges data !! s = Some (timestamp <$> es)
          ∧ entry_event <$> es = transitions (length es)
          ∧ haveVip !! s = Some (Nat.odd (length es)).

(** ** Lines and files of the examples *)

(** A line as a file handle yields it, with its newline. *)
Definition eol (s : string) : string := s ++ String (ascii_of_nat 10) EmptyString.

(** A line that one of the six tests of [parseLine] recognizes. *)
Definition recognized (l : string) : bool :=
  (PyStr.contains "VRRP_Script" l
   && (PyStr.contains "succeeded" l || PyStr.contains "failed" l))
  || isArpLine l || isMasterLine l
  || PyStr.contains "Entering BACKUP STATE" l
  || PyStr.contains "Reloading ..." l
  || PyStr.contains "Assigned address" l.

(** The exceptions of the Python library, as opposed to the one
    [processEntries] raises itself. *)
Definition libraryError {A : Type} (r : result A) : Prop := r ≠ Raise NoLogEntries.

(** One file in a flat directory, with one line that no test recognizes. *)
Definition unrecognizedFile : logFile :=
  mkLogFile ["logs"; "node1.log"] [eol "2023-01-01T00:00:00 Starting VRRP child process"].

(** The specification's reading of [NoLogEntries]: a run after which no
    node has an entry fails at [processEntries]. *)
Definition noEvents_raises : Prop :=
  ∀ mg files self,
    parseLogs Iso.fromisoformat files (newParser mg) = Ok self →
    (∀ name entries, OD.get name (logEntries self) = Some entries → entries = []) →
    processEntries self = Raise NoLogEntries.

(** ** VIP labels *)

(** [line.split()[-1]] of a line that has a token. *)
Definition lastToken (l : string) : string := default "" (last (PyStr.split l)).

(** The gratuitous ARP and neighbour advert lines of slot [s] among [ls],
    in the order of [ls]. *)
Definition arpLinesFor (s : nat) (ls : list string) : list string :=
  filter (λ l, isArpLine l = true ∧ lineSlot l = s) ls.

(** The specification's reading of the labels: the label of a slot is the
    last token of the ARP line of that slot with the latest timestamp. *)
Definition label_is_latest : Prop :=
  ∀ mg files self s l ts,
    parseLogs Iso.fromisoformat files (newParser mg) = Ok self →
    l ∈ arpLinesFor s (concat (lines <$> files)) →
    getTime_iso l = Ok ts →
    (∀ l' ts', l' ∈ arpLinesFor s (concat (lines <$> files)) →
               getTime_iso l' = Ok ts' → l' ≠ l → ts' < ts) →
    vips self !! s = Some (lastToken l).

(** The logs of one pod under the must-gather layout.  [findLogs] sorts the
    paths, which puts [current.log] before the files under [rotated]. *)
Definition podLogs : list string :=
  ["must-gather"; "namespaces"; "openshift-kni-infra"; "pods";
   "keepalived-master-0"; "keepalived"; "keepalived"; "logs"].

(** The current log announces the API VIP at 00:10:00 with one address, the
    rotated log at 00:00:00 with another. *)
Definition currentArpLine : string :=
  eol "2023-01-01T00:10:00 Keepalived_vrrp[9]: (ocp_API_0) Sending/queueing gratuitous ARPs on br-ex for 192.168.111.5".

Definition rotatedArpLine : string :=
  eol "2023-01-01T00:00:00 Keepalived_vrrp[9]: (ocp_API_0) Sending/queueing gratuitous ARPs on br-ex for 192.168.111.9".

Definition currentArp : logFile := mkLogFile (podLogs ++ ["current.log"]) [currentArpLine].

Definition rotatedArp : logFile := mkLogFile (podLogs ++ ["rotated"; "0.log"]) [rotatedArpLine].

(** A line whose first token is no timestamp. *)
Definition malformedLine : string := eol "Jan 01 00:00:00 Keepalived_vrrp[9]: Entering MASTER STATE".

(** ** Gratuitous ARPs within a file *)

(** The entries that the ARP test alone appends over the timed lines
    [tls], from the flags [g]. *)
Fixpoint arpEmitted (tls : list (Z * string)) (g : list bool) : list LogEntry :=
  match tls with
  | [] => []
  | (ts, l) :: rest => arpEntries ts l g ++ arpEmitted rest (lineFlags g l)
  end.

(** A [tookVip] entry of slot [s] that only the ARP test can have
    appended: its line is no [Entering MASTER STATE] line. *)
Definition arpOnly (s : nat) (e : LogEntry) : Prop :=
  entry_event e = tookVip ∧ vip e = s ∧ isMasterLine (line e) = false.

#[global] Instance arpOnly_dec s e : Decision (arpOnly s e).
Proof. unfold arpOnly. apply _. Defined.

(** A line that yields a [tookVip] entry for slot [s], or would without
    the flags. *)
Definition takesSlot (s : nat) (l : string) : bool :=
  (isArpLine l || isMasterLine l) && bool_decide (lineSlot l = s).

(** ** Interval boundaries *)

(** The boundaries [changes] of slot [s] come from entries of that slot,
    taken in order from the sorted entries of the node, whose kinds
    alternate from gained to lost. *)
Definition alternates (entries : list LogEntry) (s : nat) (changes : list Z) : Prop :=
  ∃ es, es `sublist_of` sorted timestamp entries
        ∧ Forall (λ e, vip e = s) es
        ∧ changes = timestamp <$> es
        ∧ entry_event <$> es = transitions (length es).

(** The specification's reading of the boundaries: strictly increasing
    and alternating. *)
Definition boundaries_strictly_increasing : Prop :=
  ∀ mg files self name entries data s changes,
    run_iso mg files = Ok self →
    OD.get name (logEntries self) = Some entries →
    OD.get name (nodeData self) = Some data →
    vipChanges data !! s = Some changes →
    Sorted Z.lt changes ∧ alternates entries s changes.

(** A node that takes the API VIP and loses it within one second. *)
Definition flapFile : logFile :=
  mkLogFile ["logs"; "master-0.log"]
    [eol "2023-01-01T00:00:00.100 Keepalived_vrrp[9]: (ocp_API_0) Entering MASTER STATE";
     eol "2023-01-01T00:00:00.900 Keepalived_vrrp[9]: (ocp_API_0) Entering BACKUP STATE"].

(** Scenario A of the specification. *)
Definition scenarioA : logFile :=
  mkLogFile ["logs"; "master-0.log"]
    [eol "2023-01-01T00:00:00 ... Entering MASTER STATE ... (VI_1)";
     eol "2023-01-01T00:05:00 ... Entering BACKUP STATE ... (VI_1)"].

(** Scenario C of the specification: the current log of a pod, read first,
    has the loss of the second API VIP, a rotated log has the gain. *)
Definition currentBackup : logFile :=
  mkLogFile (podLogs ++ ["current.log"])
    [eol "2023-01-01T00:05:00 Keepalived_vrrp[9]: (ocp_API_1) Entering BACKUP STATE"].

Definition rotatedMaster : logFile :=
  mkLogFile (podLogs ++ ["rotated"; "0.log"])
    [eol "2023-01-01T00:00:00 Keepalived_vrrp[9]: (ocp_API_1) Entering MASTER STATE"].

(** Lines 248-254 for the entries of one slot, in the order they are
    replayed: from the boundaries [changes] and the state [have], a loss
    while the slot is held and a gain while it is not append their
    timestamps and flip the state; any other entry is passed over. *)
Fixpoint slotReplay (es : list LogEntry) (changes : list Z) (have : bool)
    : list Z * bool :=
  match es with
  | [] => (changes, have)
  | entry :: rest =>
      if have then
        if decide (entry_event entry = lostVip)
        then slotReplay rest (changes ++ [timestamp entry]) false
        else slotReplay rest changes have
      else if decide (entry_event entry = tookVip)
        then slotReplay rest (changes ++ [timestamp entry]) true
        else slotReplay rest changes have
  end.

(** A gain or a loss of slot [s]. *)
Definition slotEvent (s : nat) (e : LogEntry) : Prop :=
  vip e = s ∧ (entry_event e = tookVip ∨ entry_event e = lostVip).

#[global] Instance slotEvent_dec s e : Decision (slotEvent s e).
Proof. unfold slotEvent. apply _. Defined.

(** The boundaries of a node in the result of a run. *)
Definition boundariesOf (name : string) (r : result parser) : result (option (list (list Z))) :=
  (λ self, vipChanges <$> OD.get name (nodeData self)) <$> r.

(** ** The sort of [findLogs] *)

(** [sorted(l)] by the [<] of the elements, stable as [sorted] above. *)
Section SortedLt.
Context {A : Type} (lt : A → A → bool).

Fixpoint insert_lt (x : A) (l : list A) : list A :=
  match l with
  | [] => [x]
  | y :: l' => if lt y x then y :: insert_lt x l' else x :: y :: l'
  end.

Fixpoint sorted_lt (l : list A) : list A :=
  match l with
  | [] => []
  | x :: l' => insert_lt x (sorted_lt l')
  end.
End SortedLt.

(** The order of [pathlib] on POSIX paths: the lists of parts compare as
    Python lists of strings do, part by part, a part by its code points. *)
Module PyPath.

Fixpoint compare (p q : list string) : comparison :=
  match p, q with
  | [], [] => Eq
  | [], _ :: _ => Lt
  | _ :: _, [] => Gt
  | a :: p', b :: q' =>
      match OrdersEx.String_as_OT.compare a b with
      | Eq => compare p' q'
      | c => c
      end
  end.

Definition lt (p q : list string) : bool :=
  match compare p q with Lt => true | _ => false end.

End PyPath.

(** Line 161: [self.logFiles = sorted(self.logFiles)]. *)
Definition findLogs_sorted (logFiles : list logFile) : list logFile :=
  sorted_lt (λ f g, PyPath.lt (parts f) (parts g)) logFiles.

(** * The rest of [processEntries]: health events and addresses *)

(** The test of lines 256-259: a health check or a reload. *)
Definition isHealthEvent (e : LogEntry) : bool :=
  bool_decide (entry_event e = scriptSucceeded ∨ entry_event e = scriptFailed)
  || bool_decide (entry_event e = reloading).

(** Lines 261-262: the token after the first token [address]. *)
Definition addressOf (l : string) : result string :=
  let ps := PyStr.split l in
  i ← index "address" ps;
  getitem ps (i + 1).

(** The address a node address entry adds, when its line has one. *)
Definition addressToken (e : LogEntry) : option string :=
  if decide (entry_event e = nodeAddress) then
    match addressOf (line e) with Ok a => Some a | Raise _ => None end
  else None.

(** An entry that [processEntry] can handle: its slot is one of the four,
    and a node address entry has its address. *)
Definition processable (e : LogEntry) : Prop :=
  (vip e < 4)%nat ∧ (entry_event e = nodeAddress → is_ok (addressOf (line e)) = true).

#[global] Instance processable_dec e : Decision (processable e).
Proof. unfold processable. apply _. Defined.

(** The names in the order in which they first occur. *)
Definition seeName (acc : list string) (n : string) : list string :=
  if decide (n ∈ acc) then acc else acc ++ [n].

Definition firstSeen (names : list string) : list string := foldl seeName [] names.

(** * The steps around the core: [findLogs], the files, [populateView] *)

(** ** Exceptions *)

(** What the steps around the core raise: an exception of the core, among
    them the [TypeError] of line 267, and the [OSError]s of [iterdir] and
    [open]. *)
Inductive pyExn : Type :=
  | Core (e : exn)
  | FileNotFoundError
  | NotADirectoryError
  | IsADirectoryError.

Coercion Core : exn >-> pyExn.

Inductive outcome (A : Type) : Type :=
  | Done (a : A)
  | Fails (e : pyExn).
Arguments Done {A} a.
Arguments Fails {A} e.

#[global] Instance outcome_ret : MRet outcome := fun A a => Done a.
#[global] Instance outcome_bind : MBind outcome := fun A B k r =>
  match r with
  | Done a => k a
  | Fails e => Fails e
  end.

Definition is_done {A : Type} (r : outcome A) : bool :=
  match r with Done _ => true | Fails _ => false end.

(** A step of the core within the whole run. *)
Definition lift {A : Type} (r : result A) : outcome A :=
  match r with
  | Ok a => Done a
  | Raise e => Fails (Core e)
  end.

(** [for x in xs: body], over a body that may raise; [s] is what the
    body updates. *)
Fixpoint forEach {X S : Type} (body : X → S → outcome S) (xs : list X) (s : S) : outcome S :=
  match xs with
  | [] => Done s
  | x :: rest => s ← body x s; forEach body rest s
  end.

(** ** The file system *)

(** A tree of directories and regular files, seen from where a path
    starts: for an absolute path the tree is a directory whose entry [/] is
    the root directory, for a relative path it is the working directory.
    A path is the list of its parts.  The entries of a directory stand in
    the order in which [iterdir] yields them; a regular file holds the
    lines that its handle yields when [parseLogs] opens it. *)
Inductive fsNode : Type :=
  | File (content : list string)
  | Dir (entries : list (string * fsNode)).

Module Fs.

(** What is at [path]; a missing entry is [ENOENT], an entry below a
    regular file is [ENOTDIR]. *)
Fixpoint lookup (n : fsNode) (path : list string) : outcome fsNode :=
  match path with
  | [] => Done n
  | name :: rest =>
      match n with
      | File _ => Fails NotADirectoryError
      | Dir es =>
          match OD.get name es with
          | Some c => lookup c rest
          | None => Fails FileNotFoundError
          end
      end
  end.

(** [p.exists()], [p.is_dir()], [p.is_file()]: false where the lookup
    fails. *)
Definition exists_ (fs : fsNode) (p : list string) : bool := is_done (lookup fs p).

Definition is_dir (fs : fsNode) (p : list string) : bool :=
  match lookup fs p with Done (Dir _) => true | _ => false end.

Definition is_file (fs : fsNode) (p : list string) : bool :=
  match lookup fs p with Done (File _) => true | _ => false end.

(** [p.iterdir()], all of it *)
Definition iterdir (fs : fsNode) (p : list string) : outcome (list (list string)) :=
  n ← lookup fs p;
  match n with
  | Dir es => Done ((λ e, p ++ [e.1]) <$> es)
  | File _ => Fails NotADirectoryError
  end.

(** [open(p, 'rt')], or [gzip.open], and the lines read *)
Definition open (fs : fsNode) (p : list string) : outcome (list string) :=
  n ← lookup fs p;
  match n with
  | File ls => Done ls
  | Dir _ => Fails IsADirectoryError
  end.

(** [p.name] *)
Definition name (p : list string) : string := default "" (last p).

End Fs.

(** ** [findLogs] *)

Definition platforms : list string := ["kni"; "nutanix"; "openstack"; "ovirt"; "vsphere"].

(** Lines 30-32 *)
Definition namespaces : list string :=
  (λ platform, ("openshift-" ++ platform ++ "-infra")%string) <$> platforms.

(** Lines 140-144: [Some d] is [isMustGather = True] with
    [namespaceDir = d], the last top-level directory named [namespaces]. *)
Definition namespaceDirOf (topLevelDirs : list (list string)) : option (list string) :=
  foldl (λ found d, if String.eqb (Fs.name d) "namespaces" then Some d else found)
        None topLevelDirs.

(** Lines 150-157, for one entry of [pods]. *)
Definition podFiles (fs : fsNode) (pod : list string) (logFiles : list (list string))
    : outcome (list (list string)) :=
  if PyStr.contains "keepalived" (Fs.name pod) then
    let podLogs := pod ++ ["keepalived"; "keepalived"; "logs"] in
    let rotatedPath := podLogs ++ ["rotated"] in
    logFiles ← (if Fs.exists_ fs rotatedPath then
                  rs ← Fs.iterdir fs rotatedPath; Done (logFiles ++ rs)
                else Done logFiles);
    Done (logFiles ++ [podLogs ++ ["current.log"]; podLogs ++ ["current.insecure.log"]])
  else Done logFiles.

(** Lines 147-157, for one namespace. *)
Definition namespaceFiles (fs : fsNode) (namespaceDir : list string) (namespace : string)
    (logFiles : list (list string)) : outcome (list (list string)) :=
  let checkPath := namespaceDir ++ [namespace; "pods"] in
  if Fs.exists_ fs checkPath then
    pods ← Fs.iterdir fs checkPath; forEach (podFiles fs) pods logFiles
  else Done logFiles.

(** [findLogs] on the tree [fs], from the parts of [self.basePath] and the
    [self.logFiles] it finds; it gives [self.isMustGather] and
    [self.logFiles]. *)
Definition findLogs (fs : fsNode) (basePath : list string) (logFiles : list (list string))
    : outcome (bool * list (list string)) :=
  let p := basePath in
  children ← Fs.iterdir fs p;
  let topLevelDirs := filter (λ i, Fs.is_dir fs i = true) children in
  let namespaceDir := namespaceDirOf topLevelDirs in
  logFiles ← match namespaceDir with
             | Some namespaceDir =>
                 forEach (namespaceFiles fs namespaceDir) namespaces logFiles
             | None => children ← Fs.iterdir fs p;
                       Done (filter (λ i, Fs.is_file fs i = true) children)
             end;
  Done (bool_decide (is_Some namespaceDir), sorted_lt PyPath.lt logFiles).

(** ** [populateView] *)

(** The colour that the style sheet of a label sets. *)
Inductive colour : Type := red | lime | blue.

(** An item of a row of the timeline with its stretch factor: a label of
    [addLabel], with the two times of its tool tip; a label of
    [addEventLabel], with its tool tip; an empty stretch. *)
Inductive rowItem : Type :=
  | changeLabel (start change : Z) (c : colour) (factor : Z)
  | checkLabel (toolTip : string) (c : colour) (factor : Z)
  | spacer (factor : Z).

Definition stretch (i : rowItem) : Z :=
  match i with
  | changeLabel _ _ _ n => n
  | checkLabel _ _ n => n
  | spacer n => n
  end.

(** The stretch factors of a row together. *)
Definition rowStretch (row : list rowItem) : Z := foldr Z.add 0 (stretch <$> row).

(** Lines 288-296; the times are whole seconds, so that [int(length)] is
    their difference. *)
Definition addLabel (start change : Z) (haveVip : bool) (vipLayout : list rowItem)
    : list rowItem :=
  let length := change - start in
  vipLayout ++ [changeLabel start change (if haveVip then lime else red) length].

(** Lines 303-306 *)
Fixpoint vipLoop (changes : list Z) (start : Z) (haveVip : bool) (vipLayout : list rowItem)
    : Z * bool * list rowItem :=
  match changes with
  | [] => (start, haveVip, vipLayout)
  | change :: rest =>
      vipLoop rest change (negb haveVip) (addLabel start change haveVip vipLayout)
  end.

(** Lines 299-307: the row of one VIP. *)
Definition vipRow (t0 t1 : Z) (changes : list Z) : list rowItem :=
  let '(start, haveVip, vipLayout) := vipLoop changes t0 false [] in
  addLabel start t1 haveVip vipLayout.

(** Lines 315-319: the colour of an event label. *)
Definition eventColour (entry : LogEntry) : colour :=
  if decide (entry_event entry = scriptSucceeded) then lime
  else if decide (entry_event entry = reloading) then blue
  else red.

(** Lines 310-321 *)
Definition addEventLabel (start : Z) (entry : LogEntry) (vipLayout : list rowItem)
    : list rowItem :=
  let length := Z.max (timestamp entry - start) 1 in
  vipLayout ++ [spacer (length - 1); checkLabel (line entry) (eventColour entry) 1].

(** Lines 326-328 *)
Fixpoint eventLoop (es : list LogEntry) (start : Z) (vipLayout : list rowItem)
    : Z * list rowItem :=
  match es with
  | [] => (start, vipLayout)
  | entry :: rest => eventLoop rest (timestamp entry) (addEventLabel start entry vipLayout)
  end.

(** Lines 323-330: the row of the events. *)
Definition eventRow (t0 t1 : Z) (es : list LogEntry) : list rowItem :=
  let '(start, vipLayout) := eventLoop es t0 [] in
  let remaining := t1 - start in
  vipLayout ++ [spacer remaining].

(** What [populateView] shows of a node: the name, the address labels (in
    the order of the set's iteration) and the rows of [timelineLayout]. *)
Record nodeView : Type := mkNodeView {
  nameEdit : string;
  addrLabels : gset string;
  timeline : list (list rowItem)
}.

(** The widgets that [populateView] writes: the start, the end and the
    duration that the text of [timespanLabel] is formatted from, the text of
    [vipLabel], and the node layouts of [viewLayout]. *)
Record view : Type := mkView {
  timespanLabel : option (Z * Z * Z);
  vipLabel : string;
  viewLayout : list nodeView
}.

(** The widgets as [__init__] leaves them. *)
Definition newView : view := mkView None "" [].

(** Lines 298-308: [for vip in range(4)]. *)
Fixpoint vipRows (t0 t1 : Z) (data : NodeData) (slots : list nat)
    : result (list (list rowItem)) :=
  match slots with
  | [] => Ok []
  | vip :: rest =>
      changes ← getitem (vipChanges data) vip;
      rows ← vipRows t0 t1 data rest;
      Ok (vipRow t0 t1 changes :: rows)
  end.

(** Lines 273-331: the body of [for node, data in self.nodeData.items()]. *)
Definition nodeViewOf (t0 t1 : Z) (node : string) (data : NodeData) : result nodeView :=
  rows ← vipRows t0 t1 data (seq 0 4);
  Ok (mkNodeView node (addrs data) (rows ++ [eventRow t0 t1 (events data)])).

Fixpoint nodeViews (t0 t1 : Z) (items : list (string * NodeData)) : result (list nodeView) :=
  match items with
  | [] => Ok []
  | (node, data) :: rest =>
      nv ← nodeViewOf t0 t1 node data;
      nvs ← nodeViews t0 t1 rest;
      Ok (nv :: nvs)
  end.

(** [populateView]: a bound that is [None] makes the subtraction of line
    267 raise [TypeError]. *)
Definition populateView (self : parser) (v : view) : outcome view :=
  match timeBounds self with
  | (Some t0, Some t1) =>
      let duration := t1 - t0 in
      v0 ← lift (getitem (vips self) 0);
      v1 ← lift (getitem (vips self) 1);
      v2 ← lift (getitem (vips self) 2);
      v3 ← lift (getitem (vips self) 3);
      let text := ("VIPs: " ++ v0 ++ " " ++ v1 ++ " " ++ v2 ++ " " ++ v3)%string in
      nvs ← lift (nodeViews t0 t1 (nodeData self));
      Done (mkView (Some (t0, t1, duration)) text (viewLayout v ++ nvs))
  | _ => Fails TypeError
  end.

(** ** The whole of [run] *)

Section RunView.
Variable fromisoformat : string → option datetime.

(** The body of [for f in self.logFiles], lines 175-226, with the file
    read from [fs]. *)
Definition parseFileFs (fs : fsNode) (f : list string) (self : parser) : outcome parser :=
  name ← lift (nodeName (isMustGather self) (mkLogFile f []));
  let self := with_logEntries self (OD.setdefault name [] (logEntries self)) in
  let gratuitousArp := [false; false; false; false] in
  _ ← lift (getlast f);
  ls ← Fs.open fs f;
  '(self, _) ← lift (parseLines fromisoformat name ls self gratuitousArp);
  Done self.

(** [parseLogs], with the files read from [fs]. *)
Definition parseLogsFs (fs : fsNode) (logFiles : list (list string)) (self : parser)
    : outcome parser :=
  forEach (parseFileFs fs) logFiles self.

(** [run], lines 121-135, on a new parser: the exception of a step is
    shown and raised again. *)
Definition runView (fs : fsNode) (basePath : list string) : outcome view :=
  '(mg, logFiles) ← findLogs fs basePath [];
  self ← parseLogsFs fs logFiles (newParser mg);
  self ← lift (processEntries self);
  populateView self newView.

End RunView.

(** A log file as read from the tree. *)
Definition readAs (fs : fsNode) (p : list string) (f : logFile) : Prop :=
  parts f = p ∧ Fs.open fs p = Done (lines f).




(** Two health checks within one second and a reload a minute later. *)
Definition checksFile : logFile :=
  mkLogFile ["logs"; "master-0.log"]
    [eol "2023-01-01T00:00:10.100 Keepalived_vrrp[9]: VRRP_Script(chk_ocp_lb) failed (exited with status 1)";
     eol "2023-01-01T00:00:10.700 Keepalived_vrrp[9]: VRRP_Script(chk_ocp_lb) succeeded";
     eol "2023-01-01T00:01:10 Keepalived[1]: Reloading ..."].

(** ** The files of a must-gather *)

(** A path that [findLogs] lists for the entry [pod] of a [pods]
    directory: the two current logs, whether they exist or not, and
    whatever [rotated] holds. *)
Definition podLog (fs : fsNode) (pod f : list string) : Prop :=
  let podLogs := pod ++ ["keepalived"; "keepalived"; "logs"] in
  f = podLogs ++ ["current.log"]
  ∨ f = podLogs ++ ["current.insecure.log"]
  ∨ ∃ rs r, Fs.lookup fs (podLogs ++ ["rotated"]) = Done (Dir rs)
            ∧ r ∈ rs.*1 ∧ f = podLogs ++ ["rotated"; r].

(** A path that [findLogs] lists under the must-gather layout: a log of
    an entry of [pods] whose name contains [keepalived], in one of the
    five namespaces. *)
Definition mustGatherLog (fs : fsNode) (basePath f : list string) : Prop :=
  ∃ ns es pod,
    ns ∈ namespaces
    ∧ Fs.lookup fs (basePath ++ ["namespaces"; ns; "pods"]) = Done (Dir es)
    ∧ pod ∈ es.*1
    ∧ PyStr.contains "keepalived" pod = true
    ∧ podLog fs (basePath ++ ["namespaces"; ns; "pods"; pod]) f.

(** A must-gather with one keepalived pod: both current logs and one
    rotated log. *)
Definition podTree (logs : list (string * fsNode)) : fsNode :=
  Dir [("must-gather",
    Dir [("namespaces",
      Dir [("openshift-kni-infra",
        Dir [("pods",
          Dir [("keepalived-master-0",
            Dir [("keepalived", Dir [("keepalived", Dir [("logs", Dir logs)])])])])])]);
         ("event-filter.html", File [])])].

Definition mustGatherTree : fsNode :=
  podTree [("rotated", Dir [("0.log", File [rotatedArpLine])]);
           ("current.log", File [currentArpLine]);
           ("current.insecure.log", File [])].

(** The same without [current.insecure.log]. *)
Definition secureOnlyTree : fsNode :=
  podTree [("rotated", Dir [("0.log", File [rotatedArpLine])]);
           ("current.log", File [currentArpLine])].

(** A directory of plain log files, with a subdirectory. *)
Definition flatTree : fsNode :=
  Dir [("logs",
    Dir [("worker-1.log", File [currentArpLine]);
         ("old", Dir [("master-0.log", File [rotatedArpLine])]);
         ("master-0.log", File (lines scenarioA))])].

(** The paths that [findLogs] lists for [mustGatherTree]. *)
Definition mustGatherFiles : list (list string) :=
  [podLogs ++ ["current.insecure.log"]; podLogs ++ ["current.log"];
   podLogs ++ ["rotated"; "0.log"]].

(** ** The progress text of [parseLogs] *)

(** Lines 170-171, on [str(f)]: a name of more than 125 characters keeps
    its first 25 and its last 100 characters. *)
Definition shortname (s : string) : string :=
  if (125 <? String.length s)%nat then
    (substring 0 25 s ++ "..." ++ substring (String.length s - 100) 100 s)%string
  else s.

(** Line 172: the text shown while a file is parsed. *)
Definition progressText (s : string) : string := ("Parsing file " ++ shortname s)%string.

(** A path of 126 characters. *)
Definition longName : string :=
  "/must-gather/namespaces/openshift-kni-infra/pods/keepalived-master-0.ostest.test.metalkube.org/keepalived/keepalived/logs/curr".

(** ** [dropEvent] *)

(** [pathlib] on POSIX, from text: the parts of [Path(text)] and
    [str(path)]. *)
Module PurePath.

Definition sep : ascii := "/"%char.

(** [s.lstrip('/')] *)
Fixpoint lstrip (s : string) : string :=
  match s with
  | String c s' => if Ascii.eqb c sep then lstrip s' else s
  | EmptyString => EmptyString
  end.

(** [s.split('/')] *)
Fixpoint split (s : string) : list string :=
  match s with
  | EmptyString => [EmptyString]
  | String c s' =>
      if Ascii.eqb c sep then EmptyString :: split s'
      else match split s' with
           | x :: xs => String c x :: xs
           | [] => [String c EmptyString]
           end
  end.

(** ['/'.join(l)] *)
Fixpoint join (l : list string) : string :=
  match l with
  | [] => ""
  | [x] => x
  | x :: l' => (x ++ "/" ++ join l')%string
  end.

(** [splitroot]: the root and the rest; the root is [//] for exactly two
    leading slashes. *)
Definition splitroot (part : string) : string * string :=
  match part with
  | String c _ =>
      if Ascii.eqb c sep then
        let stripped := lstrip part in
        if (String.length part - String.length stripped =? 2)%nat then ("//", stripped)
        else ("/", stripped)
      else ("", part)
  | EmptyString => ("", part)
  end.

(** [Path(text).parts]: the root, if any, and the components that are
    neither empty nor a dot. *)
Definition parts_of (text : string) : list string :=
  let '(root, rel) := splitroot text in
  let comps := filter (λ x, x ≠ "" ∧ x ≠ ".") (split rel) in
  if decide (root = "") then comps else root :: comps.

Definition absolute (text : string) : bool := negb (String.eqb (splitroot text).1 "").

(** The parts of [Path] applied to several arguments: the parts of the
    arguments, from the last one with a root on. *)
Fixpoint parts_of_args (args : list string) : list string :=
  match args with
  | [] => []
  | a :: rest =>
      if existsb absolute rest then parts_of_args rest
      else parts_of a ++ parts_of_args rest
  end.

(** [str(path)], from the parts. *)
Definition str (ps : list string) : string :=
  match ps with
  | [] => "."
  | r :: rest =>
      if String.eqb r "/" || String.eqb r "//" then (r ++ join rest)%string
      else join ps
  end.

(** A component holds no slash. *)
Fixpoint has_sep (s : string) : bool :=
  match s with
  | EmptyString => false
  | String c s' => Ascii.eqb c sep || has_sep s'
  end.

(** A component of a path: not empty, not a dot, without a slash. *)
Definition component (x : string) : Prop := x ≠ "" ∧ x ≠ "." ∧ has_sep x = false.

End PurePath.

(** Lines 341-342: [self.basePath] after a drop of [text]. *)
Definition dropEvent (text : string) : string :=
  let path := PurePath.parts_of_args (tail (PurePath.parts_of text)) in
  ("/" ++ PurePath.str path)%string.
(** * Properties *)

(** ** The concrete timestamps *)

Example getTime_iso_midnight :
  getTime_iso "2023-01-01T00:00:00 ... Entering MASTER STATE ... (VI_1)" = Ok t_2023_01_01.
Proof. vm_compute. reflexivity. Qed.

Example getTime_iso_truncates :
  getTime_iso "2023-01-01T00:05:00.900 x" = Ok (t_2023_01_01 + 300).
Proof. vm_compute. reflexivity. Qed.

(** ** The error monad *)

Lemma bind_Ok {A B : Type} (r : result A) (k : A → result B) (b : B) :
  r ≫= k = Ok b ↔ ∃ a, r = Ok a ∧ k a = Ok b.
Proof.
  destruct r as [a|e]; simpl; split.
  - intros H. by exists a.
  - by intros (a' & [= <-] & H).
  - discriminate.
  - by intros (a' & [=] & _).
Qed.

Lemma bind_Raise {A B : Type} (r : result A) (k : A → result B) (e : exn) :
  r = Raise e → r ≫= k = Raise e.
Proof. by intros ->. Qed.

Lemma getitem_Ok {A : Type} (l : list A) (i : nat) (x : A) :
  getitem l i = Ok x ↔ l !! i = Some x.
Proof. unfold getitem. destruct (l !! i); naive_solver. Qed.

Lemma setitem_Ok {A : Type} (l : list A) (i : nat) (x : A) :
  (i < length l)%nat → setitem l i x = Ok (<[i:=x]> l).
Proof. intros H. unfold setitem. by rewrite decide_True. Qed.

Lemma setitem_inv {A : Type} (l l' : list A) (i : nat) (x : A) :
  setitem l i x = Ok l' → (i < length l)%nat ∧ l' = <[i:=x]> l.
Proof. unfold setitem. case_decide; naive_solver. Qed.

(** ** [sorted] *)

Section SortedFacts.
Context {A : Type} (key : A → Z).

Definition key_le (x y : A) : Prop := key x ≤ key y.

#[local] Instance key_le_trans : Transitive key_le.
Proof. unfold key_le. intros x y z. lia. Qed.

Lemma insert_sorted_perm (x : A) (l : list A) : insert_sorted key x l ≡ₚ x :: l.
Proof.
  induction l as [|y l IH]; simpl; [done|].
  destruct (key x <=? key y); [done|].
  rewrite IH. apply perm_swap.
Qed.

Lemma sorted_perm (l : list A) : sorted key l ≡ₚ l.
Proof.
  induction l as [|x l IH]; simpl; [done|].
  by rewrite insert_sorted_perm, IH.
Qed.

Lemma insert_sorted_Sorted (x : A) (l : list A) :
  Sorted key_le l → Sorted key_le (insert_sorted key x l).
Proof.
  induction 1 as [|y l Hl IH Hy]; simpl.
  - repeat constructor.
  - destruct (Z.leb_spec (key x) (key y)).
    + repeat constructor; done.
    + constructor; [done|].
      destruct Hy as [|z l Hz]; simpl.
      * constructor. unfold key_le. lia.
      * destruct (key x <=? key z); constructor; unfold key_le in *; lia.
Qed.

Lemma sorted_Sorted (l : list A) : Sorted key_le (sorted key l).
Proof.
  induction l as [|x l IH]; simpl; [constructor|].
  by apply insert_sorted_Sorted.
Qed.

(** A list of non-decreasing keys is left as it is. *)
Lemma sorted_id (l : list A) : Sorted key_le l → sorted key l = l.
Proof.
  induction 1 as [|x l Hl IH Hx]; simpl; [done|].
  rewrite IH. destruct Hx as [|y l Hxy]; simpl; [done|].
  unfold key_le in Hxy. destruct (Z.leb_spec (key x) (key y)); [done|lia].
Qed.

(** With pairwise distinct keys the result depends on the elements
    only, not on their order. *)
Lemma sorted_perm_eq (l1 l2 : list A) :
  l1 ≡ₚ l2 → NoDup (key <$> l1) → sorted key l1 = sorted key l2.
Proof.
  intros Hp Hnd.
  apply (Sorted_unique_strong key_le); [|apply sorted_Sorted..|].
  - intros x1 x2 H1 H2 Hle1 Hle2.
    rewrite sorted_perm in H1. rewrite sorted_perm, <-Hp in H2.
    assert (key x1 = key x2) as Hk by (unfold key_le in *; lia).
    clear -H1 H2 Hk Hnd.
    induction l1 as [|y l1 IH]; [by apply elem_of_nil in H1|].
    rewrite fmap_cons in Hnd. apply NoDup_cons in Hnd as [Hy Hnd].
    apply elem_of_cons in H1 as [->|H1]; apply elem_of_cons in H2 as [->|H2];
      [done| | |by apply IH].
    + exfalso. apply Hy. rewrite Hk. by apply list_elem_of_fmap_2.
    + exfalso. apply Hy. rewrite <-Hk. by apply list_elem_of_fmap_2.
  - by rewrite !sorted_perm.
Qed.
End SortedFacts.

(** ** Ordered dicts *)

Section ODFacts.
Context {V : Type}.
Implicit Types (d : list (string * V)) (k : string).

Lemma get_update k k' (f : V → V) d :
  OD.get k (OD.update k' f d) = if decide (k = k') then f <$> OD.get k d else OD.get k d.
Proof.
  induction d as [|[k0 v0] d IH]; simpl; [by case_decide|].
  destruct (String.eqb_spec k0 k') as [->|Hne]; simpl.
  - destruct (String.eqb_spec k' k) as [->|Hne']; case_decide; naive_solver.
  - destruct (String.eqb_spec k0 k) as [->|Hne']; [|done].
    by rewrite decide_False.
Qed.

Lemma keys_update k (f : V → V) d : OD.keys (OD.update k f d) = OD.keys d.
Proof.
  induction d as [|[k0 v0] d IH]; simpl; [done|].
  destruct (String.eqb k0 k); simpl; [done|]. by f_equal.
Qed.

Lemma length_update k (f : V → V) d : length (OD.update k f d) = length d.
Proof. rewrite <-(length_map fst), <-(length_map fst d). f_equal. apply keys_update. Qed.

Lemma update_update k (f g h : V → V) d :
  (∀ v, h v = f (g v)) → OD.update k f (OD.update k g d) = OD.update k h d.
Proof.
  intros Hh. induction d as [|[k0 v0] d IH]; simpl; [done|].
  destruct (String.eqb_spec k0 k) as [->|Hne]; simpl.
  - by rewrite String.eqb_refl, Hh.
  - destruct (String.eqb_spec k0 k); [done|]. by f_equal.
Qed.

Lemma update_id k (f : V → V) d : (∀ v, f v = v) → OD.update k f d = d.
Proof.
  intros Hf. induction d as [|[k0 v0] d IH]; simpl; [done|].
  destruct (String.eqb k0 k); by rewrite ?Hf, ?IH.
Qed.

Lemma get_setdefault k k' (v : V) d :
  OD.get k (OD.setdefault k' v d)
  = if decide (k = k') then Some (default v (OD.get k d)) else OD.get k d.
Proof.
  induction d as [|[k0 v0] d IH]; simpl.
  - destruct (String.eqb_spec k' k) as [->|Hne]; case_decide; naive_solver.
  - destruct (String.eqb_spec k0 k') as [->|Hne]; simpl.
    + destruct (String.eqb_spec k' k) as [->|Hne']; case_decide; naive_solver.
    + destruct (String.eqb_spec k0 k) as [->|Hne']; [|done].
      by rewrite decide_False.
Qed.

Lemma setdefault_nonempty k (v : V) d : OD.setdefault k v d ≠ [].
Proof. destruct d as [|[k0 v0] d]; simpl; [done|]. by destruct (String.eqb k0 k). Qed.

Lemma get_set k k' (v : V) d :
  OD.get k (OD.set k' v d) = if decide (k = k') then Some v else OD.get k d.
Proof.
  induction d as [|[k0 v0] d IH]; simpl.
  - destruct (String.eqb_spec k' k) as [->|Hne]; case_decide; naive_solver.
  - destruct (String.eqb_spec k0 k') as [->|Hne]; simpl.
    + destruct (String.eqb_spec k' k) as [->|Hne']; case_decide; naive_solver.
    + destruct (String.eqb_spec k0 k) as [->|Hne']; [|done].
      by rewrite decide_False.
Qed.

Lemma get_Some_keys k d : is_Some (OD.get k d) ↔ k ∈ OD.keys d.
Proof.
  induction d as [|[k0 v0] d IH]; simpl.
  - split; [by intros [? [=]]|by intros ?%elem_of_nil].
  - rewrite elem_of_cons. destruct (String.eqb_spec k0 k) as [->|Hne].
    + split; eauto.
    + rewrite IH. split; [by right|by intros [?|?]].
Qed.
End ODFacts.

(** ** What one line contributes *)

Lemma lineSlot_lt (l : string) : (lineSlot l < 4)%nat.
Proof.
  unfold lineSlot, setEntryVip.
  repeat (match goal with |- context [if ?b then _ else _] => destruct b end);
    simpl; lia.
Qed.

Lemma setEntryVip_new (ts : Z) (l : string) (ev : event) :
  setEntryVip (newLogEntry ts l ev) l = mkLogEntry ts l ev (lineSlot l).
Proof.
  unfold lineSlot, setEntryVip.
  repeat (match goal with |- context [if ?b then _ else _] => destruct b end);
    reflexivity.
Qed.

Lemma length_lineFlags (g : list bool) (l : string) : length (lineFlags g l) = length g.
Proof. unfold lineFlags. destruct (_ || _); by rewrite ?length_insert. Qed.

Lemma length_lineVips (vs : list string) (l : string) : length (lineVips vs l) = length vs.
Proof. unfold lineVips. destruct (isArpLine l); by rewrite ?length_insert. Qed.

Lemma appendEntries_nil name self : appendEntries name [] self = self.
Proof.
  destruct self. unfold appendEntries, with_logEntries. simpl. f_equal.
  apply update_id. intros v. by rewrite app_nil_r.
Qed.

Lemma appendEntry_appendEntries name e es self :
  appendEntry name e (appendEntries name es self) = appendEntries name (es ++ [e]) self.
Proof.
  destruct self. unfold appendEntry, appendEntries, with_logEntries. simpl. f_equal.
  apply update_update. intros v. by rewrite app_assoc.
Qed.

Lemma appendEntries_appendEntries name es1 es2 self :
  appendEntries name es2 (appendEntries name es1 self) = appendEntries name (es1 ++ es2) self.
Proof.
  destruct self. unfold appendEntries, with_logEntries. simpl. f_equal.
  apply update_update. intros v. by rewrite app_assoc.
Qed.

Section ParseFacts.
Variable fromisoformat : string → option datetime.

Lemma getTime_split (l : string) (ts : Z) :
  getTime fromisoformat l = Ok ts →
  ∃ tok d, PyStr.split l !! 0%nat = Some tok ∧ fromisoformat tok = Some d
           ∧ ts = replace_microsecond_0 d.
Proof.
  unfold getTime, getitem. destruct (PyStr.split l !! 0%nat) as [tok|]; [|done].
  simpl. destruct (fromisoformat tok) as [d|] eqn:E; [|done].
  intros [= <-]. by exists tok, d.
Qed.

Lemma getTime_last (l : string) (ts : Z) :
  getTime fromisoformat l = Ok ts →
  getlast (PyStr.split l) = Ok (default "" (last (PyStr.split l))).
Proof.
  intros (tok & d & Htok & _)%getTime_split. unfold getlast.
  destruct (PyStr.split l) as [|x xs] eqn:E; [done|].
  destruct (last (x :: xs)) eqn:El; [done|].
  by apply last_None in El.
Qed.

Lemma appendEntries_with_vips name es self vs :
  appendEntries name es (with_vips self vs) = with_vips (appendEntries name es self) vs.
Proof. done. Qed.

Lemma appendEntries_with_timeBounds name es self tb :
  appendEntries name es (with_timeBounds self tb)
  = with_timeBounds (appendEntries name es self) tb.
Proof. done. Qed.

Lemma scriptCheck_spec name ts l self es :
  scriptCheck name ts l (appendEntries name es self)
  = appendEntries name (es ++ scriptEntries ts l) self.
Proof.
  unfold scriptCheck, scriptEntries.
  destruct (_ && _); [|by rewrite app_nil_r].
  rewrite appendEntry_appendEntries. do 2 f_equal.
  by destruct (PyStr.contains "succeeded" l), (PyStr.contains "chk_ocp" l).
Qed.

Lemma arpCheck_spec name ts l self g es :
  getlast (PyStr.split l) = Ok (default "" (last (PyStr.split l))) →
  length g = 4%nat → length (vips self) = 4%nat →
  arpCheck name ts l (appendEntries name es self) g
  = Ok (appendEntries name (es ++ arpEntries ts l g) (with_vips self (lineVips (vips self) l)),
        if isArpLine l then <[lineSlot l := true]> g else g).
Proof.
  intros Hlast Hg Hv. unfold arpCheck, arpEntries, lineVips.
  pose proof (lineSlot_lt l) as Hslot.
  change (vips (appendEntries name es self)) with (vips self).
  destruct (isArpLine l); simpl.
  - rewrite setEntryVip_new, Hlast. simpl.
    rewrite !setitem_Ok by lia. simpl.
    destruct (g !! lineSlot l) as [seen|] eqn:Eg;
      [|apply lookup_ge_None in Eg; lia].
    unfold getitem. rewrite Eg. simpl. destruct seen; simpl.
    + rewrite app_nil_r. by rewrite (list_insert_id g) by done.
    + by rewrite <-appendEntry_appendEntries.
  - rewrite app_nil_r. by destruct self.
Qed.

Lemma masterCheck_spec name ts l self g es :
  length g = 4%nat →
  masterCheck name ts l (appendEntries name es self) g
  = Ok (appendEntries name (es ++ masterEntries ts l) self,
        if isMasterLine l then <[lineSlot l := true]> g else g).
Proof.
  intros Hg. unfold masterCheck, masterEntries, isMasterLine.
  pose proof (lineSlot_lt l) as Hslot.
  destruct (PyStr.contains "Entering MASTER STATE" l); simpl.
  - rewrite setEntryVip_new. simpl. rewrite setitem_Ok by lia. simpl.
    by rewrite appendEntry_appendEntries.
  - by rewrite app_nil_r.
Qed.

Lemma backupCheck_spec name ts l self es :
  backupCheck name ts l (appendEntries name es self)
  = appendEntries name (es ++ backupEntries ts l) self.
Proof.
  unfold backupCheck, backupEntries.
  destruct (PyStr.contains _ l); [|by rewrite app_nil_r].
  by rewrite setEntryVip_new, appendEntry_appendEntries.
Qed.

Lemma reloadCheck_spec name ts l self es :
  reloadCheck name ts l (appendEntries name es self)
  = appendEntries name (es ++ reloadEntries ts l) self.
Proof.
  unfold reloadCheck, reloadEntries.
  destruct (PyStr.contains _ l); [|by rewrite app_nil_r].
  by rewrite appendEntry_appendEntries.
Qed.

Lemma addressCheck_spec name ts l self es :
  addressCheck name ts l (appendEntries name es self)
  = appendEntries name (es ++ addressEntries ts l) self.
Proof.
  unfold addressCheck, addressEntries.
  destruct (PyStr.contains _ l); [|by rewrite app_nil_r].
  by rewrite appendEntry_appendEntries.
Qed.

Lemma appendEntries_with_tzAware name es self aw :
  appendEntries name es (with_tzAware self aw) = with_tzAware (appendEntries name es self) aw.
Proof. done. Qed.

(** ** The kinds of the timestamps *)

Lemma compareBounds_Ok aw self :
  compareBounds aw self = Ok () ↔
  match kindOf (timeBounds self) (tzAware self) with Some k => aw = k | None => True end.
Proof.
  unfold compareBounds, kindOf.
  destruct (timeBounds self) as [[lo|] [hi|]]; simpl; try done;
    destruct (Bool.eqb_spec aw (tzAware self)); naive_solver.
Qed.

Lemma compareBounds_Raise aw self e : compareBounds aw self = Raise e → e = TypeError.
Proof.
  unfold compareBounds.
  destruct (timeBounds self) as [[lo|] [hi|]]; simpl; try done;
    destruct (Bool.eqb aw (tzAware self)); naive_solver.
Qed.

Lemma kindOf_updateBounds ts tb aw : kindOf (updateBounds ts tb) aw = Some aw.
Proof.
  destruct tb as [[lo|] [hi|]]; unfold updateBounds, kindOf; simpl;
    repeat (destruct (_ <? _) || destruct (_ >? _)); done.
Qed.

Lemma oneKind_Some k ls :
  oneKind fromisoformat (Some k) ls ↔ ∀ l, l ∈ ls → getAware fromisoformat l = k.
Proof.
  revert k. induction ls as [|l ls IH]; intros k; simpl.
  - split; [by intros _ l ?%elem_of_nil|done].
  - rewrite IH. split.
    + intros [Hl Hls] l' [->|Hin]%elem_of_cons; [done|]. rewrite <-Hl. by apply Hls.
    + intros Hall. split; [apply Hall; by left|].
      intros l' Hin. rewrite (Hall l); [|by left]. apply Hall. by right.
Qed.

Lemma oneKind_None ls :
  oneKind fromisoformat None ls ↔
  ∀ l l', l ∈ ls → l' ∈ ls → getAware fromisoformat l = getAware fromisoformat l'.
Proof.
  destruct ls as [|l ls]; simpl.
  - split; [by intros _ l l' ?%elem_of_nil|done].
  - rewrite oneKind_Some. split.
    + intros [_ Hall] l1 l2 Hl1 Hl2.
      assert (∀ x, x ∈ l :: ls → getAware fromisoformat x = getAware fromisoformat l) as H.
      { intros x [->|Hx]%elem_of_cons; [done|by apply Hall]. }
      by rewrite (H l1), (H l2).
    + intros Hall. split; [done|]. intros l' Hin. apply Hall; [by right|by left].
Qed.

Lemma oneKind_app ref ls1 ls2 :
  oneKind fromisoformat ref (ls1 ++ ls2) ↔
  oneKind fromisoformat ref ls1 ∧ oneKind fromisoformat (refAfter fromisoformat ref ls1) ls2.
Proof.
  revert ref. induction ls1 as [|l ls1 IH]; intros ref; simpl; [naive_solver|].
  rewrite IH. unfold refAfter. simpl. naive_solver.
Qed.

Lemma kindOf_after tb aw tss ls :
  length tss = length ls →
  kindOf (boundsOf tb tss) (kindAfter fromisoformat aw ls)
  = refAfter fromisoformat (kindOf tb aw) ls.
Proof.
  revert tb aw tss. induction ls as [|l ls IH]; intros tb aw [|t tss] Hlen; try done.
  unfold boundsOf, kindAfter, refAfter. simpl.
  rewrite <-(kindOf_updateBounds t tb (getAware fromisoformat l)).
  apply IH. simpl in Hlen. lia.
Qed.

(** One line, as a function of the line, the flags and the labels. *)
Lemma parseLine_spec name l ts self g es :
  getTime fromisoformat l = Ok ts →
  compareBounds (getAware fromisoformat l) self = Ok () →
  length g = 4%nat → length (vips self) = 4%nat →
  parseLine fromisoformat name l (appendEntries name es self) g
  = Ok (appendEntries name (es ++ lineEntries ts l g)
          (with_vips (with_tzAware (with_timeBounds self (updateBounds ts (timeBounds self)))
                        (getAware fromisoformat l))
             (lineVips (vips self) l)),
        lineFlags g l).
Proof.
  intros Hts Hcmp Hg Hv. unfold parseLine. rewrite Hts. simpl.
  change (compareBounds (getAware fromisoformat l) (appendEntries name es self))
    with (compareBounds (getAware fromisoformat l) self).
  rewrite Hcmp. simpl.
  change (timeBounds (appendEntries name es self)) with (timeBounds self).
  rewrite <-appendEntries_with_timeBounds, <-appendEntries_with_tzAware, scriptCheck_spec.
  rewrite arpCheck_spec by (done || by eapply getTime_last). simpl.
  rewrite masterCheck_spec by (destruct (isArpLine l); by rewrite ?length_insert).
  simpl.
  rewrite backupCheck_spec, reloadCheck_spec, addressCheck_spec.
  unfold lineEntries, lineFlags. rewrite <-!app_assoc. do 2 f_equal.
  destruct (isArpLine l), (isMasterLine l); simpl; by rewrite ?list_insert_insert_eq.
Qed.

Lemma parseLine_Raise name l self g e :
  getTime fromisoformat l = Raise e → parseLine fromisoformat name l self g = Raise e.
Proof. intros H. unfold parseLine. by rewrite H. Qed.

Lemma parseLine_TypeError name l ts self g :
  getTime fromisoformat l = Ok ts →
  compareBounds (getAware fromisoformat l) self ≠ Ok () →
  parseLine fromisoformat name l self g = Raise TypeError.
Proof.
  intros Hts Hcmp. unfold parseLine. rewrite Hts. simpl.
  destruct (compareBounds _ self) as [[]|e] eqn:E; [done|].
  by apply compareBounds_Raise in E as ->.
Qed.

Lemma parseLine_Ok_inv name l self g x :
  parseLine fromisoformat name l self g = Ok x →
  ∃ ts, getTime fromisoformat l = Ok ts
        ∧ compareBounds (getAware fromisoformat l) self = Ok ().
Proof.
  unfold parseLine. destruct (getTime fromisoformat l) as [ts|]; [|done]. simpl.
  destruct (compareBounds _ self) as [[]|]; [|done]. intros _. by exists ts.
Qed.

(** The lines of a file. *)
Lemma parseLines_spec name ls tls mg le nd tb vs aw g es :
  stampLines fromisoformat ls = Ok tls →
  oneKind fromisoformat (kindOf tb aw) ls →
  length g = 4%nat → length vs = 4%nat →
  parseLines fromisoformat name ls (appendEntries name es (mkParser mg le nd tb vs aw)) g
  = Ok (appendEntries name (es ++ linesEntries tls g)
          (mkParser mg le nd (boundsOf tb (tls.*1)) (foldl lineVips vs (tls.*2))
             (kindAfter fromisoformat aw ls)),
        foldl lineFlags g ls).
Proof.
  revert tls tb vs aw g es.
  induction ls as [|l ls IH]; intros tls tb vs aw g es Hst Hone Hg Hv.
  - injection Hst as <-. simpl. by rewrite app_nil_r.
  - simpl in Hst. destruct (getTime fromisoformat l) as [ts|] eqn:Hts; [|done].
    simpl in Hst. destruct (stampLines fromisoformat ls) as [rest|] eqn:Hrest; [|done].
    injection Hst as <-. simpl. destruct Hone as [Hl Hone].
    rewrite (parseLine_spec _ _ ts) by (done || by apply compareBounds_Ok).
    simpl. unfold with_vips, with_tzAware, with_timeBounds. simpl.
    rewrite (IH rest); [by rewrite <-app_assoc|done| |..].
    + by rewrite kindOf_updateBounds.
    + by rewrite length_lineFlags.
    + by rewrite length_lineVips.
Qed.

Lemma parseLines_Raise name ls e self g :
  stampLines fromisoformat ls = Raise e →
  oneKind fromisoformat (kindOf (timeBounds self) (tzAware self)) ls →
  length g = 4%nat → length (vips self) = 4%nat →
  parseLines fromisoformat name ls self g = Raise e.
Proof.
  revert self g. induction ls as [|l ls IH]; intros self g Hst Hone Hg Hv; [done|].
  simpl in Hst. simpl. destruct Hone as [Hl Hone].
  destruct (getTime fromisoformat l) as [ts|e'] eqn:Hts.
  - simpl in Hst. destruct (stampLines fromisoformat ls) as [rest|e''] eqn:Hrest; [done|].
    injection Hst as ->.
    rewrite <-(appendEntries_nil name self).
    rewrite (parseLine_spec _ _ ts) by (done || by apply compareBounds_Ok). simpl.
    apply IH; [done| |by rewrite length_lineFlags|].
    + change (oneKind fromisoformat
                (kindOf (updateBounds ts (timeBounds self)) (getAware fromisoformat l)) ls).
      by rewrite kindOf_updateBounds.
    + simpl. by rewrite length_lineVips.
  - injection Hst as ->. by rewrite (parseLine_Raise _ _ _ _ e).
Qed.

(** The lines of a file that is read through: every line has its
    timestamp, and no comparison raises. *)
Lemma parseLines_Ok_inv name ls self g x :
  parseLines fromisoformat name ls self g = Ok x →
  length g = 4%nat → length (vips self) = 4%nat →
  is_ok (stampLines fromisoformat ls) = true
  ∧ oneKind fromisoformat (kindOf (timeBounds self) (tzAware self)) ls.
Proof.
  revert self g. induction ls as [|l ls IH]; intros self g Hrun Hg Hv; [done|].
  simpl in Hrun.
  destruct (parseLine fromisoformat name l self g) as [[self1 g1]|] eqn:E1; [|done].
  simpl in Hrun.
  pose proof E1 as (ts & Hts & Hcmp)%parseLine_Ok_inv.
  rewrite <-(appendEntries_nil name self), (parseLine_spec _ _ ts) in E1 by done.
  injection E1 as <- <-.
  apply IH in Hrun as [Hst Hone];
    [|by rewrite length_lineFlags|simpl; by rewrite length_lineVips].
  change (oneKind fromisoformat
            (kindOf (updateBounds ts (timeBounds self)) (getAware fromisoformat l)) ls)
    in Hone.
  rewrite kindOf_updateBounds in Hone.
  simpl. rewrite Hts. simpl.
  destruct (stampLines fromisoformat ls); [|done].
  split; [done|]. split; [|done]. by apply compareBounds_Ok.
Qed.

Lemma length_foldl_lineVips vs ls : length (foldl lineVips vs ls) = length vs.
Proof.
  revert vs. induction ls as [|l ls IH]; intros vs; simpl; [done|].
  by rewrite IH, length_lineVips.
Qed.

Lemma stampLines_length ls tls :
  stampLines fromisoformat ls = Ok tls → length tls = length ls.
Proof.
  revert tls. induction ls as [|l ls IH]; intros tls; simpl; [by intros [= <-]|].
  destruct (getTime fromisoformat l); [|done]. simpl.
  destruct (stampLines fromisoformat ls) as [rest|]; [|done].
  intros [= <-]. simpl. by rewrite (IH rest).
Qed.

(** One file. *)
Lemma parseFile_spec f self :
  length (vips self) = 4%nat →
  oneKind fromisoformat (kindOf (timeBounds self) (tzAware self)) (lines f) →
  parseFile fromisoformat f self
  = r ← resolve fromisoformat (isMustGather self) f;
    Ok (with_tzAware (absorbFile self r) (kindAfter fromisoformat (tzAware self) (lines f))).
Proof.
  intros Hv Hone. unfold parseFile, resolve.
  destruct (nodeName (isMustGather self) f) as [name|e]; [|done]. simpl.
  destruct (stampLines fromisoformat (lines f)) as [tls|e] eqn:Hst; simpl.
  - destruct self as [mg le nd tb vs aw]. unfold with_logEntries. simpl in *.
    rewrite <-(appendEntries_nil name (mkParser mg (OD.setdefault name [] le) nd tb vs aw)).
    by rewrite (parseLines_spec _ _ tls).
  - by rewrite (parseLines_Raise _ _ e).
Qed.

Lemma parseFile_Ok_inv f self self' :
  parseFile fromisoformat f self = Ok self' → length (vips self) = 4%nat →
  oneKind fromisoformat (kindOf (timeBounds self) (tzAware self)) (lines f).
Proof.
  unfold parseFile. destruct (nodeName (isMustGather self) f) as [name|e]; [|done]. simpl.
  destruct (parseLines _ _ _ _ _) as [x|] eqn:E; [|done]. intros _ Hv.
  by apply parseLines_Ok_inv in E as [_ ?].
Qed.

Lemma vips_absorbFile self r :
  length (vips (absorbFile self r)) = length (vips self).
Proof. simpl. apply length_foldl_lineVips. Qed.

Lemma absorbFile_with_tzAware self aw r :
  absorbFile (with_tzAware self aw) r = with_tzAware (absorbFile self r) aw.
Proof. done. Qed.

Lemma absorb_with_tzAware self aw rs :
  absorb (with_tzAware self aw) rs = with_tzAware (absorb self rs) aw.
Proof.
  revert self. induction rs as [|r rs IH]; intros self; [done|].
  simpl. by rewrite absorbFile_with_tzAware, IH.
Qed.

Lemma with_tzAware_twice self aw aw' :
  with_tzAware (with_tzAware self aw) aw' = with_tzAware self aw'.
Proof. done. Qed.

Lemma kindAfter_app aw ls1 ls2 :
  kindAfter fromisoformat aw (ls1 ++ ls2)
  = kindAfter fromisoformat (kindAfter fromisoformat aw ls1) ls2.
Proof. apply foldl_app. Qed.

Lemma kindOf_absorbFile self f r :
  resolve fromisoformat (isMustGather self) f = Ok r →
  kindOf (timeBounds (absorbFile self r)) (kindAfter fromisoformat (tzAware self) (lines f))
  = refAfter fromisoformat (kindOf (timeBounds self) (tzAware self)) (lines f).
Proof.
  unfold resolve. destruct (nodeName _ f) as [name|]; [|done]. simpl.
  destruct (stampLines fromisoformat (lines f)) as [tls|] eqn:Hst; [|done].
  intros [= <-]. simpl. apply kindOf_after.
  by rewrite length_fmap, (stampLines_length _ _ Hst).
Qed.

(** The whole of [parseLogs], when no comparison of timestamps raises. *)
Lemma parseLogs_spec fs self :
  length (vips self) = 4%nat →
  oneKind fromisoformat (kindOf (timeBounds self) (tzAware self)) (concat (lines <$> fs)) →
  parseLogs fromisoformat fs self
  = rs ← resolveAll fromisoformat (isMustGather self) fs;
    Ok (with_tzAware (absorb self rs)
          (kindAfter fromisoformat (tzAware self) (concat (lines <$> fs)))).
Proof.
  revert self. induction fs as [|f fs IH]; intros self Hv Hone.
  { simpl. by destruct self. }
  rewrite fmap_cons, concat_cons in Hone. apply oneKind_app in Hone as [Hf Hfs].
  simpl. rewrite parseFile_spec by done.
  destruct (resolve fromisoformat (isMustGather self) f) as [r|e] eqn:Hr; [|done]. simpl.
  rewrite IH.
  - simpl. destruct (resolveAll fromisoformat (isMustGather self) fs); [|done]. simpl.
    by rewrite absorb_with_tzAware, with_tzAware_twice, kindAfter_app.
  - simpl. by rewrite length_foldl_lineVips.
  - change (timeBounds (with_tzAware (absorbFile self r) _))
      with (timeBounds (absorbFile self r)).
    change (tzAware (with_tzAware (absorbFile self r) ?k)) with k.
    by rewrite (kindOf_absorbFile _ _ _ Hr).
Qed.

(** A [parseLogs] that returns has compared timestamps of one kind. *)
Lemma parseLogs_Ok_inv fs self self' :
  parseLogs fromisoformat fs self = Ok self' → length (vips self) = 4%nat →
  oneKind fromisoformat (kindOf (timeBounds self) (tzAware self)) (concat (lines <$> fs)).
Proof.
  revert self. induction fs as [|f fs IH]; intros self Hrun Hv; [done|].
  simpl in Hrun.
  destruct (parseFile fromisoformat f self) as [self1|] eqn:E1; [|done]. simpl in Hrun.
  pose proof (parseFile_Ok_inv _ _ _ E1 Hv) as Hf.
  rewrite fmap_cons, concat_cons. apply oneKind_app. split; [done|].
  rewrite parseFile_spec in E1 by done.
  destruct (resolve fromisoformat (isMustGather self) f) as [r|] eqn:Hr; [|done].
  injection E1 as <-.
  apply IH in Hrun; [|simpl; by rewrite length_foldl_lineVips].
  change (timeBounds (with_tzAware (absorbFile self r) _))
    with (timeBounds (absorbFile self r)) in Hrun.
  change (tzAware (with_tzAware (absorbFile self r) ?k)) with k in Hrun.
  by rewrite (kindOf_absorbFile _ _ _ Hr) in Hrun.
Qed.

(** [parseLogs] that returns, as a function of the files. *)
Lemma parseLogs_Ok fs self self' :
  length (vips self) = 4%nat →
  parseLogs fromisoformat fs self = Ok self' ↔
  oneKind fromisoformat (kindOf (timeBounds self) (tzAware self)) (concat (lines <$> fs))
  ∧ ∃ rs, resolveAll fromisoformat (isMustGather self) fs = Ok rs
          ∧ self' = with_tzAware (absorb self rs)
                      (kindAfter fromisoformat (tzAware self) (concat (lines <$> fs))).
Proof.
  intros Hv. split.
  - intros Hrun. pose proof (parseLogs_Ok_inv _ _ _ Hrun Hv) as Hone.
    split; [done|]. rewrite parseLogs_spec in Hrun by done.
    destruct (resolveAll fromisoformat (isMustGather self) fs) as [rs|]; [|done].
    injection Hrun as <-. by exists rs.
  - intros (Hone & rs & Hrs & ->). rewrite parseLogs_spec by done. by rewrite Hrs.
Qed.

End ParseFacts.

(** The attributes that the kind of the timestamps does not touch. *)
Ltac drop_tz :=
  repeat match goal with
  | |- context [timeBounds (with_tzAware ?x ?k)] =>
      change (timeBounds (with_tzAware x k)) with (timeBounds x)
  | |- context [vips (with_tzAware ?x ?k)] =>
      change (vips (with_tzAware x k)) with (vips x)
  | |- context [logEntries (with_tzAware ?x ?k)] =>
      change (logEntries (with_tzAware x k)) with (logEntries x)
  | |- context [nodeData (with_tzAware ?x ?k)] =>
      change (nodeData (with_tzAware x k)) with (nodeData x)
  | |- context [isMustGather (with_tzAware ?x ?k)] =>
      change (isMustGather (with_tzAware x k)) with (isMustGather x)
  end.

(** ** The parser after a run of [parseLogs] *)

Lemma boundsOf_app tb tss1 tss2 : boundsOf tb (tss1 ++ tss2) = boundsOf (boundsOf tb tss1) tss2.
Proof. apply foldl_app. Qed.

Lemma isMustGather_absorb self rs : isMustGather (absorb self rs) = isMustGather self.
Proof. revert self. induction rs as [|r rs IH]; intros self; simpl; [done|]. by rewrite IH. Qed.

Lemma nodeData_absorb self rs : nodeData (absorb self rs) = nodeData self.
Proof. revert self. induction rs as [|r rs IH]; intros self; simpl; [done|]. by rewrite IH. Qed.

Lemma timeBounds_absorb self rs :
  timeBounds (absorb self rs) = boundsOf (timeBounds self) ((allLines rs).*1).
Proof.
  revert self. induction rs as [|r rs IH]; intros self; simpl; [done|].
  rewrite IH. unfold allLines. simpl. by rewrite fmap_app, boundsOf_app.
Qed.

Lemma vips_absorb self rs :
  vips (absorb self rs) = foldl lineVips (vips self) ((allLines rs).*2).
Proof.
  revert self. induction rs as [|r rs IH]; intros self; simpl; [done|].
  rewrite IH. unfold allLines. simpl. by rewrite fmap_app, foldl_app.
Qed.

Lemma logEntries_absorbFile_nonempty self r : logEntries (absorbFile self r) ≠ [].
Proof.
  simpl. intros E. apply (f_equal length) in E. rewrite length_update in E.
  pose proof (setdefault_nonempty r.1 [] (logEntries self)).
  by destruct (OD.setdefault r.1 [] (logEntries self)).
Qed.

Lemma logEntries_absorb_nonempty self rs :
  logEntries self ≠ [] → logEntries (absorb self rs) ≠ [].
Proof.
  revert self. induction rs as [|r rs IH]; intros self H0; simpl; [done|].
  apply IH, logEntries_absorbFile_nonempty.
Qed.

(** The entries of a node: those of its files, one file after the other. *)
Lemma get_logEntries_absorb name self rs :
  OD.get name (logEntries (absorb self rs))
  = match OD.get name (logEntries self) with
    | Some old => Some (old ++ nodeEntries name rs)
    | None => if decide (name ∈ rs.*1) then Some (nodeEntries name rs) else None
    end.
Proof.
  revert self. induction rs as [|r rs IH]; intros self.
  - simpl. destruct (OD.get name (logEntries self)); [by rewrite app_nil_r|done].
  - simpl. rewrite IH. simpl. rewrite get_update, get_setdefault.
    unfold nodeEntries. simpl.
    destruct (OD.get name (logEntries self)) as [old|]; simpl;
      repeat case_decide; simplify_eq/=; rewrite ?app_nil_r, <-?app_assoc;
      try done;
      match goal with
      | H : _ ∈ _ :: _ |- _ => apply elem_of_cons in H as [?|?]; done
      | H : _ ∉ _ :: _ |- _ => exfalso; apply H, elem_of_cons; by auto
      end.
Qed.

Lemma NoDup_keys_setdefault {V : Type} k (v : V) d :
  NoDup (OD.keys d) → NoDup (OD.keys (OD.setdefault k v d)).
Proof.
  induction d as [|[k0 v0] d IH]; simpl.
  - intros _. apply NoDup_singleton.
  - rewrite NoDup_cons. intros [Hk0 Hnd].
    destruct (String.eqb_spec k0 k) as [->|Hne]; simpl.
    + by apply NoDup_cons.
    + apply NoDup_cons. split; [|by apply IH].
      intros Hin. apply get_Some_keys in Hin. rewrite get_setdefault in Hin.
      rewrite decide_False in Hin by done. by apply get_Some_keys in Hin.
Qed.

Lemma NoDup_keys_absorb self rs :
  NoDup (OD.keys (logEntries self)) → NoDup (OD.keys (logEntries (absorb self rs))).
Proof.
  revert self. induction rs as [|r rs IH]; intros self Hnd; simpl; [done|].
  apply IH. simpl. rewrite keys_update. by apply NoDup_keys_setdefault.
Qed.

(** ** Time bounds *)

Lemma updateBounds_Some ts lo hi :
  updateBounds ts (Some lo, Some hi) = (Some (Z.min lo ts), Some (Z.max hi ts)).
Proof.
  unfold updateBounds. simpl.
  destruct (Z.ltb_spec ts lo), (Z.gtb_spec ts hi); do 2 f_equal; lia.
Qed.

Lemma boundsOf_Some lo hi tss :
  boundsOf (Some lo, Some hi) tss = (Some (foldl Z.min lo tss), Some (foldl Z.max hi tss)).
Proof.
  revert lo hi. induction tss as [|t tss IH]; intros lo hi; [done|].
  unfold boundsOf in *. simpl. by rewrite updateBounds_Some, IH.
Qed.

Lemma foldl_min_spec lo tss :
  foldl Z.min lo tss ∈ lo :: tss ∧ ∀ t, t ∈ lo :: tss → foldl Z.min lo tss ≤ t.
Proof.
  revert lo. induction tss as [|t tss IH]; intros lo; simpl.
  - split; [by left|]. intros t ->%list_elem_of_singleton. lia.
  - destruct (IH (Z.min lo t)) as [Hin Hle]. split.
    + apply elem_of_cons in Hin as [Heq|Hin]; [|by do 2 right].
      rewrite Heq. destruct (Z.min_spec lo t) as [[_ ->]|[_ ->]]; [left|right; left].
    + intros u Hu. apply elem_of_cons in Hu as [->|Hu].
      * specialize (Hle (Z.min lo t) ltac:(left)). lia.
      * apply elem_of_cons in Hu as [->|Hu].
        -- specialize (Hle (Z.min lo t) ltac:(left)). lia.
        -- apply Hle. by right.
Qed.

Lemma foldl_max_spec hi tss :
  foldl Z.max hi tss ∈ hi :: tss ∧ ∀ t, t ∈ hi :: tss → t ≤ foldl Z.max hi tss.
Proof.
  revert hi. induction tss as [|t tss IH]; intros hi; simpl.
  - split; [by left|]. intros t ->%list_elem_of_singleton. lia.
  - destruct (IH (Z.max hi t)) as [Hin Hle]. split.
    + apply elem_of_cons in Hin as [Heq|Hin]; [|by do 2 right].
      rewrite Heq. destruct (Z.max_spec hi t) as [[_ ->]|[_ ->]]; [right; left|left].
    + intros u Hu. apply elem_of_cons in Hu as [->|Hu].
      * specialize (Hle (Z.max hi t) ltac:(left)). lia.
      * apply elem_of_cons in Hu as [->|Hu].
        -- specialize (Hle (Z.max hi t) ltac:(left)). lia.
        -- apply Hle. by right.
Qed.

(** From the initial [[None, None]] the bounds are the least and the
    greatest timestamp. *)
Lemma boundsOf_isBounds tss : isBounds (boundsOf (None, None) tss) tss.
Proof.
  destruct tss as [|t tss]; [done|].
  unfold isBounds.
  change (boundsOf (None, None) (t :: tss)) with (boundsOf (Some t, Some t) tss).
  rewrite boundsOf_Some.
  destruct (foldl_min_spec t tss) as [Hin1 Hle1], (foldl_max_spec t tss) as [Hin2 Hle2].
  eexists _, _. split; [done|]. split; [done|]. split; [done|].
  intros u Hu. split; [by apply Hle1|by apply Hle2].
Qed.

Lemma isBounds_perm tb tb' tss tss' :
  isBounds tb tss → isBounds tb' tss' → tss ≡ₚ tss' → tb = tb'.
Proof.
  intros H H' Hp. destruct tss as [|t tss].
  - apply Permutation_nil in Hp. subst. simpl in *. congruence.
  - destruct tss' as [|t' tss']; [by apply Permutation_nil_r in Hp|].
    destruct H as (lo & hi & -> & Hlo & Hhi & Hb).
    destruct H' as (lo' & hi' & -> & Hlo' & Hhi' & Hb').
    pose proof (Hb lo') as H1. pose proof (Hb hi') as H2.
    pose proof (Hb' lo) as H3. pose proof (Hb' hi) as H4.
    rewrite Hp in H1, H2. rewrite <-Hp in H3, H4.
    specialize (H1 Hlo'). specialize (H2 Hhi'). specialize (H3 Hlo). specialize (H4 Hhi).
    do 2 f_equal; lia.
Qed.

(** ** Files and their timed lines *)

Section ResolveFacts.
Variable fromisoformat : string → option datetime.

Lemma stampLines_lines ls tls :
  stampLines fromisoformat ls = Ok tls → tls.*2 = ls.
Proof.
  revert tls. induction ls as [|l ls IH]; intros tls; simpl.
  - by intros [= <-].
  - destruct (getTime fromisoformat l) as [ts|]; [|done]. simpl.
    destruct (stampLines fromisoformat ls) as [rest|]; [|done]. simpl.
    intros [= <-]. simpl. f_equal. by apply IH.
Qed.

Lemma stampLines_times ls tls ts l :
  stampLines fromisoformat ls = Ok tls → (ts, l) ∈ tls ↔ l ∈ ls ∧ getTime fromisoformat l = Ok ts.
Proof.
  revert tls. induction ls as [|l0 ls IH]; intros tls; simpl.
  - intros [= <-]. split; [by intros ?%elem_of_nil|by intros [?%elem_of_nil _]].
  - destruct (getTime fromisoformat l0) as [ts0|] eqn:E0; [|done]. simpl.
    destruct (stampLines fromisoformat ls) as [rest|]; [|done]. simpl.
    intros [= <-]. rewrite !elem_of_cons, (IH rest) by done. split.
    + intros [[= -> ->]|[? ?]]; [by split; [left|]|by split; [right|]].
    + intros [[->|?] Hts]; [left; congruence|by right].
Qed.

Lemma stampLines_Ok ls :
  (∀ l, l ∈ ls → ∃ ts, getTime fromisoformat l = Ok ts) →
  ∃ tls, stampLines fromisoformat ls = Ok tls.
Proof.
  induction ls as [|l ls IH]; intros H; simpl; [by eexists|].
  destruct (H l) as [ts ->]; [by left|]. simpl.
  destruct IH as [rest ->]; [|by eexists].
  intros l' Hl'. apply H. by right.
Qed.

Lemma resolveAll_Forall2 mg fs rs :
  resolveAll fromisoformat mg fs = Ok rs ↔
  Forall2 (λ f r, resolve fromisoformat mg f = Ok r) fs rs.
Proof.
  revert rs. induction fs as [|f fs IH]; intros rs; simpl.
  - split; [intros [= <-]; constructor|by intros ->%Forall2_nil_inv_l].
  - destruct (resolve fromisoformat mg f) as [r|e] eqn:Er; simpl.
    + destruct (resolveAll fromisoformat mg fs) as [rest|e] eqn:Erest; simpl.
      * split.
        -- intros [= <-]. constructor; [done|]. by apply IH.
        -- intros (r' & rest' & Hr & Hrest & ->)%Forall2_cons_inv_l.
           apply IH in Hrest. congruence.
      * split; [done|].
        intros (r' & rest' & Hr & Hrest & ->)%Forall2_cons_inv_l.
        apply IH in Hrest. congruence.
    + split; [done|].
      intros (r' & rest' & Hr & Hrest & ->)%Forall2_cons_inv_l. congruence.
Qed.

Lemma resolve_inv mg f r :
  resolve fromisoformat mg f = Ok r ↔
  nodeName mg f = Ok r.1 ∧ stampLines fromisoformat (lines f) = Ok r.2.
Proof.
  unfold resolve. destruct (nodeName mg f) as [name|]; simpl; [|by split; [|intros [? _]]].
  destruct (stampLines fromisoformat (lines f)) as [tls|]; simpl;
    [|by split; [|intros [_ ?]]].
  destruct r as [n t]; simpl. split; [by intros [= -> ->]|by intros [[= ->] [= ->]]].
Qed.

Lemma allLines_lines mg fs rs :
  resolveAll fromisoformat mg fs = Ok rs → (allLines rs).*2 = concat (lines <$> fs).
Proof.
  rewrite resolveAll_Forall2. induction 1 as [|f r fs rs Hr _ IH]; [done|].
  apply resolve_inv in Hr as [_ Hst]. unfold allLines in *.
  rewrite !fmap_cons, !concat_cons, fmap_app, IH. f_equal. by eapply stampLines_lines.
Qed.

Lemma allLines_times mg fs rs ts l :
  resolveAll fromisoformat mg fs = Ok rs →
  (ts, l) ∈ allLines rs ↔ l ∈ concat (lines <$> fs) ∧ getTime fromisoformat l = Ok ts.
Proof.
  rewrite resolveAll_Forall2. induction 1 as [|f r fs rs Hr _ IH].
  - split; [by intros ?%elem_of_nil|by intros [?%elem_of_nil _]].
  - apply resolve_inv in Hr as [_ Hst]. unfold allLines in *.
    rewrite !fmap_cons, !concat_cons.
    rewrite !elem_of_app, IH, (stampLines_times _ _ _ _ Hst). naive_solver.
Qed.

Lemma resolveAll_names mg fs rs :
  resolveAll fromisoformat mg fs = Ok rs → Forall2 (λ f name, nodeName mg f = Ok name) fs (rs.*1).
Proof.
  rewrite resolveAll_Forall2. induction 1 as [|f r fs rs Hr _ IH]; [constructor|].
  apply resolve_inv in Hr as [Hn _]. by constructor.
Qed.

(** The files of a run in another order are read as well, with the same
    names and timed lines. *)
Lemma resolveAll_perm mg fs fs' rs :
  fs ≡ₚ fs' → resolveAll fromisoformat mg fs = Ok rs →
  ∃ rs', resolveAll fromisoformat mg fs' = Ok rs' ∧ rs ≡ₚ rs'.
Proof.
  intros Hp. revert rs. induction Hp as [|f fs fs' _ IH|f1 f2 fs|fs1 fs2 fs3 _ IH1 _ IH2]; intros rs.
  - intros [= <-]. by exists [].
  - simpl. destruct (resolve fromisoformat mg f) as [r|]; [|done]. simpl.
    destruct (resolveAll fromisoformat mg fs) as [rest|] eqn:E; [|done]. simpl.
    intros [= <-]. destruct (IH rest) as (rest' & -> & Hp'); [done|].
    exists (r :: rest'). split; [done|]. by constructor.
  - simpl. destruct (resolve fromisoformat mg f2) as [r2|]; [|done]. simpl.
    destruct (resolve fromisoformat mg f1) as [r1|]; [|done]. simpl.
    destruct (resolveAll fromisoformat mg fs) as [rest|]; [|done]. simpl.
    intros [= <-]. exists (r1 :: r2 :: rest). split; [done|]. apply perm_swap.
  - intros H1. destruct (IH1 _ H1) as (rs2 & H2 & Hp12).
    destruct (IH2 _ H2) as (rs3 & H3 & Hp23).
    exists rs3. split; [done|]. by etrans.
Qed.

End ResolveFacts.

(** ** The replay of a node *)

Lemma transitions_S n :
  transitions (S n) = transitions n ++ [if Nat.even n then tookVip else lostVip].
Proof. unfold transitions. by rewrite seq_S, fmap_app. Qed.

Lemma sublist_Forall_inv {A : Type} (P : A → Prop) (l1 l2 : list A) :
  l1 `sublist_of` l2 → Forall P l2 → Forall P l1.
Proof.
  induction 1 as [|x l1 l2 _ IH|x l1 l2 _ IH]; intros HP; [done|..].
  - apply Forall_cons in HP as [? ?]. constructor; auto.
  - apply Forall_cons in HP as [? ?]. auto.
Qed.

Lemma sublist_StronglySorted {A : Type} (R : relation A) (l1 l2 : list A) :
  l1 `sublist_of` l2 → StronglySorted R l2 → StronglySorted R l1.
Proof.
  induction 1 as [|x l1 l2 Hs IH|x l1 l2 _ IH]; intros HS; [done|..].
  - apply StronglySorted_inv in HS as [HS Hx]. constructor; [by apply IH|].
    by eapply sublist_Forall_inv.
  - apply StronglySorted_inv in HS as [HS _]. by apply IH.
Qed.

Lemma replayInv_init : replayInv [] newNodeData allFalse.
Proof.
  split; [done|]. split; [done|]. intros s Hs. exists []. 
  split; [constructor|]. split; [constructor|].
  do 4 (destruct s as [|s]; [done|]). lia.
Qed.

(** A step that changes nothing keeps the invariant over one more entry. *)
Lemma replayInv_skip pre e data haveVip :
  replayInv pre data haveVip → replayInv (pre ++ [e]) data haveVip.
Proof.
  intros (Hh & Hc & Hs). split; [done|]. split; [done|].
  intros s Hlt. destruct (Hs s Hlt) as (es & Hsub & Hrest).
  exists es. split; [by apply sublist_inserts_r|done].
Qed.

(** A boundary appended for the slot of [e]. *)
Lemma replayInv_append pre e data haveVip changes (have : bool) :
  replayInv pre data haveVip →
  haveVip !! vip e = Some have →
  vipChanges data !! vip e = Some changes →
  entry_event e = (if have then lostVip else tookVip) →
  replayInv (pre ++ [e])
    (mkNodeData (<[vip e := changes ++ [timestamp e]]> (vipChanges data))
       (events data) (addrs data))
    (<[vip e := negb have]> haveVip).
Proof.
  intros (Hh & Hc & Hs) Hhave Hch Hev.
  split; [by rewrite length_insert|]. split; [simpl; by rewrite length_insert|].
  intros s Hlt. destruct (Hs s Hlt) as (es & Hsub & Hvip & Hes & Htr & Hodd).
  destruct (decide (s = vip e)) as [->|Hne].
  - exists (es ++ [e]). simpl.
    assert (changes = timestamp <$> es) as -> by congruence.
    assert (have = Nat.odd (length es)) as -> by congruence.
    split; [by apply sublist_app|].
    split; [apply Forall_app; split; [done|by constructor]|].
    split; [rewrite list_lookup_insert_eq by lia; by rewrite fmap_app|].
    rewrite length_app, Nat.add_1_r, transitions_S, fmap_app, Htr. simpl.
    split.
    + f_equal. rewrite Hev, <-Nat.negb_odd. by destruct (Nat.odd (length es)).
    + rewrite list_lookup_insert_eq by lia. by rewrite Nat.odd_succ, <-Nat.negb_odd.
  - exists es. simpl. split; [by apply sublist_inserts_r|]. split; [done|].
    rewrite !list_lookup_insert_ne by done. done.
Qed.

Lemma vipEvent_inv pre e data haveVip data' haveVip' :
  replayInv pre data haveVip →
  vipEvent e data haveVip = Ok (data', haveVip') →
  replayInv (pre ++ [e]) data' haveVip'
  ∧ events data' = events data ∧ addrs data' = addrs data.
Proof.
  intros Hinv. pose proof Hinv as (Hh & Hc & Hs). unfold vipEvent.
  destruct (getitem haveVip (vip e)) as [have|] eqn:Ehave; [|done]. simpl.
  apply getitem_Ok in Ehave. pose proof (lookup_lt_Some _ _ _ Ehave) as Hlt.
  destruct (vipChanges data !! vip e) as [changes|] eqn:Ech;
    [|apply lookup_ge_None in Ech; lia].
  unfold getitem. rewrite Ech. simpl. rewrite !setitem_Ok by lia. simpl.
  destruct have.
  - destruct (decide (entry_event e = lostVip)) as [Hev|Hev].
    + intros [= <- <-]. split; [|done].
      by apply (replayInv_append _ _ _ _ changes true).
    + intros [= <- <-]. split; [|done]. by apply replayInv_skip.
  - destruct (decide (entry_event e = tookVip)) as [Hev|Hev].
    + intros [= <- <-]. split; [|done].
      by apply (replayInv_append _ _ _ _ changes false).
    + intros [= <- <-]. split; [|done]. by apply replayInv_skip.
Qed.

Lemma vipChanges_healthEvent e data : vipChanges (healthEvent e data) = vipChanges data.
Proof.
  unfold healthEvent. destruct (bool_decide _); simpl; by destruct (decide _).
Qed.

Lemma vipChanges_addressEvent e data data' :
  addressEvent e data = Ok data' → vipChanges data' = vipChanges data.
Proof.
  unfold addressEvent. destruct (decide _); [|by intros [= <-]].
  destruct (index "address" (PyStr.split (line e))) as [i|]; [|done]. simpl.
  destruct (getitem (PyStr.split (line e)) (i + 1)); [|done]. simpl.
  by intros [= <-].
Qed.

Lemma replayInv_vipChanges pre data data' haveVip :
  vipChanges data' = vipChanges data → replayInv pre data haveVip → replayInv pre data' haveVip.
Proof. unfold replayInv. by intros ->. Qed.

Lemma processEntry_inv pre e data haveVip data' haveVip' :
  replayInv pre data haveVip →
  processEntry e data haveVip = Ok (data', haveVip') →
  replayInv (pre ++ [e]) data' haveVip'.
Proof.
  intros Hinv. unfold processEntry.
  destruct (vipEvent e data haveVip) as [[d1 h1]|] eqn:E1; [|done]. simpl.
  destruct (addressEvent e (healthEvent e d1)) as [d2|] eqn:E2; [|done]. simpl.
  intros [= <- <-]. apply (vipEvent_inv pre) in E1 as [Hinv1 _]; [|done].
  eapply replayInv_vipChanges; [|done].
  by rewrite (vipChanges_addressEvent _ _ _ E2), vipChanges_healthEvent.
Qed.

Lemma replay_inv pre rest data haveVip data' haveVip' :
  replayInv pre data haveVip →
  replay rest data haveVip = Ok (data', haveVip') →
  replayInv (pre ++ rest) data' haveVip'.
Proof.
  revert pre data haveVip. induction rest as [|e rest IH]; intros pre data haveVip Hinv.
  - simpl. intros [= <- <-]. by rewrite app_nil_r.
  - simpl. destruct (processEntry e data haveVip) as [[d1 h1]|] eqn:E1; [|done]. simpl.
    intros Hrest. rewrite (assoc_L (++) pre [e] rest : pre ++ e :: rest = (pre ++ [e]) ++ rest).
    eapply IH; [|done]. by eapply processEntry_inv.
Qed.

(** The boundaries of a node that was processed. *)
Lemma processNode_inv entries data :
  processNode entries = Ok data →
  ∃ haveVip, replayInv (sorted timestamp entries) data haveVip.
Proof.
  unfold processNode.
  destruct (replay (sorted timestamp entries) newNodeData [false; false; false; false])
    as [[d h]|] eqn:E; [|done]. simpl.
  intros [= <-]. exists h. by apply (replay_inv [] _ _ _ _ _ replayInv_init).
Qed.

(** ** [processEntries] over the nodes *)

Lemma processItems_get name items nd0 nd :
  NoDup (OD.keys items) → processItems items nd0 = Ok nd →
  OD.get name nd
  = match OD.get name items with
    | Some entries => match processNode entries with Ok d => Some d | Raise _ => None end
    | None => OD.get name nd0
    end.
Proof.
  revert nd0. induction items as [|[n entries] items IH]; intros nd0 Hnd; simpl.
  - by intros [= <-].
  - apply NoDup_cons in Hnd as [Hn Hnd].
    destruct (processNode entries) as [data|] eqn:Ed; [|done]. simpl.
    intros Hrest. rewrite (IH _ Hnd Hrest).
    destruct (String.eqb_spec n name) as [->|Hne].
    + destruct (OD.get name items) eqn:Eg.
      * exfalso. apply Hn, get_Some_keys. by eexists.
      * rewrite get_set, decide_True by done. by rewrite Ed.
    + destruct (OD.get name items); [done|]. by rewrite get_set, decide_False.
Qed.

Lemma processItems_Ok_inv items nd0 nd :
  processItems items nd0 = Ok nd → Forall (λ it, is_ok (processNode it.2) = true) items.
Proof.
  revert nd0. induction items as [|[n entries] items IH]; intros nd0; simpl; [done|].
  destruct (processNode entries) as [data|] eqn:Ed; [|done]. simpl.
  intros Hrest. constructor; [by simpl; rewrite Ed|by eapply IH].
Qed.

Lemma processItems_Ok items nd0 :
  Forall (λ it, is_ok (processNode it.2) = true) items → ∃ nd, processItems items nd0 = Ok nd.
Proof.
  revert nd0. induction items as [|[n entries] items IH]; intros nd0 H; simpl; [by eexists|].
  apply Forall_cons in H as [H1 H2]. simpl in H1.
  destruct (processNode entries) as [data|]; [|done]. simpl. by apply IH.
Qed.

Lemma processEntries_Ok self self' :
  processEntries self = Ok self' ↔
  logEntries self ≠ []
  ∧ ∃ nd, processItems (logEntries self) (nodeData self) = Ok nd ∧ self' = with_nodeData self nd.
Proof.
  unfold processEntries. destruct (Nat.eqb_spec (length (logEntries self)) 0) as [H0|H0].
  - apply nil_length_inv in H0. split; [done|]. by intros [? _].
  - assert (logEntries self ≠ []) as Hne by (intros E; by rewrite E in H0).
    destruct (processItems (logEntries self) (nodeData self)) as [nd|]; simpl.
    + split.
      * intros [= <-]. split; [done|]. by exists nd.
      * intros [_ (nd' & [= <-] & ->)]. done.
    + split; [done|]. by intros [_ (nd' & [=] & _)].
Qed.

Lemma sameKind_oneKind fromisoformat files :
  sameKind fromisoformat files ↔ oneKind fromisoformat None (concat (lines <$> files)).
Proof.
  rewrite oneKind_None. unfold sameKind.
  assert (∀ l, l ∈ concat (lines <$> files) ↔ ∃ f, f ∈ files ∧ l ∈ lines f) as Hin.
  { intros l. rewrite list_elem_of_In, in_concat. split.
    - intros (ls & Hls & Hl). apply list_elem_of_In, list_elem_of_fmap in Hls as (f & -> & Hf).
      exists f. split; [done|]. by apply list_elem_of_In.
    - intros (f & Hf & Hl). exists (lines f). split; apply list_elem_of_In; [|done].
      apply list_elem_of_fmap. by exists f. }
  split.
  - intros H l l' (f & Hf & Hl)%Hin (f' & Hf' & Hl')%Hin. by apply (H f f').
  - intros H f f' l l' Hf Hf' Hl Hl'. apply H; apply Hin; [by exists f|by exists f'].
Qed.

Lemma sameKind_perm fromisoformat files files' :
  files ≡ₚ files' → sameKind fromisoformat files → sameKind fromisoformat files'.
Proof.
  intros Hp H f f' l l' Hf Hf'. rewrite <-Hp in Hf, Hf'. by apply H.
Qed.

(** A run that returns, in terms of the files read. *)
Lemma run_Ok fromisoformat mg files self :
  run fromisoformat mg files = Ok self ↔
  ∃ rs nd, resolveAll fromisoformat mg files = Ok rs ∧ files ≠ []
           ∧ processItems (logEntries (absorb (newParser mg) rs)) [] = Ok nd
           ∧ self = with_nodeData
                      (with_tzAware (absorb (newParser mg) rs)
                         (kindAfter fromisoformat false (concat (lines <$> files)))) nd
           ∧ oneKind fromisoformat None (concat (lines <$> files)).
Proof.
  unfold run. split.
  - destruct (parseLogs fromisoformat files (newParser mg)) as [self0|] eqn:E; [|done].
    simpl. apply parseLogs_Ok in E as (Hone & rs & Hrs & ->); [|done].
    rewrite processEntries_Ok. simpl. rewrite nodeData_absorb. simpl.
    intros (Hne & nd & Hnd & ->). exists rs, nd. split; [done|]. split; [|done].
    intros ->. injection Hrs as <-. done.
  - intros (rs & nd & Hrs & Hne & Hnd & -> & Hone).
    assert (parseLogs fromisoformat files (newParser mg)
            = Ok (with_tzAware (absorb (newParser mg) rs)
                    (kindAfter fromisoformat false (concat (lines <$> files))))) as ->.
    { apply parseLogs_Ok; [done|]. split; [done|]. by exists rs. }
    simpl. apply processEntries_Ok. simpl. rewrite nodeData_absorb. simpl.
    split; [|by exists nd].
    destruct files as [|f fs]; [done|].
    apply resolveAll_Forall2 in Hrs.
    apply Forall2_cons_inv_l in Hrs as (r & rs' & _ & _ & ->).
    simpl. apply logEntries_absorb_nonempty, logEntries_absorbFile_nonempty.
Qed.

(** The entries and the record of a node after a run. *)
Lemma run_node fromisoformat mg files self rs name :
  run fromisoformat mg files = Ok self → resolveAll fromisoformat mg files = Ok rs →
  timeBounds self = boundsOf (None, None) ((allLines rs).*1)
  ∧ vips self = foldl lineVips [""; ""; ""; ""] ((allLines rs).*2)
  ∧ OD.get name (logEntries self)
    = (if decide (name ∈ rs.*1) then Some (nodeEntries name rs) else None)
  ∧ OD.get name (nodeData self)
    = (if decide (name ∈ rs.*1)
       then match processNode (nodeEntries name rs) with Ok d => Some d | Raise _ => None end
       else None).
Proof.
  intros (rs' & nd & Hrs & Hne & Hnd & -> & _)%run_Ok Hrs'.
  assert (rs' = rs) as -> by congruence.
  split; [simpl; by rewrite timeBounds_absorb|]. split; [simpl; by rewrite vips_absorb|].
  assert (OD.get name (logEntries (absorb (newParser mg) rs))
          = (if decide (name ∈ rs.*1) then Some (nodeEntries name rs) else None)) as Hget
    by (by rewrite get_logEntries_absorb).
  split; [done|]. simpl.
  rewrite (processItems_get name _ _ _ (NoDup_keys_absorb (newParser mg) rs (NoDup_nil_2)) Hnd), Hget.
  by case_decide.
Qed.

(** ** Which exceptions can be raised *)

Lemma libraryError_Ok {A : Type} (a : A) : libraryError (Ok a).
Proof. done. Qed.

Lemma libraryError_Raise {A : Type} (e : exn) : e ≠ NoLogEntries → libraryError (@Raise A e).
Proof. intros H [= ->]. done. Qed.

Lemma libraryError_bind {A B : Type} (r : result A) (k : A → result B) :
  libraryError r → (∀ a, libraryError (k a)) → libraryError (r ≫= k).
Proof.
  intros Hr Hk. destruct r as [a|e]; [apply Hk|].
  intros [= ->]. by apply Hr.
Qed.

Lemma libraryError_getitem {A : Type} (l : list A) i : libraryError (getitem l i).
Proof. unfold getitem, libraryError. by destruct (l !! i). Qed.

Lemma libraryError_getlast {A : Type} (l : list A) : libraryError (getlast l).
Proof. unfold getlast, libraryError. by destruct (last l). Qed.

Lemma libraryError_setitem {A : Type} (l : list A) i x : libraryError (setitem l i x).
Proof. unfold setitem, libraryError. by case_decide. Qed.

Lemma libraryError_index x l : libraryError (index x l).
Proof.
  induction l as [|y l IH]; simpl; [by apply libraryError_Raise|].
  destruct (String.eqb y x); [apply libraryError_Ok|].
  apply libraryError_bind; [done|intros i; apply libraryError_Ok].
Qed.

Create HintDb pyerr.
#[local] Hint Resolve libraryError_Ok libraryError_getitem libraryError_getlast
  libraryError_setitem libraryError_index : pyerr.
#[local] Hint Extern 1 (libraryError (Raise _)) => (by apply libraryError_Raise) : pyerr.

Ltac library_error :=
  repeat first
    [ apply libraryError_bind; [|intros ?]
    | solve [eauto with pyerr]
    | match goal with
      | |- libraryError (if ?b then _ else _) => destruct b
      | |- libraryError (let '(_, _) := ?p in _) => destruct p
      | |- libraryError (match ?o with Some _ => _ | None => _ end) => destruct o
      end ].

Lemma libraryError_getTime fromisoformat l : libraryError (getTime fromisoformat l).
Proof. unfold getTime. library_error. Qed.

Lemma libraryError_stampLines fromisoformat ls : libraryError (stampLines fromisoformat ls).
Proof.
  induction ls as [|l ls IH]; simpl; [apply libraryError_Ok|].
  apply libraryError_bind; [apply libraryError_getTime|intros ts].
  apply libraryError_bind; [done|intros; apply libraryError_Ok].
Qed.

Lemma libraryError_nodeName mg f : libraryError (nodeName mg f).
Proof. unfold nodeName. library_error. Qed.

Lemma libraryError_resolveAll fromisoformat mg fs : libraryError (resolveAll fromisoformat mg fs).
Proof.
  induction fs as [|f fs IH]; simpl; [apply libraryError_Ok|].
  apply libraryError_bind;
    [|intros r; apply libraryError_bind; [done|intros; apply libraryError_Ok]].
  unfold resolve. apply libraryError_bind; [apply libraryError_nodeName|intros name].
  apply libraryError_bind; [apply libraryError_stampLines|intros; apply libraryError_Ok].
Qed.

Lemma libraryError_compareBounds aw self : libraryError (compareBounds aw self).
Proof.
  unfold compareBounds. destruct (timeBounds self) as [[lo|] [hi|]];
    try destruct (Bool.eqb aw (tzAware self)); by (apply libraryError_Ok || apply libraryError_Raise).
Qed.

Lemma libraryError_parseLine fromisoformat name l self g :
  libraryError (parseLine fromisoformat name l self g).
Proof.
  unfold parseLine.
  apply libraryError_bind; [apply libraryError_getTime|intros ts].
  apply libraryError_bind; [apply libraryError_compareBounds|intros _].
  apply libraryError_bind; [unfold arpCheck; library_error|intros [self1 g1]].
  apply libraryError_bind; [unfold masterCheck; library_error|intros [self2 g2]].
  apply libraryError_Ok.
Qed.

Lemma libraryError_parseLines fromisoformat name ls self g :
  libraryError (parseLines fromisoformat name ls self g).
Proof.
  revert self g. induction ls as [|l ls IH]; intros self g; simpl; [apply libraryError_Ok|].
  apply libraryError_bind; [apply libraryError_parseLine|intros [self1 g1]; apply IH].
Qed.

Lemma libraryError_parseLogs fromisoformat fs self :
  libraryError (parseLogs fromisoformat fs self).
Proof.
  revert self. induction fs as [|f fs IH]; intros self; simpl; [apply libraryError_Ok|].
  apply libraryError_bind; [|intros self1; apply IH].
  unfold parseFile. apply libraryError_bind; [apply libraryError_nodeName|intros name].
  apply libraryError_bind; [apply libraryError_parseLines|intros [self1 g1]].
  apply libraryError_Ok.
Qed.

Lemma libraryError_vipEvent e data haveVip : libraryError (vipEvent e data haveVip).
Proof. unfold vipEvent. library_error. Qed.

Lemma libraryError_addressEvent e data : libraryError (addressEvent e data).
Proof. unfold addressEvent. library_error. Qed.

Lemma libraryError_replay es data haveVip : libraryError (replay es data haveVip).
Proof.
  revert data haveVip. induction es as [|e es IH]; intros data haveVip; simpl;
    [apply libraryError_Ok|].
  apply libraryError_bind; [|intros [d h]; apply IH].
  unfold processEntry.
  apply libraryError_bind; [apply libraryError_vipEvent|intros [d h]].
  apply libraryError_bind; [apply libraryError_addressEvent|intros; apply libraryError_Ok].
Qed.

Lemma libraryError_processNode es : libraryError (processNode es).
Proof.
  unfold processNode.
  apply libraryError_bind; [apply libraryError_replay|intros [d h]; apply libraryError_Ok].
Qed.

Lemma libraryError_processItems items nd : libraryError (processItems items nd).
Proof.
  revert nd. induction items as [|[n es] items IH]; intros nd; simpl; [apply libraryError_Ok|].
  apply libraryError_bind; [apply libraryError_processNode|intros d; apply IH].
Qed.

(** ** Lines that no test recognizes *)

Lemma unrecognized_lineEntries ts l g :
  recognized l = false → lineEntries ts l g = [] ∧ lineFlags g l = g.
Proof.
  unfold recognized, lineEntries, lineFlags, scriptEntries, arpEntries, masterEntries,
    backupEntries, reloadEntries, addressEntries.
  intros H. repeat (apply orb_false_elim in H as [H ?]).
  by repeat match goal with H : _ = false |- _ => rewrite H; clear H end.
Qed.

Lemma unrecognized_linesEntries tls g :
  Forall (λ tl, recognized tl.2 = false) tls → linesEntries tls g = [].
Proof.
  revert g. induction tls as [|[ts l] tls IH]; intros g H; simpl; [done|].
  apply Forall_cons in H as [Hl Htls]. simpl in Hl.
  destruct (unrecognized_lineEntries ts l g Hl) as [-> ->]. by apply IH.
Qed.

Lemma unrecognized_nodeEntries name rs :
  Forall (λ r, r.1 = name → Forall (λ tl, recognized tl.2 = false) r.2) rs →
  nodeEntries name rs = [].
Proof.
  unfold nodeEntries. induction 1 as [|r rs Hr _ IH]; simpl; [done|].
  rewrite IH, app_nil_r. case_decide; [|done]. by apply unrecognized_linesEntries, Hr.
Qed.

(** ** Runs that return *)

Lemma elem_of_get {V : Type} k (v : V) d :
  NoDup (OD.keys d) → (k, v) ∈ d → OD.get k d = Some v.
Proof.
  induction d as [|[k0 v0] d IH]; simpl; [by intros _ ?%elem_of_nil|].
  rewrite NoDup_cons, elem_of_cons. intros [Hk0 Hnd] [[= <- <-]|Hin].
  - by rewrite String.eqb_refl.
  - destruct (String.eqb_spec k0 k) as [->|Hne]; [|by apply IH].
    exfalso. apply Hk0. apply (list_elem_of_fmap_2 fst) in Hin. done.
Qed.

Lemma get_elem_of {V : Type} k (v : V) d : OD.get k d = Some v → (k, v) ∈ d.
Proof.
  induction d as [|[k0 v0] d IH]; simpl; [done|].
  destruct (String.eqb_spec k0 k) as [->|Hne].
  - intros [= ->]. by left.
  - intros H. right. by apply IH.
Qed.

Section RunFacts.
Variable fromisoformat : string → option datetime.

Lemma resolveAll_elem_of mg fs rs r :
  resolveAll fromisoformat mg fs = Ok rs → r ∈ rs →
  ∃ f, f ∈ fs ∧ nodeName mg f = Ok r.1 ∧ stampLines fromisoformat (lines f) = Ok r.2.
Proof.
  rewrite resolveAll_Forall2. induction 1 as [|f r0 fs rs Hr _ IH].
  - by intros ?%elem_of_nil.
  - intros [->|Hin]%elem_of_cons.
    + apply resolve_inv in Hr as [? ?]. exists f. split; [by left|done].
    + destruct (IH Hin) as (f' & ? & ?). exists f'. split; [by right|done].
Qed.

Lemma resolveAll_file mg fs rs f :
  resolveAll fromisoformat mg fs = Ok rs → f ∈ fs →
  ∃ r, r ∈ rs ∧ nodeName mg f = Ok r.1 ∧ stampLines fromisoformat (lines f) = Ok r.2.
Proof.
  rewrite resolveAll_Forall2. induction 1 as [|f0 r fs rs Hr _ IH].
  - by intros ?%elem_of_nil.
  - intros [->|Hin]%elem_of_cons.
    + apply resolve_inv in Hr as [? ?]. exists r. split; [by left|done].
    + destruct (IH Hin) as (r' & ? & ?). exists r'. split; [by right|done].
Qed.

Lemma resolveAll_Ok mg fs :
  (∀ f, f ∈ fs → is_ok (nodeName mg f) = true
                 ∧ ∀ l, l ∈ lines f → is_ok (getTime fromisoformat l) = true) →
  ∃ rs, resolveAll fromisoformat mg fs = Ok rs.
Proof.
  induction fs as [|f fs IH]; intros H; simpl; [by eexists|].
  destruct (H f) as [Hn Hl]; [by left|]. unfold resolve.
  destruct (nodeName mg f) as [name|]; [|done]. simpl.
  destruct (stampLines_Ok fromisoformat (lines f)) as [tls ->].
  { intros l Hin. specialize (Hl l Hin).
    destruct (getTime fromisoformat l); [by eexists|done]. }
  simpl. destruct IH as [rs ->]; [|by eexists].
  intros f' Hf'. apply H. by right.
Qed.

(** Every line of a run that was read has a timestamp. *)
Lemma resolveAll_getTime mg fs rs f l :
  resolveAll fromisoformat mg fs = Ok rs → f ∈ fs → l ∈ lines f →
  ∃ ts, getTime fromisoformat l = Ok ts.
Proof.
  intros Hrs Hf Hl. destruct (resolveAll_file _ _ _ _ Hrs Hf) as (r & _ & _ & Hst).
  pose proof (stampLines_lines _ _ _ Hst) as Hlines. rewrite <-Hlines in Hl.
  apply list_elem_of_fmap in Hl as ([ts l'] & -> & Hin).
  exists ts. by apply (stampLines_times _ _ _ ts l' Hst).
Qed.

(** The record of a node after a run. *)
Lemma run_node_data mg files self rs name :
  run fromisoformat mg files = Ok self → resolveAll fromisoformat mg files = Ok rs →
  name ∈ rs.*1 →
  ∃ data, processNode (nodeEntries name rs) = Ok data
          ∧ OD.get name (nodeData self) = Some data.
Proof.
  intros Hrun Hrs Hin.
  destruct (run_node _ _ _ _ _ name Hrun Hrs) as (_ & _ & Hle & Hnd).
  rewrite decide_True in Hle by done. rewrite decide_True in Hnd by done.
  apply run_Ok in Hrun as (rs' & nd & Hrs' & _ & Hitems & -> & _).
  assert (rs' = rs) as -> by congruence.
  apply processItems_Ok_inv in Hitems. rewrite Forall_forall in Hitems.
  specialize (Hitems _ (get_elem_of _ _ _ Hle)). simpl in Hitems.
  destruct (processNode (nodeEntries name rs)) as [data|]; [|done].
  by exists data.
Qed.

(** A run returns when every file is read and every node is processed. *)
Lemma run_Ok_intro mg files rs :
  resolveAll fromisoformat mg files = Ok rs → files ≠ [] →
  oneKind fromisoformat None (concat (lines <$> files)) →
  (∀ name, name ∈ rs.*1 → is_ok (processNode (nodeEntries name rs)) = true) →
  ∃ self, run fromisoformat mg files = Ok self.
Proof.
  intros Hrs Hne Hone Hok.
  destruct (processItems_Ok (logEntries (absorb (newParser mg) rs)) []) as [nd Hnd].
  { apply Forall_forall. intros [n es] Hin. simpl.
    apply elem_of_get in Hin; [|apply NoDup_keys_absorb, NoDup_nil_2].
    rewrite get_logEntries_absorb in Hin. simpl in Hin.
    case_decide; [|done]. injection Hin as <-. by apply Hok. }
  eexists. apply run_Ok. by exists rs, nd.
Qed.

End RunFacts.

(** * The properties of the specification *)

(** ** [NoLogEntries] *)

(** C1, as the specification states it, fails: a file whose only line is
    not recognized leaves its node without entries, and [processEntries]
    returns a node with an empty record instead of raising. *)
Lemma noEvents_raises_counterexample : ¬ noEvents_raises.
Proof.
  intros H.
  destruct (parseLogs Iso.fromisoformat [unrecognizedFile] (newParser false))
    as [self|] eqn:E; [|by vm_compute in E].
  specialize (H false [unrecognizedFile] self E).
  vm_compute in E. injection E as <-.
  assert (∀ name entries,
    OD.get name [("node1.log", @nil LogEntry)] = Some entries → entries = []) as Hpre.
  { intros name entries Hg%get_elem_of. apply list_elem_of_singleton in Hg.
    by injection Hg as _ ->. }
  specialize (H Hpre). by vm_compute in H.
Qed.

(** C1, amended: a run raises [NoLogEntries] exactly when there is no
    file at all, since [parseLogs] registers the node of every file before
    it reads a line.  A run over at least one file whose names and
    timestamps are read, the timestamps being all offset-naive or all
    offset-aware (a timestamp of one kind after one of the other raises
    [TypeError] at line 188), and whose lines are all unrecognized returns,
    and every node of its result has the record of [NodeData()]. *)
Theorem NoLogEntries_iff_no_files fromisoformat mg files :
  (run fromisoformat mg files = Raise NoLogEntries ↔ files = [])
  ∧ (files ≠ [] →
     sameKind fromisoformat files →
     (∀ f, f ∈ files →
        is_ok (nodeName mg f) = true
        ∧ ∀ l, l ∈ lines f → is_ok (getTime fromisoformat l) = true ∧ recognized l = false) →
     ∃ self, run fromisoformat mg files = Ok self
             ∧ OD.keys (nodeData self) ≠ []
             ∧ ∀ name, name ∈ OD.keys (nodeData self) →
                 OD.get name (nodeData self) = Some newNodeData).
Proof.
  split.
  - split; [|by intros ->].
    unfold run.
    destruct (parseLogs fromisoformat files (newParser mg)) as [self0|e] eqn:E; simpl.
    + apply parseLogs_Ok in E as (_ & rs & Ers & ->); [|done].
      unfold processEntries. simpl.
      destruct (Nat.eqb_spec (length (logEntries (absorb (newParser mg) rs))) 0) as [H0|H0].
      * intros _. apply nil_length_inv in H0. destruct rs as [|r rs].
        -- apply resolveAll_Forall2 in Ers. by apply Forall2_nil_inv_r in Ers.
        -- exfalso. revert H0. simpl.
           apply logEntries_absorb_nonempty, logEntries_absorbFile_nonempty.
      * intros Hraise. exfalso.
        pose proof (libraryError_processItems (logEntries (absorb (newParser mg) rs))
                      (nodeData (absorb (newParser mg) rs))) as Herr.
        destruct (processItems _ _) as [nd|e]; simpl in Hraise; [done|].
        injection Hraise as ->. by apply Herr.
    + intros [= ->]. by destruct (libraryError_parseLogs fromisoformat files (newParser mg)).
  - intros Hne Hkind Hfiles.
    destruct (resolveAll_Ok fromisoformat mg files) as [rs Hrs].
    { intros f Hf. destruct (Hfiles f Hf) as [? Hl]. split; [done|].
      intros l Hin. by apply Hl. }
    assert (∀ name, nodeEntries name rs = []) as Hnone.
    { intros name. apply unrecognized_nodeEntries, Forall_forall. intros r Hr _.
      destruct (resolveAll_elem_of _ _ _ _ _ Hrs Hr) as (f & Hf & _ & Hst).
      apply Forall_forall. intros [ts l] Hin. simpl.
      apply (stampLines_times _ _ _ ts l Hst) in Hin as [Hin _].
      by apply (Hfiles f Hf). }
    destruct (run_Ok_intro fromisoformat mg files rs Hrs Hne) as [self Hself].
    { by apply sameKind_oneKind. }
    { intros name _. by rewrite Hnone. }
    exists self. split; [done|].
    assert (∀ name, OD.get name (nodeData self)
                    = if decide (name ∈ rs.*1) then Some newNodeData else None) as Hget.
    { intros name. destruct (run_node _ _ _ _ _ name Hself Hrs) as (_ & _ & _ & ->).
      by rewrite Hnone. }
    split.
    + destruct files as [|f fs]; [done|].
      destruct (resolveAll_file _ _ _ _ f Hrs) as (r & Hr & _); [by left|].
      specialize (Hget r.1). rewrite decide_True in Hget by by apply list_elem_of_fmap_2.
      intros E.
      assert (r.1 ∈ OD.keys (nodeData self)) as Hk
        by (apply get_Some_keys; rewrite Hget; by eexists).
      rewrite E in Hk. by apply elem_of_nil in Hk.
    + intros name Hin. apply get_Some_keys in Hin as [d Hd].
      rewrite Hget in Hd. rewrite Hget. by case_decide.
Qed.

Lemma NoLogEntries_iff_no_files_witness :
  ∃ self, run_iso false [unrecognizedFile] = Ok self
          ∧ OD.keys (nodeData self) ≠ []
          ∧ ∀ name, name ∈ OD.keys (nodeData self) →
              OD.get name (nodeData self) = Some newNodeData.
Proof.
  apply (proj2 (NoLogEntries_iff_no_files Iso.fromisoformat false [unrecognizedFile])).
  - done.
  - intros f f' l l' ->%list_elem_of_singleton ->%list_elem_of_singleton
      ->%list_elem_of_singleton ->%list_elem_of_singleton. done.
  - intros f ->%list_elem_of_singleton. split; [done|].
    intros l ->%list_elem_of_singleton. by vm_compute.
Defined.

(** ** Every file has its node *)

(** C9: after a run that returns, the node of every file is in the
    result, whether or not a line of the file was recognized; when no line
    of any file of that node was recognized, its record is that of
    [NodeData()]: four empty boundary lists, no event, no address. *)
Theorem every_file_has_node fromisoformat mg files self f name :
  run fromisoformat mg files = Ok self → f ∈ files → nodeName mg f = Ok name →
  (∃ data, OD.get name (nodeData self) = Some data)
  ∧ ((∀ f', f' ∈ files → nodeName mg f' = Ok name →
        ∀ l, l ∈ lines f' → recognized l = false) →
     OD.get name (nodeData self) = Some newNodeData
     ∧ vipChanges newNodeData = [[]; []; []; []] ∧ events newNodeData = []
     ∧ addrs newNodeData = ∅).
Proof.
  intros Hrun Hf Hname.
  pose proof Hrun as (rs & nd & Hrs & _)%run_Ok.
  destruct (resolveAll_file _ _ _ _ f Hrs Hf) as (r & Hr & Hn & _).
  assert (r.1 = name) as Hr1 by congruence.
  assert (name ∈ rs.*1) as Hin by (rewrite <-Hr1; by apply list_elem_of_fmap_2).
  destruct (run_node_data _ _ _ _ _ name Hrun Hrs Hin) as (data & Hdata & Hget).
  split; [by exists data|]. intros Hnone.
  assert (nodeEntries name rs = []) as Hes.
  { apply unrecognized_nodeEntries, Forall_forall. intros r' Hr' Hr'1.
    destruct (resolveAll_elem_of _ _ _ _ _ Hrs Hr') as (f' & Hf' & Hn' & Hst).
    apply Forall_forall. intros [ts l] Hl. simpl.
    apply (stampLines_times _ _ _ ts l Hst) in Hl as [Hl _].
    apply (Hnone f' Hf'); [congruence|done]. }
  rewrite Hes in Hdata. injection Hdata as <-. done.
Qed.

Lemma every_file_has_node_witness :
  ∃ self, run_iso false [unrecognizedFile] = Ok self
          ∧ OD.get "node1.log" (nodeData self) = Some newNodeData.
Proof.
  destruct (run_iso false [unrecognizedFile]) as [self|] eqn:E; [|by vm_compute in E].
  exists self. split; [done|].
  apply (every_file_has_node Iso.fromisoformat false [unrecognizedFile] self
           unrecognizedFile "node1.log" E).
  - by left.
  - done.
  - intros f' ->%list_elem_of_singleton _ l ->%list_elem_of_singleton. by vm_compute.
Defined.

(** ** Time bounds of a run *)

Lemma timeBounds_processEntries self self' :
  processEntries self = Ok self' → timeBounds self' = timeBounds self ∧ vips self' = vips self.
Proof. by intros (_ & nd & _ & ->)%processEntries_Ok. Qed.

Lemma boundsOf_lines (tls : list (Z * string)) :
  match tls with
  | [] => boundsOf (None, None) (tls.*1) = (None, None)
  | _ => ∃ lo hi,
      boundsOf (None, None) (tls.*1) = (Some lo, Some hi)
      ∧ (∃ l, (lo, l) ∈ tls) ∧ (∃ l, (hi, l) ∈ tls)
      ∧ ∀ t l, (t, l) ∈ tls → lo ≤ t ≤ hi
  end.
Proof.
  destruct tls as [|p tls]; [done|].
  destruct (boundsOf_isBounds ((p :: tls).*1)) as (lo & hi & Hb & Hlo & Hhi & Hbd).
  exists lo, hi. split; [done|].
  apply list_elem_of_fmap in Hlo as ([t1 l1] & -> & Hin1).
  apply list_elem_of_fmap in Hhi as ([t2 l2] & -> & Hin2).
  split; [by exists l1|]. split; [by exists l2|].
  intros t l Hin. apply Hbd. by apply (list_elem_of_fmap_2 fst) in Hin.
Qed.

(** C7: after [parseLogs] the bounds are the least and the greatest of the
    timestamps of all lines of all files, recognized or not, and
    [processEntries] leaves them as they are; without any line they stay
    [None]. *)
Theorem timeBounds_min_max fromisoformat mg files self :
  parseLogs fromisoformat files (newParser mg) = Ok self →
  (∀ self', processEntries self = Ok self' → timeBounds self' = timeBounds self)
  ∧ match concat (lines <$> files) with
    | [] => timeBounds self = (None, None)
    | _ => ∃ lo hi,
        timeBounds self = (Some lo, Some hi)
        ∧ (∃ l, l ∈ concat (lines <$> files) ∧ getTime fromisoformat l = Ok lo)
        ∧ (∃ l, l ∈ concat (lines <$> files) ∧ getTime fromisoformat l = Ok hi)
        ∧ ∀ l, l ∈ concat (lines <$> files) →
            ∃ ts, getTime fromisoformat l = Ok ts ∧ lo ≤ ts ≤ hi
    end.
Proof.
  intros (_ & rs & Hrs & ->)%parseLogs_Ok; [|done]. simpl in Hrs.
  split; [by intros self' [H _]%timeBounds_processEntries|].
  change (timeBounds (with_tzAware ?x _)) with (timeBounds x).
  rewrite timeBounds_absorb.
  change (timeBounds (newParser mg)) with (@None Z, @None Z).
  pose proof (λ ts l, allLines_times _ _ _ _ ts l Hrs) as Htimes.
  pose proof (boundsOf_lines (allLines rs)) as Hb.
  rewrite <-(allLines_lines _ _ _ _ Hrs) in *.
  destruct (allLines rs) as [|p tls] eqn:Eall; [done|].
  destruct Hb as (lo & hi & -> & [l1 Hl1] & [l2 Hl2] & Hbd).
  cbv iota. rewrite <-Eall in *. clear Eall.
  destruct ((allLines rs).*2) as [|l0 ls0] eqn:E2.
  { apply (list_elem_of_fmap_2 snd) in Hl1. rewrite E2 in Hl1. by apply elem_of_nil in Hl1. }
  exists lo, hi. split; [done|].
  split; [exists l1; by apply Htimes|]. split; [exists l2; by apply Htimes|].
  intros l Hl. rewrite <-E2 in Hl.
  apply list_elem_of_fmap in Hl as ([t l'] & -> & Hin). exists t. split.
  - apply Htimes in Hin as [_ Hin]. exact Hin.
  - by eapply Hbd.
Qed.

Lemma timeBounds_min_max_witness :
  ∃ self, parseLogs Iso.fromisoformat [currentArp; rotatedArp] (newParser true) = Ok self
          ∧ ∀ self', processEntries self = Ok self' → timeBounds self' = timeBounds self.
Proof.
  destruct (parseLogs Iso.fromisoformat [currentArp; rotatedArp] (newParser true))
    as [self|] eqn:E; [|by vm_compute in E].
  exists self. split; [done|].
  apply (proj1 (timeBounds_min_max Iso.fromisoformat true [currentArp; rotatedArp] self E)).
Defined.

Example timeBounds_two_files :
  timeBounds <$> parseLogs Iso.fromisoformat [currentArp; rotatedArp] (newParser true)
  = Ok (Some t_2023_01_01, Some (t_2023_01_01 + 600)).
Proof. by vm_compute. Qed.

(** ** Lines without a timestamp *)

(** C8: when the first token of a line is not accepted by
    [fromisoformat], [getTime] raises its [ValueError], and a run over
    files with such a line raises in [parseLogs], before any node is
    processed: no line is skipped. *)
Theorem malformed_timestamp_aborts fromisoformat l tok :
  PyStr.split l !! 0%nat = Some tok → fromisoformat tok = None →
  getTime fromisoformat l = Raise ValueError
  ∧ ∀ mg files f, f ∈ files → l ∈ lines f →
      ∃ e, parseLogs fromisoformat files (newParser mg) = Raise e
           ∧ run fromisoformat mg files = Raise e.
Proof.
  intros Htok Hnone.
  assert (getTime fromisoformat l = Raise ValueError) as Hraise.
  { unfold getTime, getitem. rewrite Htok. simpl. by rewrite Hnone. }
  split; [done|]. intros mg files f Hf Hl. unfold run.
  destruct (parseLogs fromisoformat files (newParser mg)) as [self|e] eqn:E;
    [|by exists e].
  exfalso. apply parseLogs_Ok in E as (_ & rs & Hrs & _); [|done]. simpl in Hrs.
  destruct (resolveAll_getTime _ _ _ _ _ l Hrs Hf Hl) as [ts Hts]. congruence.
Qed.

Lemma malformed_timestamp_aborts_witness :
  getTime_iso malformedLine = Raise ValueError
  ∧ ∃ e, parseLogs Iso.fromisoformat [mkLogFile ["node1.log"] [malformedLine]] (newParser false)
         = Raise e
         ∧ run_iso false [mkLogFile ["node1.log"] [malformedLine]] = Raise e.
Proof.
  destruct (malformed_timestamp_aborts Iso.fromisoformat malformedLine "Jan")
    as [H1 H2]; [by vm_compute..|].
  split; [done|].
  apply (H2 false [mkLogFile ["node1.log"] [malformedLine]] (mkLogFile ["node1.log"] [malformedLine])).
  - by left.
  - by left.
Defined.

(** ** VIP labels *)

Lemma lineVips_arp vs l :
  isArpLine l = true → lineVips vs l = <[lineSlot l := lastToken l]> vs.
Proof. intros H. unfold lineVips. by rewrite H. Qed.

(** The label of a slot after the lines [ls]: the last token of the last
    ARP line of the slot, or the label before. *)
Lemma foldl_lineVips_lookup vs ls s :
  (s < length vs)%nat →
  foldl lineVips vs ls !! s
  = match last (arpLinesFor s ls) with
    | Some l => Some (lastToken l)
    | None => vs !! s
    end.
Proof.
  revert vs. induction ls as [|l ls IH]; intros vs Hs; [done|].
  simpl. rewrite IH by (by rewrite length_lineVips).
  unfold arpLinesFor. rewrite filter_cons. fold (arpLinesFor s ls).
  destruct (decide (isArpLine l = true ∧ lineSlot l = s)) as [[Harp <-]|Hn].
  - rewrite last_cons. destruct (last (arpLinesFor (lineSlot l) ls)); [done|].
    rewrite lineVips_arp by done. by rewrite list_lookup_insert_eq.
  - destruct (last (arpLinesFor s ls)); [done|].
    unfold lineVips. destruct (isArpLine l) eqn:Harp; [|done].
    apply list_lookup_insert_ne. intros E. by apply Hn.
Qed.

(** C4, as the specification states it, fails: [findLogs] puts the current
    log of a pod before its rotated logs, so the label of the API VIP is
    the address of the rotated log, whose line is the earlier one. *)
Lemma label_is_latest_counterexample : ¬ label_is_latest.
Proof.
  intros H.
  destruct (parseLogs Iso.fromisoformat [currentArp; rotatedArp] (newParser true))
    as [self|] eqn:E; [|by vm_compute in E].
  specialize (H true [currentArp; rotatedArp] self 0%nat currentArpLine
                (t_2023_01_01 + 600) E).
  assert (arpLinesFor 0 (concat (lines <$> [currentArp; rotatedArp]))
          = [currentArpLine; rotatedArpLine]) as Hlines by (by vm_compute).
  rewrite Hlines in H.
  assert (vips self !! 0%nat = Some (lastToken currentArpLine)) as Hlabel.
  { apply H; [by left|by vm_compute|].
    intros l' ts' [->|Hin]%elem_of_cons Hts Hne; [done|].
    apply list_elem_of_singleton in Hin as ->.
    vm_compute in Hts. injection Hts as <-. by vm_compute. }
  vm_compute in E. injection E as <-. by vm_compute in Hlabel.
Qed.

(** C4, amended: the label of a slot is the last token of the ARP or
    neighbour advert line of that slot that [parseLogs] reads last, files in
    the order of [self.logFiles] and lines in the order of the file; it is
    empty when there is no such line.  [processEntries] does not touch it. *)
Theorem label_is_last_read fromisoformat mg files self s :
  parseLogs fromisoformat files (newParser mg) = Ok self → (s < 4)%nat →
  vips self !! s
  = Some (match last (arpLinesFor s (concat (lines <$> files))) with
          | Some l => lastToken l
          | None => ""
          end)
  ∧ ∀ self', processEntries self = Ok self' → vips self' = vips self.
Proof.
  intros (_ & rs & Hrs & ->)%parseLogs_Ok Hs; [|done]. simpl in Hrs.
  split; [|by intros self' [_ H]%timeBounds_processEntries].
  drop_tz. rewrite vips_absorb, (allLines_lines _ _ _ _ Hrs).
  rewrite foldl_lineVips_lookup by done.
  destruct (last (arpLinesFor s (concat (lines <$> files)))); [done|].
  simpl. do 4 (destruct s as [|s]; [done|]). lia.
Qed.

Lemma label_is_last_read_witness :
  ∃ self, parseLogs Iso.fromisoformat [currentArp; rotatedArp] (newParser true) = Ok self
          ∧ vips self !! 0%nat = Some "192.168.111.9".
Proof.
  destruct (parseLogs Iso.fromisoformat [currentArp; rotatedArp] (newParser true))
    as [self|] eqn:E; [|by vm_compute in E].
  exists self. split; [done|].
  destruct (label_is_last_read Iso.fromisoformat true [currentArp; rotatedArp] self 0 E)
    as [-> _]; [lia|]. by vm_compute.
Defined.

(** C10: an ARP or neighbour advert line always sets the label of its slot
    to its last token, while its [tookVip] entry is appended only when the
    flag of the slot is not yet set in this file. *)
Theorem arp_label_unconditional name ts l tok self gratuitousArp :
  isArpLine l = true → last (PyStr.split l) = Some tok →
  length (vips self) = 4%nat → length gratuitousArp = 4%nat →
  ∃ self' gratuitousArp',
    arpCheck name ts l self gratuitousArp = Ok (self', gratuitousArp')
    ∧ vips self' = <[lineSlot l := tok]> (vips self)
    ∧ vips self' !! lineSlot l = Some tok
    ∧ (gratuitousArp !! lineSlot l = Some true →
       logEntries self' = logEntries self ∧ gratuitousArp' = gratuitousArp)
    ∧ (gratuitousArp !! lineSlot l = Some false →
       logEntries self'
       = OD.update name (λ es, es ++ [mkLogEntry ts l tookVip (lineSlot l)]) (logEntries self)
       ∧ gratuitousArp' = <[lineSlot l := true]> gratuitousArp).
Proof.
  intros Harp Htok Hv Hg. pose proof (lineSlot_lt l) as Hslot.
  unfold arpCheck. rewrite Harp, setEntryVip_new. simpl.
  unfold getlast. rewrite Htok. simpl. rewrite !setitem_Ok by lia. simpl.
  destruct (gratuitousArp !! lineSlot l) as [seen|] eqn:Eg;
    [|apply lookup_ge_None in Eg; lia].
  unfold getitem. rewrite Eg. simpl. destruct seen; simpl.
  - eexists _, _. split; [done|]. simpl. split; [done|].
    split; [by rewrite list_lookup_insert_eq by lia|]. split; [done|]. by intros [=].
  - eexists _, _. split; [done|]. simpl. split; [done|].
    split; [by rewrite list_lookup_insert_eq by lia|]. split; [by intros [=]|done].
Qed.

Lemma arp_label_unconditional_witness :
  ∃ self' gratuitousArp',
    arpCheck "keepalived-master-0" t_2023_01_01 rotatedArpLine (newParser true)
      [true; false; false; false] = Ok (self', gratuitousArp')
    ∧ vips self' !! 0%nat = Some "192.168.111.9"
    ∧ logEntries self' = logEntries (newParser true).
Proof.
  destruct (arp_label_unconditional "keepalived-master-0" t_2023_01_01 rotatedArpLine
              "192.168.111.9" (newParser true) [true; false; false; false])
    as (self' & g' & Hrun & _ & Hlabel & Hseen & _); [by vm_compute..|].
  exists self', g'. split; [done|]. split; [exact Hlabel|].
  apply Hseen. by vm_compute.
Defined.

(** Two announcements of the API VIP in one file: one [tookVip] entry, the
    label of the second line. *)
Example arp_twice_one_entry :
  (λ self, (logEntries self, vips self))
    <$> parseLogs Iso.fromisoformat
          [mkLogFile (podLogs ++ ["current.log"]) [rotatedArpLine; currentArpLine]]
          (newParser true)
  = Ok ([("keepalived-master-0",
          [mkLogEntry t_2023_01_01 rotatedArpLine tookVip 0])],
        ["192.168.111.5"; ""; ""; ""]).
Proof. by vm_compute. Qed.

(** ** Gratuitous ARPs within a file *)

Lemma lineFlags_true g l s :
  g !! s = Some true → lineFlags g l !! s = Some true.
Proof.
  intros H. unfold lineFlags. destruct (_ || _); [|done].
  destruct (decide (lineSlot l = s)) as [->|Hne].
  - rewrite list_lookup_insert_eq; [done|]. by eapply lookup_lt_Some.
  - by rewrite list_lookup_insert_ne.
Qed.

Lemma foldl_lineFlags_true g ls s :
  g !! s = Some true → foldl lineFlags g ls !! s = Some true.
Proof.
  revert g. induction ls as [|l ls IH]; intros g H; simpl; [done|].
  by apply IH, lineFlags_true.
Qed.

Lemma lineFlags_takes g l s :
  (s < length g)%nat → takesSlot s l = true → lineFlags g l !! s = Some true.
Proof.
  intros Hs [Hl <-%bool_decide_eq_true]%andb_prop. unfold lineFlags. rewrite Hl.
  by apply list_lookup_insert_eq.
Qed.

Lemma lineFlags_other g l s :
  takesSlot s l = false → lineFlags g l !! s = g !! s.
Proof.
  unfold takesSlot, lineFlags. destruct (_ || _); simpl; [|done].
  intros Hne%bool_decide_eq_false. by apply list_lookup_insert_ne.
Qed.

Lemma foldl_lineFlags_other g ls s :
  Forall (λ l, takesSlot s l = false) ls → foldl lineFlags g ls !! s = g !! s.
Proof.
  revert g. induction ls as [|l ls IH]; intros g H; simpl; [done|].
  apply Forall_cons in H as [Hl Hls]. by rewrite IH, lineFlags_other.
Qed.

Lemma length_foldl_lineFlags g ls : length (foldl lineFlags g ls) = length g.
Proof.
  revert g. induction ls as [|l ls IH]; intros g; simpl; [done|].
  by rewrite IH, length_lineFlags.
Qed.

(** With the flag of its slot set, the ARP test appends nothing. *)
Lemma arpCheck_seen name ts l tok self g :
  isArpLine l = true → last (PyStr.split l) = Some tok →
  length (vips self) = 4%nat → g !! lineSlot l = Some true →
  arpCheck name ts l self g
  = Ok (with_vips self (<[lineSlot l := tok]> (vips self)), g).
Proof.
  intros Harp Htok Hv Hg. pose proof (lineSlot_lt l) as Hslot.
  pose proof (lookup_lt_Some _ _ _ Hg) as Hlt.
  unfold arpCheck. rewrite Harp, setEntryVip_new. simpl.
  unfold getlast. rewrite Htok. simpl. rewrite !setitem_Ok by lia. simpl.
  unfold getitem. by rewrite Hg.
Qed.

Lemma arpEntries_vip ts l g e : e ∈ arpEntries ts l g → vip e = lineSlot l.
Proof.
  unfold arpEntries. destruct (_ && _); [|by intros ?%elem_of_nil].
  by intros ->%list_elem_of_singleton.
Qed.

(** At most one ARP entry of a slot, and none once its flag is set. *)
Lemma arpEmitted_count tls g s :
  (length (filter (λ e, vip e = s) (arpEmitted tls g))
   ≤ match g !! s with Some false => 1 | _ => 0 end)%nat.
Proof.
  revert g. induction tls as [|[ts l] tls IH]; intros g; simpl.
  - destruct (g !! s) as [[]|]; lia.
  - rewrite filter_app, length_app. specialize (IH (lineFlags g l)).
    assert (∀ b : bool, lineFlags g l !! s = Some b → ∃ b', g !! s = Some b' ∧ (b' = true → b = true))
      as Hmono.
    { intros b Hb. destruct (g !! s) as [b'|] eqn:Eg.
      - exists b'. split; [done|]. intros ->.
        rewrite (lineFlags_true _ l _ Eg) in Hb. by injection Hb.
      - apply lookup_ge_None in Eg. rewrite <-(length_lineFlags g l) in Eg.
        apply lookup_ge_None in Eg. congruence. }
    unfold arpEntries at 1.
    destruct (isArpLine l && negb (default true (g !! lineSlot l))) eqn:Hemit.
    + apply andb_prop in Hemit as [Harp Hseen].
      destruct (g !! lineSlot l) as [[]|] eqn:Eg; [done| |done].
      destruct (decide (lineSlot l = s)) as [<-|Hne].
      * rewrite filter_cons_True by done. rewrite Eg.
        rewrite lineFlags_takes in IH;
          [|by eapply lookup_lt_Some
           |unfold takesSlot; rewrite Harp; simpl; by apply bool_decide_eq_true].
        simpl. lia.
      * rewrite filter_cons_False by done.
        rewrite lineFlags_other in IH
          by (unfold takesSlot; rewrite bool_decide_eq_false_2 by done; apply andb_false_r).
        simpl. lia.
    + simpl. destruct (lineFlags g l !! s) as [b|] eqn:Ef.
      * destruct (Hmono b eq_refl) as (b' & -> & Hb'). destruct b'; [|destruct b; lia].
        rewrite Hb' in IH by done. lia.
      * destruct (g !! s) as [[]|]; lia.
Qed.

Lemma linesEntries_app tls1 tls2 g :
  linesEntries (tls1 ++ tls2) g
  = linesEntries tls1 g ++ linesEntries tls2 (foldl lineFlags g (tls1.*2)).
Proof.
  revert g. induction tls1 as [|[ts l] tls1 IH]; intros g; simpl; [done|].
  by rewrite IH, app_assoc.
Qed.

Section ArpFacts.
Variable fromisoformat : string → option datetime.

Lemma stampLines_app ls1 ls2 tls :
  stampLines fromisoformat (ls1 ++ ls2) = Ok tls →
  ∃ tls1 tls2, stampLines fromisoformat ls1 = Ok tls1
               ∧ stampLines fromisoformat ls2 = Ok tls2 ∧ tls = tls1 ++ tls2.
Proof.
  revert tls. induction ls1 as [|l ls1 IH]; intros tls; simpl.
  - intros H. by exists [], tls.
  - destruct (getTime fromisoformat l) as [ts|]; [|done]. simpl.
    destruct (stampLines fromisoformat (ls1 ++ ls2)) as [rest|]; [|done]. simpl.
    intros [= <-]. destruct (IH rest eq_refl) as (tls1 & tls2 & -> & -> & ->).
    by exists ((ts, l) :: tls1), tls2.
Qed.

Lemma parseLines_Ok_stamp name ls self g self' g' :
  length g = 4%nat → length (vips self) = 4%nat →
  parseLines fromisoformat name ls self g = Ok (self', g') →
  ∃ tls, stampLines fromisoformat ls = Ok tls ∧ g' = foldl lineFlags g ls.
Proof.
  intros Hg Hv H. pose proof (parseLines_Ok_inv _ _ _ _ _ _ H Hg Hv) as [Hok Hone].
  destruct (stampLines fromisoformat ls) as [tls|e] eqn:Hst; [|done].
  exists tls. split; [done|]. destruct self as [mg le nd tb vs aw].
  rewrite <-(appendEntries_nil name (mkParser mg le nd tb vs aw)) in H.
  rewrite (parseLines_spec _ _ _ tls) in H by done. by injection H as _ <-.
Qed.

End ArpFacts.

Lemma filter_arpOnly_lineEntries s ts l g :
  filter (arpOnly s) (lineEntries ts l g) = filter (arpOnly s) (arpEntries ts l g).
Proof.
  unfold lineEntries. rewrite !filter_app.
  assert (filter (arpOnly s) (scriptEntries ts l) = []) as ->.
  { unfold scriptEntries. destruct (_ && _); [|done].
    rewrite filter_cons_False; [done|]. intros [He _]. simpl in He.
    by destruct (PyStr.contains "succeeded" l). }
  assert (filter (arpOnly s) (masterEntries ts l) = []) as ->.
  { unfold masterEntries. destruct (isMasterLine l) eqn:Hm; [|done].
    rewrite filter_cons_False; [done|]. intros (_ & _ & Hl). simpl in Hl. congruence. }
  assert (filter (arpOnly s) (backupEntries ts l) = []) as ->.
  { unfold backupEntries. destruct (PyStr.contains _ l); [|done].
    rewrite filter_cons_False; [done|]. by intros [He _]. }
  assert (filter (arpOnly s) (reloadEntries ts l) = []) as ->.
  { unfold reloadEntries. destruct (PyStr.contains _ l); [|done].
    rewrite filter_cons_False; [done|]. by intros [He _]. }
  assert (filter (arpOnly s) (addressEntries ts l) = []) as ->.
  { unfold addressEntries. destruct (PyStr.contains _ l); [|done].
    rewrite filter_cons_False; [done|]. by intros [He _]. }
  by rewrite !app_nil_r.
Qed.

Lemma filter_arpOnly_linesEntries s tls g :
  filter (arpOnly s) (linesEntries tls g) = filter (arpOnly s) (arpEmitted tls g).
Proof.
  revert g. induction tls as [|[ts l] tls IH]; intros g; simpl; [done|].
  by rewrite !filter_app, filter_arpOnly_lineEntries, IH.
Qed.

Lemma length_filter_arpOnly s (es : list LogEntry) :
  (length (filter (arpOnly s) es) ≤ length (filter (λ e, vip e = s) es))%nat.
Proof.
  induction es as [|e es IH]; [done|]. rewrite !filter_cons.
  destruct (decide (arpOnly s e)) as [(_ & Hv & _)|Hn].
  - rewrite decide_True by done. simpl. lia.
  - destruct (decide (vip e = s)); simpl; lia.
Qed.

Lemma arpEntries_unseen ts l g :
  isArpLine l = true → g !! lineSlot l = Some false →
  arpEntries ts l g = [mkLogEntry ts l tookVip (lineSlot l)].
Proof. intros Harp Hg. unfold arpEntries. by rewrite Harp, Hg. Qed.

Lemma allFalse_lookup s : (s < 4)%nat → allFalse !! s = Some false.
Proof. intros Hs. do 4 (destruct s as [|s]; [done|]). lia. Qed.

(** C5: within one file, once a line has yielded a [tookVip] entry for a
    slot, by the ARP test or by [Entering MASTER STATE], the ARP test
    appends nothing for a later line of that slot; so the ARP test appends
    at most one entry per slot and file, and among the entries of the file
    at most one [tookVip] entry of a slot has a line that is no
    [Entering MASTER STATE] line.  The flags start unset in every file,
    whatever the parser has read before: the entries of a file are computed
    from [allFalse], and the first ARP line of a slot in a file is
    appended. *)
Theorem arp_once_per_file fromisoformat name :
  (∀ pre x mid y ts tok self self' g st,
     parseLines fromisoformat name (pre ++ x :: mid) self allFalse = Ok (self', g) →
     length (vips self) = 4%nat → takesSlot (lineSlot y) x = true →
     isArpLine y = true → last (PyStr.split y) = Some tok → length (vips st) = 4%nat →
     ∃ st', arpCheck name ts y st g = Ok (st', g) ∧ logEntries st' = logEntries st)
  ∧ (∀ f self self',
       length (vips self) = 4%nat → nodeName (isMustGather self) f = Ok name →
       parseFile fromisoformat f self = Ok self' →
       ∃ tls, stampLines fromisoformat (lines f) = Ok tls
              ∧ OD.get name (logEntries self')
                = Some (default [] (OD.get name (logEntries self)) ++ linesEntries tls allFalse)
              ∧ (∀ s, (length (filter (λ e, vip e = s) (arpEmitted tls allFalse)) ≤ 1)%nat
                      ∧ (length (filter (arpOnly s) (linesEntries tls allFalse)) ≤ 1)%nat)
              ∧ ∀ pre y post ts,
                  lines f = pre ++ y :: post →
                  Forall (λ l, takesSlot (lineSlot y) l = false) pre →
                  isArpLine y = true → getTime fromisoformat y = Ok ts →
                  mkLogEntry ts y tookVip (lineSlot y) ∈ linesEntries tls allFalse).
Proof.
  split.
  - intros pre x mid y ts tok self self' g st Hrun Hv Hx Harp Htok Hst.
    apply parseLines_Ok_stamp in Hrun as (tls & _ & ->); [|done..].
    exists (with_vips st (<[lineSlot y := tok]> (vips st))). split; [|done].
    apply arpCheck_seen; [done..|].
    rewrite foldl_app. simpl. apply foldl_lineFlags_true, lineFlags_takes; [|done].
    rewrite length_foldl_lineFlags. simpl. apply lineSlot_lt.
  - intros f self self' Hv Hname Hrun.
    pose proof (parseFile_Ok_inv _ _ _ _ Hrun Hv) as Hkind.
    rewrite parseFile_spec in Hrun by done.
    unfold resolve in Hrun. rewrite Hname in Hrun. simpl in Hrun.
    destruct (stampLines fromisoformat (lines f)) as [tls|] eqn:Hst; [|done].
    injection Hrun as <-. exists tls. split; [done|]. split; [|split].
    + simpl. rewrite get_update, decide_True, get_setdefault, decide_True by done.
      done.
    + intros s.
      assert (length (filter (λ e, vip e = s) (arpEmitted tls allFalse)) ≤ 1)%nat as Hone.
      { etrans; [apply arpEmitted_count|]. destruct (allFalse !! s) as [[]|]; lia. }
      split; [done|]. rewrite filter_arpOnly_linesEntries.
      etrans; [apply length_filter_arpOnly|done].
    + intros pre y post ts Hlines Hpre Harp Hts. rewrite Hlines in Hst.
      apply stampLines_app in Hst as (tpre & tpost & Hst1 & Hst2 & ->).
      simpl in Hst2. rewrite Hts in Hst2. simpl in Hst2.
      destruct (stampLines fromisoformat post) as [rest|]; [|done].
      injection Hst2 as <-. rewrite linesEntries_app. simpl.
      rewrite (stampLines_lines _ _ _ Hst1).
      apply elem_of_app. right. apply elem_of_app. left.
      unfold lineEntries. apply elem_of_app. right. apply elem_of_app. left.
      rewrite arpEntries_unseen; [by left|done|].
      rewrite foldl_lineFlags_other by done. apply allFalse_lookup, lineSlot_lt.
Qed.

Lemma arp_once_per_file_witness :
  (∃ st', arpCheck "keepalived-master-0" (t_2023_01_01 + 600) currentArpLine (newParser true)
            [true; false; false; false] = Ok (st', [true; false; false; false])
          ∧ logEntries st' = logEntries (newParser true))
  ∧ ∃ self', parseFile Iso.fromisoformat rotatedArp (newParser true) = Ok self'
             ∧ mkLogEntry t_2023_01_01 rotatedArpLine tookVip 0
               ∈ default [] (OD.get "keepalived-master-0" (logEntries self')).
Proof.
  destruct (arp_once_per_file Iso.fromisoformat "keepalived-master-0") as [H1 H2]. split.
  - eapply (H1 [] rotatedArpLine [] currentArpLine (t_2023_01_01 + 600) "192.168.111.5"
              (newParser true) _ [true; false; false; false] (newParser true));
      [vm_compute; reflexivity|by vm_compute..].
  - destruct (parseFile Iso.fromisoformat rotatedArp (newParser true)) as [self'|] eqn:E;
      [|by vm_compute in E].
    exists self'. split; [done|].
    destruct (H2 rotatedArp (newParser true) self') as (tls & Hst & -> & _ & Hin);
      [done|by vm_compute|done|].
    simpl. apply (Hin [] rotatedArpLine [] t_2023_01_01); [done|done|..]; by vm_compute.
Defined.

(** Two files of one pod, each with an announcement of the API VIP: the
    flags of the first file do not reach the second, both entries are
    appended. *)
Example arp_flags_reset_per_file :
  logEntries <$> parseLogs Iso.fromisoformat [currentArp; rotatedArp] (newParser true)
  = Ok [("keepalived-master-0",
         [mkLogEntry (t_2023_01_01 + 600) currentArpLine tookVip 0;
          mkLogEntry t_2023_01_01 rotatedArpLine tookVip 0])].
Proof. by vm_compute. Qed.

(** ** Interval boundaries *)

(** C2, as the specification states it, fails: timestamps are cut to whole
    seconds, so a VIP taken and lost within one second leaves two equal
    boundaries. *)
Lemma boundaries_strictly_increasing_counterexample : ¬ boundaries_strictly_increasing.
Proof.
  intros H.
  destruct (run_iso false [flapFile]) as [self|] eqn:E; [|by vm_compute in E].
  pose proof E as E'. vm_compute in E'. injection E' as E'.
  edestruct (H false [flapFile] self "master-0.log") as [Hlt _];
    [exact E
    |rewrite <-E'; vm_compute; reflexivity
    |rewrite <-E'; vm_compute; reflexivity
    |exact (eq_refl : [[t_2023_01_01; t_2023_01_01]; []; []; []] !! 0%nat = Some _)|].
  apply Sorted_inv in Hlt as [_ Hhd]. apply HdRel_inv in Hhd. lia.
Qed.

Lemma sorted_timestamps (entries es : list LogEntry) :
  es `sublist_of` sorted timestamp entries → Sorted Z.le (timestamp <$> es).
Proof.
  intros Hsub. pose proof (key_le_trans timestamp) as Htrans.
  apply (Sorted_fmap _ (key_le timestamp)); [done|].
  apply StronglySorted_Sorted, (sublist_StronglySorted _ _ _ Hsub).
  apply Sorted_StronglySorted; [done|]. apply sorted_Sorted.
Qed.

(** C2, amended: for every node and slot the boundaries are in
    non-decreasing order, two of them being equal when the events fall in
    the same second, and they alternate between gained and lost, the first
    one gained. *)
Theorem boundaries_sorted_alternating fromisoformat mg files self name data s :
  run fromisoformat mg files = Ok self →
  OD.get name (nodeData self) = Some data → (s < 4)%nat →
  ∃ entries changes,
    OD.get name (logEntries self) = Some entries
    ∧ vipChanges data !! s = Some changes
    ∧ Sorted Z.le changes
    ∧ alternates entries s changes.
Proof.
  intros Hrun Hdata Hs.
  pose proof Hrun as (rs & nd & Hrs & _)%run_Ok.
  destruct (run_node _ _ _ _ _ name Hrun Hrs) as (_ & _ & Hle & Hnd).
  rewrite Hdata in Hnd. destruct (decide (name ∈ rs.*1)); [|done].
  destruct (processNode (nodeEntries name rs)) as [data'|] eqn:Hnode; [|done].
  injection Hnd as ->.
  apply processNode_inv in Hnode as (haveVip & _ & _ & Hinv).
  destruct (Hinv s Hs) as (es & Hsub & Hvip & Hch & Htr & _).
  exists (nodeEntries name rs), (timestamp <$> es).
  split; [done|]. split; [done|]. split; [by eapply sorted_timestamps|].
  by exists es.
Qed.

Lemma boundaries_sorted_alternating_witness :
  ∃ self entries changes,
    run_iso false [flapFile] = Ok self
    ∧ OD.get "master-0.log" (logEntries self) = Some entries
    ∧ Sorted Z.le changes
    ∧ alternates entries 0 changes.
Proof.
  destruct (run_iso false [flapFile]) as [self|] eqn:E; [|by vm_compute in E].
  destruct (OD.get "master-0.log" (nodeData self)) as [data|] eqn:Ed;
    [|vm_compute in E; injection E as <-; by vm_compute in Ed].
  destruct (boundaries_sorted_alternating Iso.fromisoformat false [flapFile] self
              "master-0.log" data 0 E Ed) as (entries & changes & H1 & _ & H2 & H3); [lia|].
  by exists self, entries, changes.
Defined.

Example boundaries_flap :
  boundariesOf "master-0.log" (run_iso false [flapFile])
  = Ok (Some [[t_2023_01_01; t_2023_01_01]; []; []; []]).
Proof. by vm_compute. Qed.

(** ** A VIP taken, then lost *)

(** The loss found before the gain: the sort puts the gain first. *)
Lemma processNode_lost_took T1 T2 l1 l2 s :
  T1 < T2 → (s < 4)%nat →
  processNode [mkLogEntry T2 l2 lostVip s; mkLogEntry T1 l1 tookVip s]
  = Ok (mkNodeData (<[s := [T1; T2]]> [[]; []; []; []]) [] ∅).
Proof.
  intros Hlt Hs. unfold processNode. simpl.
  destruct (Z.leb_spec T2 T1); [lia|].
  do 4 (destruct s as [|s]; [reflexivity|]). lia.
Qed.

(** The stable sort and a filter commute. *)
Section SortedFilter.
Context {A : Type} (key : A → Z) (P : A → Prop) `{!∀ x, Decision (P x)}.

Lemma insert_sorted_head (x : A) (l : list A) :
  Forall (λ y, key x ≤ key y) l → insert_sorted key x l = x :: l.
Proof.
  destruct 1 as [|y l Hy _]; simpl; [done|].
  by destruct (Z.leb_spec (key x) (key y)); [|lia].
Qed.

Lemma filter_insert_sorted (x : A) (l : list A) :
  StronglySorted (key_le key) l →
  filter P (insert_sorted key x l)
  = if decide (P x) then insert_sorted key x (filter P l) else filter P l.
Proof.
  induction 1 as [|y l Hl IH Hy]; simpl.
  { rewrite filter_cons, filter_nil. by destruct (decide (P x)). }
  destruct (Z.leb_spec (key x) (key y)) as [Hle|Hgt].
  - rewrite filter_cons. destruct (decide (P x)) as [Hx|Hx]; [|done].
    rewrite filter_cons. destruct (decide (P y)) as [Hp|Hp]; simpl.
    + by destruct (Z.leb_spec (key x) (key y)); [|lia].
    + rewrite insert_sorted_head; [done|].
      apply Forall_forall. intros z Hz%list_elem_of_filter.
      rewrite Forall_forall in Hy. destruct Hz as [_ Hz]. specialize (Hy z Hz).
      unfold key_le in Hy. lia.
  - rewrite !(filter_cons _ y), IH.
    destruct (decide (P y)) as [Hp|Hp]; [|done].
    destruct (decide (P x)) as [Hx|Hx]; [|done]. simpl.
    by destruct (Z.leb_spec (key x) (key y)); [lia|].
Qed.

Lemma filter_sorted (l : list A) :
  filter P (sorted key l) = sorted key (filter P l).
Proof.
  pose proof (key_le_trans key) as Htrans.
  induction l as [|x l IH]; simpl; [done|].
  rewrite filter_insert_sorted, filter_cons, IH
    by (apply Sorted_StronglySorted; [done|apply sorted_Sorted]).
  by destruct (decide (P x)).
Qed.
End SortedFilter.

(** The state machine of a slot passes over what is neither a gain nor
    a loss. *)
Lemma slotReplay_slotEvent s es changes have :
  slotReplay (filter (λ e, vip e = s) es) changes have
  = slotReplay (filter (slotEvent s) es) changes have.
Proof.
  revert changes have. induction es as [|e es IH]; intros changes have; [done|].
  rewrite !filter_cons. destruct (decide (vip e = s)) as [Hv|Hv].
  - destruct (decide (slotEvent s e)) as [Hs|Hs].
    + simpl. by destruct have, (decide _); rewrite IH.
    + assert (entry_event e ≠ tookVip ∧ entry_event e ≠ lostVip) as [Ht Hl].
      { split; intros He; apply Hs; split; auto. }
      simpl. destruct have; [by rewrite decide_False|by rewrite decide_False].
  - rewrite decide_False; [done|]. by intros [? _].
Qed.

(** One entry, seen from slot [s]. *)
Lemma vipEvent_slot e data haveVip data' haveVip' s changes have :
  vipEvent e data haveVip = Ok (data', haveVip') →
  vipChanges data !! s = Some changes → haveVip !! s = Some have →
  ∃ changes' have',
    vipChanges data' !! s = Some changes' ∧ haveVip' !! s = Some have'
    ∧ ∀ rest, slotReplay (filter (λ e, vip e = s) (e :: rest)) changes have
              = slotReplay (filter (λ e, vip e = s) rest) changes' have'.
Proof.
  intros Hrun Hch Hhave. unfold vipEvent in Hrun.
  destruct (getitem haveVip (vip e)) as [h|] eqn:Eh; [|done]. simpl in Hrun.
  apply getitem_Ok in Eh.
  destruct (decide (vip e = s)) as [Hv|Hv].
  - rewrite Hv in Eh, Hrun. assert (h = have) as -> by congruence.
    pose proof (lookup_lt_Some _ _ _ Hch) as Hlc.
    pose proof (lookup_lt_Some _ _ _ Hhave) as Hlh.
    unfold getitem in Hrun. rewrite Hch in Hrun. simpl in Hrun.
    rewrite !setitem_Ok in Hrun by done. simpl in Hrun.
    destruct have; destruct (decide _) as [Hev|Hev]; injection Hrun as <- <-.
    + exists (changes ++ [timestamp e]), false. simpl.
      rewrite !list_lookup_insert_eq by done. split; [done|]. split; [done|].
      intros rest. rewrite filter_cons, decide_True by done. simpl.
      by rewrite decide_True.
    + exists changes, true. split; [done|]. split; [done|].
      intros rest. rewrite filter_cons, decide_True by done. simpl.
      by rewrite decide_False.
    + exists (changes ++ [timestamp e]), true. simpl.
      rewrite !list_lookup_insert_eq by done. split; [done|]. split; [done|].
      intros rest. rewrite filter_cons, decide_True by done. simpl.
      by rewrite decide_True.
    + exists changes, false. split; [done|]. split; [done|].
      intros rest. rewrite filter_cons, decide_True by done. simpl.
      by rewrite decide_False.
  - exists changes, have.
    assert (vipChanges data' !! s = Some changes ∧ haveVip' !! s = Some have) as [-> ->].
    { destruct h; destruct (decide _) as [Hev|Hev];
        try (injection Hrun as <- <-; done);
        (destruct (getitem (vipChanges data) (vip e)) as [c|]; [|done]);
        simpl in Hrun;
        (destruct (setitem (vipChanges data) (vip e) _) as [vc|] eqn:Evc; [|done]);
        simpl in Hrun;
        (destruct (setitem haveVip (vip e) _) as [hv|] eqn:Ehv; [|done]);
        simpl in Hrun; injection Hrun as <- <-;
        apply setitem_inv in Evc as [_ ->]; apply setitem_inv in Ehv as [_ ->];
        simpl; by rewrite !list_lookup_insert_ne. }
    split; [done|]. split; [done|].
    intros rest. by rewrite filter_cons, decide_False.
Qed.

Lemma processEntry_slot e data haveVip data' haveVip' s changes have :
  processEntry e data haveVip = Ok (data', haveVip') →
  vipChanges data !! s = Some changes → haveVip !! s = Some have →
  ∃ changes' have',
    vipChanges data' !! s = Some changes' ∧ haveVip' !! s = Some have'
    ∧ ∀ rest, slotReplay (filter (λ e, vip e = s) (e :: rest)) changes have
              = slotReplay (filter (λ e, vip e = s) rest) changes' have'.
Proof.
  unfold processEntry.
  destruct (vipEvent e data haveVip) as [[d1 h1]|] eqn:E1; [|done]. simpl.
  destruct (addressEvent e (healthEvent e d1)) as [d2|] eqn:E2; [|done]. simpl.
  intros [= <- <-] Hch Hhave.
  rewrite (vipChanges_addressEvent _ _ _ E2), vipChanges_healthEvent.
  by eapply vipEvent_slot.
Qed.

(** The replay of a node, seen from slot [s]: the state machine over the
    entries of the slot. *)
Lemma replay_slot es data haveVip data' haveVip' s changes have :
  replay es data haveVip = Ok (data', haveVip') →
  vipChanges data !! s = Some changes → haveVip !! s = Some have →
  vipChanges data' !! s
  = Some (slotReplay (filter (λ e, vip e = s) es) changes have).1.
Proof.
  revert data haveVip changes have.
  induction es as [|e es IH]; intros data haveVip changes have; simpl.
  - by intros [= <- <-] Hch _.
  - destruct (processEntry e data haveVip) as [[d1 h1]|] eqn:E1; [|done]. simpl.
    intros Hrest Hch Hhave.
    destruct (processEntry_slot _ _ _ _ _ _ _ _ E1 Hch Hhave)
      as (changes' & have' & Hch' & Hhave' & ->).
    by eapply IH.
Qed.

Lemma processNode_slot entries data s :
  processNode entries = Ok data → (s < 4)%nat →
  vipChanges data !! s
  = Some (slotReplay (filter (λ e, vip e = s) (sorted timestamp entries)) [] false).1.
Proof.
  unfold processNode.
  destruct (replay (sorted timestamp entries) newNodeData [false; false; false; false])
    as [[d h]|] eqn:E; [|done]. simpl.
  intros [= <-] Hs. apply (replay_slot _ _ _ _ _ _ _ _ E).
  - do 4 (destruct s as [|s]; [done|]). lia.
  - do 4 (destruct s as [|s]; [done|]). lia.
Qed.

(** A gain and a later loss are the two events of a slot, wherever they
    stand among the entries. *)
Lemma slotReplay_took_lost s entries e1 e2 :
  filter (slotEvent s) entries ≡ₚ [e1; e2] →
  entry_event e1 = tookVip → entry_event e2 = lostVip →
  timestamp e1 < timestamp e2 →
  slotReplay (filter (λ e, vip e = s) (sorted timestamp entries)) [] false
  = ([timestamp e1; timestamp e2], false).
Proof.
  intros Hp H1 H2 Hlt.
  rewrite slotReplay_slotEvent, filter_sorted.
  rewrite <-(sorted_perm_eq timestamp [e1; e2]).
  - simpl. destruct (Z.leb_spec (timestamp e1) (timestamp e2)); [|lia].
    simpl. rewrite decide_True by done. simpl. by rewrite decide_True.
  - done.
  - simpl. apply NoDup_cons. split; [|apply NoDup_singleton].
    intros Hin%list_elem_of_singleton. lia.
Qed.

(** C6: the boundaries of every slot of a node are those of the possession
    state machine of lines 248-254 run over the entries of that slot in
    the order of the sort of line 246, from no boundary and the slot not
    held.  So when the gains and losses of a slot are one gain at [T1] and
    one loss at [T2 > T1], in whatever files of the node and in whatever
    order these were read, the slot has the boundaries [[T1, T2]].
    Scenario A, the two lines in one file, gives
    [[00:00:00, 00:05:00]] for slot 0.  Scenario C, the gain at [T1] in one
    file of a node and the loss at [T2 > T1] in another that is read
    first, both timestamps of one kind, returns with [[T1, T2]] for
    slot 1. *)
Theorem take_then_lose :
  (∀ fromisoformat mg files self name entries data s,
     run fromisoformat mg files = Ok self →
     OD.get name (logEntries self) = Some entries →
     OD.get name (nodeData self) = Some data → (s < 4)%nat →
     vipChanges data !! s
     = Some (slotReplay (filter (λ e, vip e = s) (sorted timestamp entries)) [] false).1
     ∧ ∀ e1 e2,
         filter (slotEvent s) entries ≡ₚ [e1; e2] →
         entry_event e1 = tookVip → entry_event e2 = lostVip →
         timestamp e1 < timestamp e2 →
         vipChanges data !! s = Some [timestamp e1; timestamp e2])
  ∧ boundariesOf "master-0.log" (run_iso false [scenarioA])
    = Ok (Some [[t_2023_01_01; t_2023_01_01 + 300]; []; []; []])
  ∧ ∀ fromisoformat mg fTook fLost name l1 l2 T1 T2,
      nodeName mg fTook = Ok name → nodeName mg fLost = Ok name →
      lines fTook = [l1] → lines fLost = [l2] →
      getTime fromisoformat l1 = Ok T1 → getTime fromisoformat l2 = Ok T2 →
      getAware fromisoformat l1 = getAware fromisoformat l2 →
      lineEntries T1 l1 allFalse = [mkLogEntry T1 l1 tookVip 1] →
      lineEntries T2 l2 allFalse = [mkLogEntry T2 l2 lostVip 1] →
      T1 < T2 →
      boundariesOf name (run fromisoformat mg [fLost; fTook])
      = Ok (Some [[]; [T1; T2]; []; []]).
Proof.
  split; [|split; [by vm_compute|]].
  - intros fromisoformat mg files self name entries data s Hrun Hentries Hdata Hs.
    pose proof Hrun as (rs & nd & Hrs & _)%run_Ok.
    destruct (run_node _ _ _ _ _ name Hrun Hrs) as (_ & _ & Hle & Hnd).
    rewrite Hentries in Hle. rewrite Hdata in Hnd.
    destruct (decide (name ∈ rs.*1)); [|done]. injection Hle as ->.
    destruct (processNode (nodeEntries name rs)) as [data'|] eqn:Hnode; [|done].
    injection Hnd as ->.
    pose proof (processNode_slot _ _ s Hnode Hs) as Hslot.
    split; [done|]. intros e1 e2 Hp H1 H2 Hlt.
    by rewrite Hslot, (slotReplay_took_lost s _ e1 e2).
  - intros fromisoformat mg fTook fLost name l1 l2 T1 T2
      Hn1 Hn2 Hl1 Hl2 Ht1 Ht2 Hk He1 He2 Hlt.
    assert (resolveAll fromisoformat mg [fLost; fTook]
            = Ok [(name, [(T2, l2)]); (name, [(T1, l1)])]) as Hrs.
    { simpl. unfold resolve. rewrite Hn1, Hn2, Hl1, Hl2. simpl. by rewrite Ht1, Ht2. }
    assert (nodeEntries name [(name, [(T2, l2)]); (name, [(T1, l1)])]
            = [mkLogEntry T2 l2 lostVip 1; mkLogEntry T1 l1 tookVip 1]) as Hes.
    { unfold nodeEntries. simpl. rewrite !decide_True by done.
      by rewrite He1, He2. }
    destruct (run_Ok_intro fromisoformat mg [fLost; fTook] _ Hrs) as [self Hrun];
      [done| | |].
    { simpl. rewrite Hl1, Hl2. simpl. done. }
    { intros n Hin. assert (n = name) as ->.
      { simpl in Hin. apply elem_of_cons in Hin as [->|Hin]; [done|].
        apply elem_of_cons in Hin as [->|Hin]; [done|]. by apply elem_of_nil in Hin. }
      rewrite Hes, (processNode_lost_took T1 T2 l1 l2 1) by (done || lia). done. }
    destruct (run_node_data _ _ _ _ _ name Hrun Hrs) as (data & Hdata & Hget); [by left|].
    rewrite Hes, (processNode_lost_took T1 T2 l1 l2 1) in Hdata by (done || lia).
    injection Hdata as <-. unfold boundariesOf. rewrite Hrun. simpl. by rewrite Hget.
Qed.

Lemma take_then_lose_witness :
  (∃ self data,
     run_iso false [scenarioA] = Ok self
     ∧ OD.get "master-0.log" (nodeData self) = Some data
     ∧ vipChanges data !! 0%nat = Some [t_2023_01_01; t_2023_01_01 + 300])
  ∧ (∃ self data,
       run_iso true [currentBackup; rotatedMaster] = Ok self
       ∧ OD.get "keepalived-master-0" (nodeData self) = Some data
       ∧ vipChanges data !! 1%nat = Some [t_2023_01_01; t_2023_01_01 + 300])
  ∧ boundariesOf "keepalived-master-0" (run_iso true [currentBackup; rotatedMaster])
    = Ok (Some [[]; [t_2023_01_01; t_2023_01_01 + 300]; []; []]).
Proof.
  split; [|split].
  - destruct (run_iso false [scenarioA]) as [self|] eqn:E; [|by vm_compute in E].
    pose proof E as E'. vm_compute in E'. injection E' as E'.
    destruct (OD.get "master-0.log" (logEntries self)) as [entries|] eqn:Ee;
      [|rewrite <-E' in Ee; by vm_compute in Ee].
    destruct (OD.get "master-0.log" (nodeData self)) as [data|] eqn:Ed;
      [|rewrite <-E' in Ed; by vm_compute in Ed].
    exists self, data. split; [done|]. split; [done|].
    destruct (proj1 take_then_lose Iso.fromisoformat false [scenarioA] self
                "master-0.log" entries data 0%nat E Ee Ed) as [_ H]; [lia|].
    rewrite <-E' in Ee. vm_compute in Ee. injection Ee as Ee.
    refine (H (mkLogEntry t_2023_01_01 _ tookVip 0)
              (mkLogEntry (t_2023_01_01 + 300) _ lostVip 0) _ eq_refl eq_refl _);
      [rewrite <-Ee; vm_compute; reflexivity|simpl; lia].
  - destruct (run_iso true [currentBackup; rotatedMaster]) as [self|] eqn:E;
      [|by vm_compute in E].
    pose proof E as E'. vm_compute in E'. injection E' as E'.
    destruct (OD.get "keepalived-master-0" (logEntries self)) as [entries|] eqn:Ee;
      [|rewrite <-E' in Ee; by vm_compute in Ee].
    destruct (OD.get "keepalived-master-0" (nodeData self)) as [data|] eqn:Ed;
      [|rewrite <-E' in Ed; by vm_compute in Ed].
    exists self, data. split; [done|]. split; [done|].
    destruct (proj1 take_then_lose Iso.fromisoformat true [currentBackup; rotatedMaster]
                self "keepalived-master-0" entries data 1%nat E Ee Ed) as [_ H]; [lia|].
    rewrite <-E' in Ee. vm_compute in Ee. injection Ee as Ee.
    refine (H (mkLogEntry t_2023_01_01 _ tookVip 1)
              (mkLogEntry (t_2023_01_01 + 300) _ lostVip 1) _ eq_refl eq_refl _);
      [rewrite <-Ee; vm_compute; apply perm_swap|simpl; lia].
  - eapply (proj2 (proj2 take_then_lose) Iso.fromisoformat true rotatedMaster currentBackup);
      [by vm_compute..|lia].
Defined.

(** ** The order in which the files are read *)

Lemma concat_perm {A : Type} (ls ls' : list (list A)) :
  ls ≡ₚ ls' → concat ls ≡ₚ concat ls'.
Proof.
  induction 1 as [|l ls ls' _ IH|l1 l2 ls|ls1 ls2 ls3 _ IH1 _ IH2]; simpl.
  - done.
  - by rewrite IH.
  - rewrite !(assoc_L (++)). by rewrite (comm (++) l1 l2).
  - by etrans.
Qed.

Lemma nodeEntries_perm name rs rs' :
  rs ≡ₚ rs' → nodeEntries name rs ≡ₚ nodeEntries name rs'.
Proof. intros Hp. unfold nodeEntries. by apply concat_perm, Permutation_map. Qed.

Lemma allLines_perm rs rs' : rs ≡ₚ rs' → allLines rs ≡ₚ allLines rs'.
Proof. intros Hp. unfold allLines. apply concat_perm. by rewrite Hp. Qed.

(** A node is processed through its sorted entries only. *)
Lemma processNode_sorted entries entries' :
  sorted timestamp entries = sorted timestamp entries' →
  processNode entries = processNode entries'.
Proof. intros H. unfold processNode. by rewrite H. Qed.

(** The order in which [parseLogs] is given the files shows in the labels:
    with the two logs of a pod read in the other order, which is not the
    sorted one, the label of the API VIP is the other address. *)
Example read_order_labels :
  (vips <$> run_iso true [currentArp; rotatedArp]) = Ok ["192.168.111.9"; ""; ""; ""]
  ∧ (vips <$> run_iso true [rotatedArp; currentArp]) = Ok ["192.168.111.5"; ""; ""; ""].
Proof. by vm_compute. Qed.

(** What [parseLogs] and [processEntries] make of the order of the files
    they are given: when no two entries of a node share a timestamp, a run
    over the same files in another order returns as well, with the same
    time bounds and the same record for every node.  The labels are those
    of the lines read last in the order given. *)
Theorem scan_order_node_records fromisoformat mg files files' self :
  files ≡ₚ files' →
  run fromisoformat mg files = Ok self →
  (∀ name entries, OD.get name (logEntries self) = Some entries →
                   NoDup (timestamp <$> entries)) →
  ∃ self', run fromisoformat mg files' = Ok self'
           ∧ timeBounds self' = timeBounds self
           ∧ (∀ name, OD.get name (nodeData self') = OD.get name (nodeData self))
           ∧ vips self' = foldl lineVips [""; ""; ""; ""] (concat (lines <$> files')).
Proof.
  intros Hp Hrun Hties.
  pose proof Hrun as (rs & nd & Hrs & Hne & _ & _ & Hone)%run_Ok.
  apply sameKind_oneKind, (sameKind_perm _ _ _ Hp), sameKind_oneKind in Hone.
  destruct (resolveAll_perm _ _ _ _ _ Hp Hrs) as (rs' & Hrs' & Hprs).
  assert (∀ name, name ∈ rs.*1 ↔ name ∈ rs'.*1) as Hnames.
  { intros name. by rewrite Hprs. }
  assert (∀ name, name ∈ rs.*1 →
            processNode (nodeEntries name rs') = processNode (nodeEntries name rs)) as Hnode.
  { intros name Hin. apply processNode_sorted. symmetry.
    apply sorted_perm_eq; [by apply nodeEntries_perm|].
    apply Hties with name.
    destruct (run_node _ _ _ _ _ name Hrun Hrs) as (_ & _ & -> & _).
    by rewrite decide_True. }
  destruct (run_Ok_intro fromisoformat mg files' rs' Hrs') as [self' Hrun'].
  { intros ->. apply Permutation_nil_r in Hp. done. }
  { done. }
  { intros name Hin%Hnames. rewrite Hnode by done.
    destruct (run_node_data _ _ _ _ _ name Hrun Hrs Hin) as (data & -> & _). done. }
  exists self'. split; [done|].
  destruct (run_node _ _ _ _ _ "" Hrun Hrs) as (Htb & _).
  destruct (run_node _ _ _ _ _ "" Hrun' Hrs') as (Htb' & Hv' & _).
  split; [|split].
  - rewrite Htb, Htb'.
    apply (isBounds_perm _ _ ((allLines rs').*1) ((allLines rs).*1));
      [apply boundsOf_isBounds..|].
    by rewrite (allLines_perm _ _ Hprs).
  - intros name.
    destruct (run_node _ _ _ _ _ name Hrun Hrs) as (_ & _ & _ & ->).
    destruct (run_node _ _ _ _ _ name Hrun' Hrs') as (_ & _ & _ & ->).
    destruct (decide (name ∈ rs.*1)) as [Hin|Hnin].
    + rewrite decide_True by by apply Hnames. by rewrite Hnode.
    + rewrite decide_False; [done|]. by rewrite <-Hnames.
  - by rewrite Hv', (allLines_lines _ _ _ _ Hrs').
Qed.

Lemma scan_order_node_records_witness :
  ∃ self self',
    run_iso true [currentArp; rotatedArp] = Ok self
    ∧ run_iso true [rotatedArp; currentArp] = Ok self'
    ∧ timeBounds self' = timeBounds self
    ∧ (∀ name, OD.get name (nodeData self') = OD.get name (nodeData self)).
Proof.
  destruct (run_iso true [currentArp; rotatedArp]) as [self|] eqn:E;
    [|by vm_compute in E].
  destruct (scan_order_node_records Iso.fromisoformat true
              [currentArp; rotatedArp] [rotatedArp; currentArp] self)
    as (self' & Hrun' & Htb & Hnd & _); [apply perm_swap|done| |].
  - pose proof E as E'. vm_compute in E'. injection E' as E'. rewrite <-E'.
    intros name entries Hg%get_elem_of. apply list_elem_of_singleton in Hg.
    injection Hg as _ ->. apply (bool_decide_unpack _). by vm_compute.
  - by exists self, self'.
Defined.

(** ** The sort of [findLogs] *)

Section SortedLtFacts.
Context {A : Type} (lt : A → A → bool).

(** [x] may stand before [y]. *)
Definition not_after (x y : A) : Prop := lt y x = false.

Hypothesis lt_asym : ∀ x y, lt x y = true → lt y x = false.
Hypothesis not_after_trans : ∀ x y z, not_after x y → not_after y z → not_after x z.

Lemma insert_lt_perm (x : A) (l : list A) : insert_lt lt x l ≡ₚ x :: l.
Proof.
  induction l as [|y l IH]; simpl; [done|].
  destruct (lt y x); [|done]. rewrite IH. apply perm_swap.
Qed.

Lemma sorted_lt_perm (l : list A) : sorted_lt lt l ≡ₚ l.
Proof.
  induction l as [|x l IH]; simpl; [done|]. by rewrite insert_lt_perm, IH.
Qed.

Lemma insert_lt_Sorted (x : A) (l : list A) :
  Sorted not_after l → Sorted not_after (insert_lt lt x l).
Proof.
  induction 1 as [|y l Hl IH Hy]; simpl.
  - repeat constructor.
  - destruct (lt y x) eqn:Hyx.
    + constructor; [done|]. destruct Hy as [|z l Hz]; simpl.
      * constructor. by apply lt_asym.
      * destruct (lt z x); constructor; [done|]. by apply lt_asym.
    + repeat constructor; done.
Qed.

Lemma sorted_lt_Sorted (l : list A) : Sorted not_after (sorted_lt lt l).
Proof.
  induction l as [|x l IH]; simpl; [constructor|]. by apply insert_lt_Sorted.
Qed.

End SortedLtFacts.

Module PyPathFacts.
Import OrdersEx.

Ltac order_absurd :=
  exfalso; unfold String_as_OT.eq in *; subst;
  match goal with
  | H : String_as_OT.lt ?a ?a |- _ =>
      exact (irreflexivity String_as_OT.lt a H)
  | H1 : String_as_OT.lt ?a ?b, H2 : String_as_OT.lt ?b ?a |- _ =>
      exact (irreflexivity String_as_OT.lt a (transitivity H1 H2))
  end.

Lemma part_compare_refl a : String_as_OT.compare a a = Eq.
Proof. destruct (String_as_OT.compare_spec a a); [done|order_absurd..]. Qed.

Lemma part_compare_antisym a b :
  String_as_OT.compare b a = CompOpp (String_as_OT.compare a b).
Proof.
  destruct (String_as_OT.compare_spec a b), (String_as_OT.compare_spec b a);
    simpl; try done; order_absurd.
Qed.

Lemma part_compare_trans a b c :
  String_as_OT.compare a b = Lt → String_as_OT.compare b c = Lt →
  String_as_OT.compare a c = Lt.
Proof.
  destruct (String_as_OT.compare_spec a b); [done| |done].
  destruct (String_as_OT.compare_spec b c); [done| |done]. intros _ _.
  assert (String_as_OT.lt a c) as Hac by (by etrans).
  destruct (String_as_OT.compare_spec a c); [order_absurd|done|order_absurd].
Qed.

Lemma compare_eq p q : PyPath.compare p q = Eq → p = q.
Proof.
  revert q. induction p as [|a p IH]; intros [|b q]; simpl; try done.
  destruct (String_as_OT.compare_spec a b) as [Hab| |]; [|done..].
  intros Hpq. unfold String_as_OT.eq in Hab. subst. f_equal. by apply IH.
Qed.

Lemma compare_antisym p q : PyPath.compare q p = CompOpp (PyPath.compare p q).
Proof.
  revert q. induction p as [|a p IH]; intros [|b q]; simpl; try done.
  rewrite (part_compare_antisym a b).
  destruct (String_as_OT.compare a b); simpl; [apply IH|done..].
Qed.

Lemma compare_trans p q r :
  PyPath.compare p q = Lt → PyPath.compare q r = Lt → PyPath.compare p r = Lt.
Proof.
  revert q r. induction p as [|a p IH]; intros [|b q] [|c r]; simpl; try done.
  destruct (String_as_OT.compare a b) eqn:Hab; [|intros _|done].
  - destruct (String_as_OT.compare_spec a b) as [Heq| |]; [|done..].
    unfold String_as_OT.eq in Heq. subst.
    destruct (String_as_OT.compare b c); [apply IH|done..].
  - destruct (String_as_OT.compare b c) eqn:Hbc; [|intros _|done].
    + destruct (String_as_OT.compare_spec b c) as [Heq| |]; [|done..].
      unfold String_as_OT.eq in Heq. subst. by rewrite Hab.
    + by rewrite (part_compare_trans a b c).
Qed.

Lemma lt_asym p q : PyPath.lt p q = true → PyPath.lt q p = false.
Proof.
  unfold PyPath.lt. rewrite (compare_antisym p q). by destruct (PyPath.compare p q).
Qed.

Lemma not_after_iff p q : not_after PyPath.lt p q ↔ PyPath.compare p q ≠ Gt.
Proof.
  unfold not_after, PyPath.lt. rewrite (compare_antisym p q).
  by destruct (PyPath.compare p q).
Qed.

Lemma not_after_trans p q r :
  not_after PyPath.lt p q → not_after PyPath.lt q r → not_after PyPath.lt p r.
Proof.
  rewrite !not_after_iff. intros Hpq Hqr.
  destruct (PyPath.compare p q) eqn:E1; [|clear Hpq|done].
  - apply compare_eq in E1 as ->. done.
  - destruct (PyPath.compare q r) eqn:E2; [|clear Hqr|done].
    + apply compare_eq in E2 as ->. by rewrite E1.
    + by rewrite (compare_trans p q r).
Qed.


End PyPathFacts.



(** With the paths sorted, the current log of a pod is read before its
    rotated logs. *)
Example findLogs_sorted_pod :
  findLogs_sorted [rotatedArp; currentArp] = [currentArp; rotatedArp].
Proof. by vm_compute. Qed.

(** * The rest of [processEntries]: health events and addresses *)

Lemma addressEvent_addressOf e data :
  addressEvent e data
  = if decide (entry_event e = nodeAddress) then
      a ← addressOf (line e);
      Ok (mkNodeData (vipChanges data) (events data) ({[a]} ∪ addrs data))
    else Ok data.
Proof.
  unfold addressEvent, addressOf. case_decide; [|done].
  by destruct (index "address" (PyStr.split (line e))).
Qed.

Lemma vipEvent_Ok e data haveVip :
  (vip e < 4)%nat → length haveVip = 4%nat → length (vipChanges data) = 4%nat →
  ∃ data' haveVip',
    vipEvent e data haveVip = Ok (data', haveVip')
    ∧ length haveVip' = 4%nat ∧ length (vipChanges data') = 4%nat
    ∧ events data' = events data ∧ addrs data' = addrs data.
Proof.
  intros Hv Hh Hc. unfold vipEvent.
  destruct (haveVip !! vip e) as [have|] eqn:Eh; [|apply lookup_ge_None in Eh; lia].
  destruct (vipChanges data !! vip e) as [changes|] eqn:Ec;
    [|apply lookup_ge_None in Ec; lia].
  unfold getitem. rewrite Eh, Ec. simpl. rewrite !setitem_Ok by lia. simpl.
  destruct have; case_decide; eexists _, _; (split; [done|]);
    simpl; rewrite ?length_insert; done.
Qed.

Lemma vipEvent_Raise e data haveVip :
  length haveVip = 4%nat → ¬ (vip e < 4)%nat → vipEvent e data haveVip = Raise IndexError.
Proof.
  intros Hh Hv. unfold vipEvent, getitem.
  destruct (haveVip !! vip e) eqn:Eh; [|done].
  apply lookup_lt_Some in Eh. lia.
Qed.

(** One entry: what is appended to the events and added to the addresses. *)
Lemma processEntry_spec e data haveVip data' haveVip' :
  length haveVip = 4%nat → length (vipChanges data) = 4%nat →
  processEntry e data haveVip = Ok (data', haveVip') →
  processable e
  ∧ length haveVip' = 4%nat ∧ length (vipChanges data') = 4%nat
  ∧ events data' = events data ++ (if isHealthEvent e then [e] else [])
  ∧ addrs data' = addrs data ∪ list_to_set (option_list (addressToken e)).
Proof.
  intros Hh Hc. unfold processEntry.
  destruct (decide (vip e < 4)%nat) as [Hv|Hv];
    [|by rewrite vipEvent_Raise].
  destruct (vipEvent_Ok e data haveVip Hv Hh Hc)
    as (d1 & h1 & -> & Hh1 & Hc1 & He1 & Ha1).
  simpl. rewrite addressEvent_addressOf. unfold processable, addressToken, isHealthEvent.
  assert (vipChanges (healthEvent e d1) = vipChanges d1) as Hvc
    by apply vipChanges_healthEvent.
  assert (addrs (healthEvent e d1) = addrs d1) as Hah.
  { unfold healthEvent. destruct (bool_decide _); simpl; by destruct (decide _). }
  assert (events (healthEvent e d1)
          = events d1 ++ (if isHealthEvent e then [e] else [])) as Heh.
  { unfold healthEvent, isHealthEvent.
    destruct (entry_event e); simpl; by rewrite ?app_nil_r. }
  destruct (decide (entry_event e = nodeAddress)) as [Hev|Hev].
  - destruct (addressOf (line e)) as [a|err] eqn:Ea; simpl; [|done].
    intros [= <- <-]. simpl. split; [done|]. split; [done|].
    split; [by rewrite Hvc|]. split; [by rewrite Heh, He1|].
    rewrite Hah, Ha1. set_solver.
  - intros [= <- <-]. split; [done|]. split; [done|].
    split; [by rewrite Hvc|]. split; [by rewrite Heh, He1|].
    rewrite Hah, Ha1. set_solver.
Qed.

Lemma processEntry_Ok e data haveVip :
  length haveVip = 4%nat → length (vipChanges data) = 4%nat → processable e →
  ∃ data' haveVip', processEntry e data haveVip = Ok (data', haveVip').
Proof.
  intros Hh Hc [Hv Ha]. unfold processEntry.
  destruct (vipEvent_Ok e data haveVip Hv Hh Hc) as (d1 & h1 & -> & _).
  simpl. rewrite addressEvent_addressOf. case_decide.
  - destruct (addressOf (line e)); [by eexists _, _|]. by specialize (Ha ltac:(done)).
  - by eexists _, _.
Qed.

(** A sequence of entries. *)
Lemma replay_spec es data haveVip data' haveVip' :
  length haveVip = 4%nat → length (vipChanges data) = 4%nat →
  replay es data haveVip = Ok (data', haveVip') →
  Forall processable es
  ∧ events data' = events data ++ filter (λ e, isHealthEvent e = true) es
  ∧ addrs data' = addrs data ∪ list_to_set (omap addressToken es).
Proof.
  revert data haveVip. induction es as [|e es IH]; intros data haveVip Hh Hc; simpl.
  - intros [= <- <-]. split; [done|]. rewrite app_nil_r. split; [done|]. set_solver.
  - destruct (processEntry e data haveVip) as [[d1 h1]|] eqn:E1; [|done]. simpl.
    intros Hrest.
    apply processEntry_spec in E1 as (Hp & Hh1 & Hc1 & He1 & Ha1); [|done..].
    destruct (IH _ _ Hh1 Hc1 Hrest) as (Hps & He & Ha).
    split; [by constructor|]. split.
    + rewrite He, He1, <-app_assoc. f_equal. rewrite filter_cons.
      destruct (isHealthEvent e); [by rewrite decide_True|by rewrite decide_False].
    + rewrite Ha, Ha1. destruct (addressToken e); simpl; set_solver.
Qed.

Lemma replay_Ok es data haveVip :
  length haveVip = 4%nat → length (vipChanges data) = 4%nat → Forall processable es →
  ∃ data' haveVip', replay es data haveVip = Ok (data', haveVip').
Proof.
  revert data haveVip. induction es as [|e es IH]; intros data haveVip Hh Hc Hes; simpl.
  - by eexists _, _.
  - apply Forall_cons in Hes as [He Hes].
    destruct (processEntry_Ok e data haveVip Hh Hc He) as (d1 & h1 & E1).
    rewrite E1. simpl.
    apply processEntry_spec in E1 as (_ & Hh1 & Hc1 & _); [|done..].
    by apply IH.
Qed.

(** A node: it is processed exactly when all its entries can be, and then
    its events are its health and reload entries in the order of the sort,
    its addresses those of its node address entries. *)
Lemma processNode_spec entries data :
  processNode entries = Ok data →
  Forall processable entries
  ∧ events data = filter (λ e, isHealthEvent e = true) (sorted timestamp entries)
  ∧ addrs data = list_to_set (omap addressToken entries).
Proof.
  unfold processNode.
  destruct (replay (sorted timestamp entries) newNodeData [false; false; false; false])
    as [[d h]|] eqn:E; [|done]. simpl. intros [= <-].
  apply replay_spec in E as (Hp & He & Ha); [|done..].
  split; [by rewrite <-(sorted_perm timestamp entries)|]. split; [done|].
  rewrite Ha. simpl. apply set_eq. intros a.
  rewrite elem_of_union, !elem_of_list_to_set, !list_elem_of_omap.
  setoid_rewrite (sorted_perm timestamp entries). set_solver.
Qed.

Lemma processNode_Ok entries :
  Forall processable entries → ∃ data, processNode entries = Ok data.
Proof.
  intros Hp. unfold processNode.
  destruct (replay_Ok (sorted timestamp entries) newNodeData [false; false; false; false])
    as (d & h & ->); [done..| |by eexists].
  by rewrite (sorted_perm timestamp entries).
Qed.

(** ** The entries of a node, line by line *)

Lemma lineEntries_elem e ts l g :
  e ∈ lineEntries ts l g →
  timestamp e = ts ∧ line e = l ∧ (vip e < 4)%nat ∧ recognized l = true
  ∧ (entry_event e = nodeAddress → PyStr.contains "Assigned address" l = true).
Proof.
  pose proof (lineSlot_lt l) as Hslot.
  unfold lineEntries, scriptEntries, arpEntries, masterEntries, backupEntries,
    reloadEntries, addressEntries, recognized, isMasterLine.
  rewrite !elem_of_app.
  destruct (PyStr.contains "VRRP_Script" l && (PyStr.contains "succeeded" l
            || PyStr.contains "failed" l)) eqn:E1,
    (isArpLine l) eqn:E2, (PyStr.contains "Entering MASTER STATE" l) eqn:E3,
    (PyStr.contains "Entering BACKUP STATE" l) eqn:E4,
    (PyStr.contains "Reloading ..." l) eqn:E5,
    (PyStr.contains "Assigned address" l) eqn:E6; simpl;
    destruct (negb (default true (g !! lineSlot l))); simpl;
    rewrite ?list_elem_of_singleton, ?elem_of_nil;
    intros H; repeat (destruct H as [H|H]); try done; subst e; simpl;
    repeat split; try done;
    try (destruct (PyStr.contains "chk_ocp" l); lia);
    try (destruct (PyStr.contains "succeeded" l); done); lia.
Qed.

Lemma lineEntries_address ts l g :
  PyStr.contains "Assigned address" l = true →
  mkLogEntry ts l nodeAddress 0 ∈ lineEntries ts l g.
Proof.
  intros H. unfold lineEntries, addressEntries. rewrite H, !elem_of_app.
  do 5 right. by left.
Qed.

Lemma linesEntries_elem e tls g :
  e ∈ linesEntries tls g → ∃ ts l g', (ts, l) ∈ tls ∧ e ∈ lineEntries ts l g'.
Proof.
  revert g. induction tls as [|[ts l] tls IH]; intros g; simpl.
  - by intros ?%elem_of_nil.
  - intros [H|H]%elem_of_app.
    + exists ts, l, g. split; [by left|done].
    + destruct (IH _ H) as (ts' & l' & g' & Hin & He).
      exists ts', l', g'. split; [by right|done].
Qed.

Lemma linesEntries_line ts l tls g :
  (ts, l) ∈ tls → ∃ g', lineEntries ts l g' ⊆ linesEntries tls g.
Proof.
  revert g. induction tls as [|[ts' l'] tls IH]; intros g; simpl.
  - by intros ?%elem_of_nil.
  - intros [[= -> ->]|H]%elem_of_cons.
    + exists g. intros e He. apply elem_of_app. by left.
    + destruct (IH (lineFlags g l') H) as [g' Hg']. exists g'.
      intros e He. apply elem_of_app. right. by apply Hg'.
Qed.

Lemma nodeEntries_elem e name rs :
  e ∈ nodeEntries name rs ↔ ∃ r, r ∈ rs ∧ r.1 = name ∧ e ∈ linesEntries r.2 allFalse.
Proof.
  unfold nodeEntries. induction rs as [|r rs IH]; simpl.
  - split; [by intros ?%elem_of_nil|by intros (r & ?%elem_of_nil & _)].
  - rewrite elem_of_app, IH. split.
    + intros [H|(r' & Hr' & Hn & He)].
      * case_decide; [|by apply elem_of_nil in H]. exists r. split; [by left|done].
      * exists r'. split; [by right|done].
    + intros (r' & [->|Hr']%elem_of_cons & Hn & He).
      * left. by rewrite decide_True.
      * right. by exists r'.
Qed.

Section EntryFacts.
Variable fromisoformat : string → option datetime.

(** Where an entry of a node comes from. *)
Lemma nodeEntries_origin mg files rs name e :
  resolveAll fromisoformat mg files = Ok rs → e ∈ nodeEntries name rs →
  ∃ f, f ∈ files ∧ nodeName mg f = Ok name ∧ line e ∈ lines f
       ∧ getTime fromisoformat (line e) = Ok (timestamp e)
       ∧ (timestamp e, line e) ∈ allLines rs
       ∧ (vip e < 4)%nat ∧ recognized (line e) = true
       ∧ (entry_event e = nodeAddress → PyStr.contains "Assigned address" (line e) = true).
Proof.
  intros Hrs (r & Hr & <- & He)%nodeEntries_elem.
  apply linesEntries_elem in He as (ts & l & g' & Hin & He).
  apply lineEntries_elem in He as (<- & <- & Hv & Hrec & Haddr).
  destruct (resolveAll_elem_of _ _ _ _ _ Hrs Hr) as (f & Hf & Hn & Hst).
  apply (stampLines_times _ _ _ _ _ Hst) in Hin as Hin'. destruct Hin' as [Hl Hts].
  exists f. repeat split; try done.
  unfold allLines. apply list_elem_of_In, in_concat. exists r.2.
  split; apply list_elem_of_In; [by apply list_elem_of_fmap_2|done].
Qed.

(** The node address entry of a line with [Assigned address]. *)
Lemma nodeEntries_address mg files rs f l :
  resolveAll fromisoformat mg files = Ok rs → f ∈ files → l ∈ lines f →
  PyStr.contains "Assigned address" l = true →
  ∃ name ts, nodeName mg f = Ok name ∧ name ∈ rs.*1
             ∧ getTime fromisoformat l = Ok ts
             ∧ mkLogEntry ts l nodeAddress 0 ∈ nodeEntries name rs.
Proof.
  intros Hrs Hf Hl Hc.
  destruct (resolveAll_file _ _ _ _ _ Hrs Hf) as (r & Hr & Hn & Hst).
  pose proof (stampLines_lines _ _ _ Hst) as Hlines. rewrite <-Hlines in Hl.
  apply list_elem_of_fmap in Hl as ([ts l'] & -> & Hin). simpl in *.
  exists r.1, ts. split; [done|]. split; [by apply list_elem_of_fmap_2|].
  split; [by apply (stampLines_times _ _ _ ts l' Hst)|].
  apply nodeEntries_elem. exists r. split; [done|]. split; [done|].
  destruct (linesEntries_line ts l' r.2 allFalse Hin) as [g' Hg'].
  by apply Hg', lineEntries_address.
Qed.

End EntryFacts.

(** ** When a run returns *)

(** A run returns exactly when there is a file, every file has its node
    name, every line its timestamp, the timestamps are all offset-naive or
    all offset-aware, and every line with [Assigned address] has a token
    after its first token [address].  With timestamps of both kinds the
    comparison of line 188 or 190 raises [TypeError]. *)
Theorem run_returns_iff fromisoformat mg files :
  is_ok (run fromisoformat mg files) = true ↔
  files ≠ []
  ∧ (∀ f, f ∈ files →
       is_ok (nodeName mg f) = true
       ∧ ∀ l, l ∈ lines f →
           is_ok (getTime fromisoformat l) = true
           ∧ (PyStr.contains "Assigned address" l = true → is_ok (addressOf l) = true))
  ∧ sameKind fromisoformat files.
Proof.
  split.
  - destruct (run fromisoformat mg files) as [self|] eqn:Hrun; [|done]. intros _.
    pose proof Hrun as (rs & nd & Hrs & Hne & _ & _ & Hone)%run_Ok.
    split; [done|]. split; [|by apply sameKind_oneKind]. intros f Hf.
    destruct (resolveAll_file _ _ _ _ _ Hrs Hf) as (r & Hr & Hn & Hst).
    split; [by rewrite Hn|]. intros l Hl.
    destruct (resolveAll_getTime _ _ _ _ _ l Hrs Hf Hl) as [ts Hts].
    split; [by rewrite Hts|]. intros Hc.
    destruct (nodeEntries_address _ _ _ _ _ _ Hrs Hf Hl Hc)
      as (name & ts' & _ & Hin & _ & He).
    destruct (run_node_data _ _ _ _ _ name Hrun Hrs Hin) as (data & Hdata & _).
    apply processNode_spec in Hdata as (Hp & _).
    rewrite Forall_forall in Hp. by apply (Hp _ He).
  - intros (Hne & Hfiles & Hkind).
    destruct (resolveAll_Ok fromisoformat mg files) as [rs Hrs].
    { intros f Hf. destruct (Hfiles f Hf) as [Hn Hl]. split; [done|].
      intros l Hin. by apply Hl. }
    destruct (run_Ok_intro fromisoformat mg files rs Hrs Hne) as [self ->];
      [by apply sameKind_oneKind| |done].
    intros name _.
    destruct (processNode_Ok (nodeEntries name rs)) as [data ->]; [|done].
    apply Forall_forall. intros e He.
    destruct (nodeEntries_origin _ _ _ _ _ _ Hrs He)
      as (f & Hf & _ & Hl & _ & _ & Hv & _ & Haddr).
    split; [done|]. intros Hev.
    destruct (Hfiles f Hf) as [_ Hlines]. destruct (Hlines _ Hl) as [_ Hok].
    by apply Hok, Haddr.
Qed.

(** An offset-naive timestamp followed by an offset-aware one, in one file
    or in two: [TypeError] at the comparison of line 188. *)
Example run_mixed_TypeError :
  run_iso false [mkLogFile ["node1.log"]
                   [eol "2023-01-01T00:00:00 Keepalived_vrrp[9]: Entering MASTER STATE";
                    eol "2023-01-01T00:05:00+00:00 Keepalived_vrrp[9]: Entering BACKUP STATE"]]
  = Raise TypeError
  ∧ run_iso false [mkLogFile ["node1.log"]
                     [eol "2023-01-01T00:00:00+00:00 Keepalived_vrrp[9]: Entering MASTER STATE"];
                   mkLogFile ["node2.log"]
                     [eol "2023-01-01T00:05:00 Keepalived_vrrp[9]: Entering BACKUP STATE"]]
    = Raise TypeError.
Proof. by vm_compute. Qed.

(** Offset-aware timestamps are compared as instants. *)
Example run_aware_bounds :
  timeBounds <$> run_iso false
    [mkLogFile ["node1.log"]
       [eol "2023-01-01T01:00:00+01:00 Keepalived_vrrp[9]: Entering MASTER STATE";
        eol "2023-01-01T00:05:00+00:00 Keepalived_vrrp[9]: Entering BACKUP STATE"]]
  = Ok (Some t_2023_01_01, Some (t_2023_01_01 + 300)).
Proof. by vm_compute. Qed.

(** A line that says [Assigned addresses] has no token [address]: the run
    raises [ValueError] in [processEntries]. *)
Example run_address_ValueError :
  run_iso false [mkLogFile ["node1.log"]
                   [eol "2023-01-01T00:00:00 Keepalived_vrrp[9]: Assigned addresses"]]
  = Raise ValueError.
Proof. by vm_compute. Qed.

(** A line that ends with [address]: [IndexError]. *)
Example run_address_IndexError :
  run_iso false [mkLogFile ["node1.log"]
                   [eol "2023-01-01T00:00:00 Keepalived_vrrp[9]: Assigned address"]]
  = Raise IndexError.
Proof. by vm_compute. Qed.

(** ** Health events and addresses of a run *)

(** The events of a node are its health check and reload entries, and no
    others, in the order of the stable sort by timestamp; their timestamps
    do not decrease. *)
Theorem node_events_chronological fromisoformat mg files self name entries data :
  run fromisoformat mg files = Ok self →
  OD.get name (logEntries self) = Some entries →
  OD.get name (nodeData self) = Some data →
  events data = filter (λ e, isHealthEvent e = true) (sorted timestamp entries)
  ∧ Sorted Z.le (timestamp <$> events data)
  ∧ ∀ e, e ∈ events data ↔
         e ∈ entries ∧ (entry_event e = scriptSucceeded ∨ entry_event e = scriptFailed
                        ∨ entry_event e = reloading).
Proof.
  intros Hrun Hle Hnd.
  pose proof Hrun as (rs & nd & Hrs & _)%run_Ok.
  destruct (run_node _ _ _ _ _ name Hrun Hrs) as (_ & _ & Hle' & Hnd').
  rewrite Hle in Hle'. rewrite Hnd in Hnd'.
  destruct (decide (name ∈ rs.*1)) as [Hin|]; [|done]. injection Hle' as ->.
  destruct (processNode (nodeEntries name rs)) as [d|] eqn:Hnode; [|done].
  injection Hnd' as ->.
  apply processNode_spec in Hnode as (_ & He & _).
  split; [done|]. split.
  - rewrite He. apply sorted_timestamps with (nodeEntries name rs).
    apply sublist_filter.
  - intros e. rewrite He, list_elem_of_filter, (sorted_perm timestamp (nodeEntries name rs)).
    unfold isHealthEvent. destruct (entry_event e); simpl; naive_solver.
Qed.

Lemma node_events_chronological_witness :
  ∃ self entries data,
    run_iso false [checksFile] = Ok self
    ∧ OD.get "master-0.log" (logEntries self) = Some entries
    ∧ OD.get "master-0.log" (nodeData self) = Some data
    ∧ events data = filter (λ e, isHealthEvent e = true) (sorted timestamp entries)
    ∧ Sorted Z.le (timestamp <$> events data)
    ∧ entry_event <$> events data = [scriptFailed; scriptSucceeded; reloading]
    ∧ timestamp <$> events data
      = [t_2023_01_01 + 10; t_2023_01_01 + 10; t_2023_01_01 + 70].
Proof.
  destruct (run_iso false [checksFile]) as [self|] eqn:E; [|by vm_compute in E].
  pose proof E as E'. vm_compute in E'. injection E' as E'.
  destruct (OD.get "master-0.log" (logEntries self)) as [entries|] eqn:E1;
    [|rewrite <-E' in E1; by vm_compute in E1].
  destruct (OD.get "master-0.log" (nodeData self)) as [data|] eqn:E2;
    [|rewrite <-E' in E2; by vm_compute in E2].
  exists self, entries, data. split; [done|]. split; [done|]. split; [done|].
  destruct (node_events_chronological Iso.fromisoformat false [checksFile] self
              "master-0.log" entries data E E1 E2) as (Hev & Hsorted & _).
  split; [done|]. split; [done|].
  rewrite <-E' in E2. vm_compute in E2. injection E2 as <-.
  split; by vm_compute.
Defined.

(** The addresses of a node are the tokens after [address] of the lines
    with [Assigned address] in the files of the node; a line repeated adds
    its address once, [addrs] being a set. *)
Theorem node_addrs fromisoformat mg files self name data a :
  run fromisoformat mg files = Ok self →
  OD.get name (nodeData self) = Some data →
  a ∈ addrs data ↔
  ∃ f l, f ∈ files ∧ nodeName mg f = Ok name ∧ l ∈ lines f
         ∧ PyStr.contains "Assigned address" l = true ∧ addressOf l = Ok a.
Proof.
  intros Hrun Hnd.
  pose proof Hrun as (rs & nd & Hrs & _)%run_Ok.
  destruct (run_node _ _ _ _ _ name Hrun Hrs) as (_ & _ & _ & Hnd').
  rewrite Hnd in Hnd'. destruct (decide (name ∈ rs.*1)) as [Hin|]; [|done].
  destruct (processNode (nodeEntries name rs)) as [d|] eqn:Hnode; [|done].
  injection Hnd' as ->.
  apply processNode_spec in Hnode as (_ & _ & ->).
  rewrite elem_of_list_to_set, list_elem_of_omap. split.
  - intros (e & He & Ha). unfold addressToken in Ha.
    destruct (decide (entry_event e = nodeAddress)) as [Hev|]; [|done].
    destruct (addressOf (line e)) as [a'|] eqn:Eaddr; [|done]. injection Ha as ->.
    destruct (nodeEntries_origin _ _ _ _ _ _ Hrs He)
      as (f & Hf & Hn & Hl & _ & _ & _ & _ & Haddr).
    exists f, (line e). repeat split; try done. by apply Haddr.
  - intros (f & l & Hf & Hn & Hl & Hc & Ha).
    destruct (nodeEntries_address _ _ _ _ _ _ Hrs Hf Hl Hc)
      as (name' & ts & Hn' & _ & _ & He).
    assert (name' = name) as -> by congruence.
    exists (mkLogEntry ts l nodeAddress 0). split; [done|].
    unfold addressToken. simpl. by rewrite Ha.
Qed.

(** Scenario D of the specification: the address, once. *)
Example node_addrs_twice :
  (λ self, (addrs <$> OD.get "node1.log" (nodeData self)))
    <$> run_iso false
          [mkLogFile ["node1.log"]
             [eol "2023-01-01T00:00:00 Keepalived_vrrp[9]: Assigned address 10.0.0.5 for interface br-ex";
              eol "2023-01-01T00:00:07 Keepalived_vrrp[9]: Assigned address 10.0.0.5 for interface br-ex"]]
  = Ok (Some {["10.0.0.5"]}).
Proof. by vm_compute. Qed.

Lemma node_addrs_witness :
  ∃ self data,
    run_iso false
      [mkLogFile ["node1.log"]
         [eol "2023-01-01T00:00:00 Keepalived_vrrp[9]: Assigned address 10.0.0.5 for interface br-ex"]]
    = Ok self
    ∧ OD.get "node1.log" (nodeData self) = Some data
    ∧ "10.0.0.5" ∈ addrs data.
Proof.
  set (f := mkLogFile ["node1.log"]
         [eol "2023-01-01T00:00:00 Keepalived_vrrp[9]: Assigned address 10.0.0.5 for interface br-ex"]).
  destruct (run_iso false [f]) as [self|] eqn:E; [|by vm_compute in E].
  pose proof E as E'. vm_compute in E'. injection E' as E'.
  destruct (OD.get "node1.log" (nodeData self)) as [data|] eqn:E2;
    [|rewrite <-E' in E2; by vm_compute in E2].
  exists self, data. split; [done|]. split; [done|].
  apply (node_addrs Iso.fromisoformat false [f] self "node1.log" data "10.0.0.5" E E2).
  exists f, (eol "2023-01-01T00:00:00 Keepalived_vrrp[9]: Assigned address 10.0.0.5 for interface br-ex").
  split; [by left|]. split; [done|]. split; [by left|]. by vm_compute.
Defined.

(** ** What [parseLogs] keeps of every entry *)

(** Every entry that [parseLogs] stores has one of the four slots, carries
    the timestamp of its own line, comes from a recognized line of a file of
    its node, and lies within the time bounds. *)
Theorem entries_well_formed fromisoformat mg files self name entries e :
  parseLogs fromisoformat files (newParser mg) = Ok self →
  OD.get name (logEntries self) = Some entries → e ∈ entries →
  (vip e < 4)%nat
  ∧ recognized (line e) = true
  ∧ getTime fromisoformat (line e) = Ok (timestamp e)
  ∧ (∃ f, f ∈ files ∧ nodeName mg f = Ok name ∧ line e ∈ lines f)
  ∧ ∃ lo hi, timeBounds self = (Some lo, Some hi) ∧ lo ≤ timestamp e ≤ hi.
Proof.
  intros (_ & rs & Hrs & ->)%parseLogs_Ok; [|done]. simpl in Hrs. drop_tz.
  rewrite get_logEntries_absorb. simpl.
  case_decide; [|done]. intros [= <-] He.
  destruct (nodeEntries_origin _ _ _ _ _ _ Hrs He)
    as (f & Hf & Hn & Hl & Hts & Hall & Hv & Hrec & _).
  split; [done|]. split; [done|]. split; [done|]. split; [by exists f|].
  rewrite timeBounds_absorb. simpl.
  pose proof (boundsOf_lines (allLines rs)) as Hb.
  destruct (allLines rs) as [|p tls] eqn:Eall; [by apply elem_of_nil in Hall|].
  destruct Hb as (lo & hi & Hb & _ & _ & Hbd).
  exists lo, hi. split; [done|]. by eapply Hbd.
Qed.

Lemma entries_well_formed_witness :
  ∃ self entries e,
    parseLogs Iso.fromisoformat [currentArp; rotatedArp] (newParser true) = Ok self
    ∧ OD.get "keepalived-master-0" (logEntries self) = Some entries ∧ e ∈ entries
    ∧ (vip e < 4)%nat ∧ getTime_iso (line e) = Ok (timestamp e).
Proof.
  destruct (parseLogs Iso.fromisoformat [currentArp; rotatedArp] (newParser true))
    as [self|] eqn:E; [|by vm_compute in E].
  pose proof E as E'. vm_compute in E'. injection E' as E'.
  destruct (OD.get "keepalived-master-0" (logEntries self)) as [entries|] eqn:E1;
    [|rewrite <-E' in E1; by vm_compute in E1].
  assert (mkLogEntry t_2023_01_01 rotatedArpLine tookVip 0 ∈ entries) as He.
  { rewrite <-E' in E1. vm_compute in E1. injection E1 as <-. right. by left. }
  destruct (entries_well_formed Iso.fromisoformat true [currentArp; rotatedArp] self
              "keepalived-master-0" entries _ E E1 He) as (Hv & _ & Hts & _).
  by exists self, entries, (mkLogEntry t_2023_01_01 rotatedArpLine tookVip 0).
Defined.

(** Every interval boundary and every event of a node lies within the time
    bounds of the run. *)
Theorem boundaries_within_bounds fromisoformat mg files self name data :
  run fromisoformat mg files = Ok self →
  OD.get name (nodeData self) = Some data →
  length (vipChanges data) = 4%nat
  ∧ ∀ t, (t ∈ concat (vipChanges data) ∨ t ∈ timestamp <$> events data) →
         ∃ lo hi, timeBounds self = (Some lo, Some hi) ∧ lo ≤ t ≤ hi.
Proof.
  intros Hrun Hnd.
  pose proof Hrun as (rs & nd & Hrs & _)%run_Ok.
  destruct (run_node _ _ _ _ _ name Hrun Hrs) as (Htb & _ & _ & Hnd').
  rewrite Hnd in Hnd'. destruct (decide (name ∈ rs.*1)) as [Hin|]; [|done].
  destruct (processNode (nodeEntries name rs)) as [d|] eqn:Hnode; [|done].
  injection Hnd' as ->.
  pose proof Hnode as (haveVip & _ & Hlen & Hinv)%processNode_inv.
  apply processNode_spec in Hnode as (_ & Hev & _).
  split; [done|].
  assert (∀ e, e ∈ nodeEntries name rs →
            ∃ lo hi, timeBounds self = (Some lo, Some hi) ∧ lo ≤ timestamp e ≤ hi) as Hentry.
  { intros e He.
    destruct (nodeEntries_origin _ _ _ _ _ _ Hrs He) as (_ & _ & _ & _ & _ & Hall & _).
    rewrite Htb. pose proof (boundsOf_lines (allLines rs)) as Hb.
    destruct (allLines rs) as [|p tls] eqn:Eall; [by apply elem_of_nil in Hall|].
    destruct Hb as (lo & hi & Hb & _ & _ & Hbd).
    exists lo, hi. split; [done|]. by eapply Hbd. }
  intros t [Ht|Ht].
  - apply list_elem_of_In, in_concat in Ht as (changes & Hch & Ht).
    apply list_elem_of_In, list_elem_of_lookup in Hch as [s Hs].
    apply list_elem_of_In in Ht.
    pose proof (lookup_lt_Some _ _ _ Hs) as Hlt. rewrite Hlen in Hlt.
    destruct (Hinv s Hlt) as (es & Hsub & _ & Hes & _).
    rewrite Hs in Hes. injection Hes as ->.
    apply list_elem_of_fmap in Ht as (e & -> & He).
    apply Hentry. rewrite <-(sorted_perm timestamp (nodeEntries name rs)).
    by eapply elem_of_sublist.
  - apply list_elem_of_fmap in Ht as (e & -> & He).
    apply Hentry. rewrite Hev in He. apply list_elem_of_filter in He as [_ He].
    by rewrite <-(sorted_perm timestamp (nodeEntries name rs)).
Qed.

Lemma boundaries_within_bounds_witness :
  ∃ self data,
    run_iso false [scenarioA] = Ok self
    ∧ OD.get "master-0.log" (nodeData self) = Some data
    ∧ length (vipChanges data) = 4%nat.
Proof.
  destruct (run_iso false [scenarioA]) as [self|] eqn:E; [|by vm_compute in E].
  pose proof E as E'. vm_compute in E'. injection E' as E'.
  destruct (OD.get "master-0.log" (nodeData self)) as [data|] eqn:E2;
    [|rewrite <-E' in E2; by vm_compute in E2].
  exists self, data. split; [done|]. split; [done|].
  apply (boundaries_within_bounds Iso.fromisoformat false [scenarioA] self
           "master-0.log" data E E2).
Defined.

(** ** The order of the nodes *)

Lemma keys_setdefault {V : Type} k (v : V) d :
  OD.keys (OD.setdefault k v d)
  = if decide (k ∈ OD.keys d) then OD.keys d else OD.keys d ++ [k].
Proof.
  induction d as [|[k0 v0] d IH].
  - destruct (decide (k ∈ OD.keys (@nil (string * V)))) as [H|H]; [|done].
    by apply elem_of_nil in H.
  - destruct (decide (k ∈ OD.keys ((k0, v0) :: d))) as [H|H];
      simpl; destruct (String.eqb_spec k0 k) as [->|Hne]; simpl; try done.
    + f_equal. rewrite IH. rewrite decide_True; [done|].
      apply elem_of_cons in H as [Heq|?]; [exfalso; by apply Hne|done].
    + exfalso. apply H. by left.
    + f_equal. rewrite IH. rewrite decide_False; [done|].
      intros Hin. apply H. by right.
Qed.

Lemma keys_set_new {V : Type} k (v : V) d :
  k ∉ OD.keys d → OD.keys (OD.set k v d) = OD.keys d ++ [k].
Proof.
  induction d as [|[k0 v0] d IH]; simpl; [done|].
  intros Hnin. destruct (String.eqb_spec k0 k) as [->|Hne].
  - exfalso. apply Hnin. by left.
  - simpl. rewrite IH; [done|]. intros Hin. apply Hnin. by right.
Qed.

Lemma keys_absorb self rs :
  OD.keys (logEntries (absorb self rs)) = foldl seeName (OD.keys (logEntries self)) (rs.*1).
Proof.
  revert self. induction rs as [|r rs IH]; intros self; [done|].
  simpl. rewrite IH. simpl. by rewrite keys_update, keys_setdefault.
Qed.

Lemma seeName_keeps ns acc n : n ∈ acc → n ∈ foldl seeName acc ns.
Proof.
  revert acc. induction ns as [|m ns IH]; intros acc Hacc; simpl; [done|].
  apply IH. unfold seeName. case_decide; [done|]. apply elem_of_app. by left.
Qed.

Lemma seeName_seen ns acc : (∀ n, n ∈ ns → n ∈ acc) → foldl seeName acc ns = acc.
Proof.
  induction ns as [|m ns IH]; intros H; simpl; [done|].
  unfold seeName at 2. rewrite decide_True by (apply H; by left).
  apply IH. intros n Hn. apply H. by right.
Qed.

Lemma seeName_all ns acc n : n ∈ ns → n ∈ foldl seeName acc ns.
Proof.
  revert acc. induction ns as [|m ns IH]; intros acc; [by intros ?%elem_of_nil|].
  intros [->|Hin]%elem_of_cons; simpl; [|by apply IH].
  apply seeName_keeps. unfold seeName. case_decide; [done|].
  apply elem_of_app. right. by left.
Qed.

Lemma seeName_prefix ns acc : acc `prefix_of` foldl seeName acc ns.
Proof.
  revert acc. induction ns as [|m ns IH]; intros acc; simpl; [done|].
  etrans; [|apply IH]. unfold seeName. case_decide; [done|]. by apply prefix_app_r.
Qed.

Lemma keys_processItems items nd0 nd :
  NoDup (OD.keys nd0 ++ OD.keys items) → processItems items nd0 = Ok nd →
  OD.keys nd = OD.keys nd0 ++ OD.keys items.
Proof.
  revert nd0. induction items as [|[n es] items IH]; intros nd0 Hnd; simpl.
  - intros [= <-]. by rewrite app_nil_r.
  - destruct (processNode es) as [data|]; [|done]. simpl. intros Hrest.
    assert (n ∉ OD.keys nd0) as Hn.
    { apply NoDup_app in Hnd as (_ & Hdisj & _). intros Hin.
      apply (Hdisj n Hin). by left. }
    rewrite (IH (OD.set n data nd0)); [| |done].
    + rewrite keys_set_new by done. by rewrite <-app_assoc.
    + rewrite keys_set_new by done. by rewrite <-app_assoc.
Qed.

(** The nodes of the result stand in the order in which their names first
    occur among the files, as read. *)
Theorem nodes_in_first_seen_order fromisoformat mg files names self :
  run fromisoformat mg files = Ok self →
  Forall2 (λ f n, nodeName mg f = Ok n) files names →
  OD.keys (nodeData self) = firstSeen names
  ∧ OD.keys (logEntries self) = firstSeen names.
Proof.
  intros (rs & nd & Hrs & _ & Hitems & -> & _)%run_Ok Hnames.
  assert (names = rs.*1) as ->.
  { apply resolveAll_names in Hrs. revert Hrs. generalize (rs.*1). clear -Hnames.
    induction Hnames as [|f n files names Hn _ IH]; intros ns Hns.
    - by apply Forall2_nil_inv_l in Hns.
    - apply Forall2_cons_inv_l in Hns as (n' & ns' & Hn' & Hns' & ->).
      f_equal; [congruence|by apply IH]. }
  assert (OD.keys (logEntries (absorb (newParser mg) rs)) = firstSeen (rs.*1)) as Hkeys
    by (by rewrite keys_absorb).
  split; [|done]. simpl.
  rewrite (keys_processItems (logEntries (absorb (newParser mg) rs)) [] nd); [done| |done].
  simpl. apply NoDup_keys_absorb, NoDup_nil_2.
Qed.

Lemma nodes_in_first_seen_order_witness :
  ∃ self, run_iso true [currentArp; rotatedArp] = Ok self
          ∧ OD.keys (nodeData self) = ["keepalived-master-0"].
Proof.
  destruct (run_iso true [currentArp; rotatedArp]) as [self|] eqn:E;
    [|by vm_compute in E].
  exists self. split; [done|].
  destruct (nodes_in_first_seen_order Iso.fromisoformat true [currentArp; rotatedArp]
              ["keepalived-master-0"; "keepalived-master-0"] self E) as [-> _].
  - repeat constructor.
  - reflexivity.
Defined.

(** ** A parser that is used again *)

Lemma boundsOf_widens lo hi tss :
  ∃ lo' hi', boundsOf (Some lo, Some hi) tss = (Some lo', Some hi') ∧ lo' ≤ lo ∧ hi ≤ hi'.
Proof.
  rewrite boundsOf_Some. eexists _, _. split; [done|].
  destruct (foldl_min_spec lo tss) as [_ Hmin], (foldl_max_spec hi tss) as [_ Hmax].
  split; [apply Hmin|apply Hmax]; by left.
Qed.

(** [parseLogs] resets nothing: on a parser that has read files before,
    every node stays where it is with its entries as a prefix of its new
    ones, the bounds can only widen, and the node records and the layout
    flag are not touched. *)
Theorem parseLogs_accumulates fromisoformat files self self' :
  length (vips self) = 4%nat →
  parseLogs fromisoformat files self = Ok self' →
  nodeData self' = nodeData self
  ∧ isMustGather self' = isMustGather self
  ∧ length (vips self') = 4%nat
  ∧ OD.keys (logEntries self) `prefix_of` OD.keys (logEntries self')
  ∧ (∀ name old, OD.get name (logEntries self) = Some old →
       ∃ new, OD.get name (logEntries self') = Some (old ++ new))
  ∧ (∀ lo hi, timeBounds self = (Some lo, Some hi) →
       ∃ lo' hi', timeBounds self' = (Some lo', Some hi') ∧ lo' ≤ lo ∧ hi ≤ hi').
Proof.
  intros Hv (_ & rs & Hrs & ->)%parseLogs_Ok; [|done]. drop_tz.
  split; [apply nodeData_absorb|]. split; [apply isMustGather_absorb|].
  split; [by rewrite vips_absorb, length_foldl_lineVips|]. split; [|split].
  - rewrite keys_absorb. apply seeName_prefix.
  - intros name old Hold. rewrite get_logEntries_absorb, Hold. by eexists.
  - intros lo hi Htb. rewrite timeBounds_absorb, Htb. apply boundsOf_widens.
Qed.

Lemma parseLogs_accumulates_witness :
  ∃ self self',
    parseLogs Iso.fromisoformat [currentArp] (newParser true) = Ok self
    ∧ parseLogs Iso.fromisoformat [rotatedArp] self = Ok self'
    ∧ OD.keys (logEntries self) `prefix_of` OD.keys (logEntries self').
Proof.
  destruct (parseLogs Iso.fromisoformat [currentArp] (newParser true))
    as [self|] eqn:E; [|by vm_compute in E].
  pose proof E as E0. vm_compute in E0. injection E0 as E0.
  destruct (parseLogs Iso.fromisoformat [rotatedArp] self) as [self'|] eqn:E';
    [|rewrite <-E0 in E'; by vm_compute in E'].
  exists self, self'. split; [done|]. split; [done|].
  apply (parseLogs_accumulates Iso.fromisoformat [rotatedArp] self self'); [|done].
  by rewrite <-E0.
Defined.

Lemma foldl_lineVips_again vs ls :
  foldl lineVips (foldl lineVips vs ls) ls = foldl lineVips vs ls.
Proof.
  apply list_eq. intros s.
  destruct (decide (s < length vs)%nat) as [Hs|Hs].
  - rewrite (foldl_lineVips_lookup (foldl lineVips vs ls))
      by (by rewrite length_foldl_lineVips).
    rewrite (foldl_lineVips_lookup vs) by done.
    by destruct (last (arpLinesFor s ls)).
  - rewrite !lookup_ge_None_2; [done|rewrite ?length_foldl_lineVips; lia..].
Qed.

(** Lines of one kind are of the kind of the last of them. *)
Lemma oneKind_again fromisoformat ref ls :
  oneKind fromisoformat None ls →
  oneKind fromisoformat (refAfter fromisoformat ref ls) ls.
Proof.
  rewrite oneKind_None. intros Hall.
  destruct (decide (ls = [])) as [->|Hne]; [done|].
  assert (∃ l, l ∈ ls ∧ refAfter fromisoformat ref ls = Some (getAware fromisoformat l))
    as (l & Hl & ->).
  { clear Hall. revert ref. induction ls as [|x ls IH]; intros ref; [done|].
    destruct (decide (ls = [])) as [->|Hls].
    - exists x. split; [by left|done].
    - destruct (IH Hls (Some (getAware fromisoformat x))) as (l & Hl & Heq).
      exists l. split; [by right|done]. }
  apply oneKind_Some. intros l' Hl'. by apply Hall.
Qed.

(** The same files read a second time by the same parser: every entry of
    every node is there twice, while the bounds and the labels stay. *)
Theorem parseLogs_twice fromisoformat mg files self :
  parseLogs fromisoformat files (newParser mg) = Ok self →
  ∃ self', parseLogs fromisoformat files self = Ok self'
           ∧ (∀ name entries, OD.get name (logEntries self) = Some entries →
                OD.get name (logEntries self') = Some (entries ++ entries))
           ∧ OD.keys (logEntries self') = OD.keys (logEntries self)
           ∧ timeBounds self' = timeBounds self
           ∧ vips self' = vips self.
Proof.
  intros (Hone & rs & Hrs & ->)%parseLogs_Ok; [|done]. simpl in Hrs, Hone.
  eexists. split.
  { apply parseLogs_Ok; [drop_tz; by rewrite vips_absorb, length_foldl_lineVips|].
    split; [|exists rs; split; [|done]].
    - drop_tz. change (tzAware (with_tzAware _ ?k)) with k.
      rewrite timeBounds_absorb, kindOf_after
        by (by rewrite <-(allLines_lines _ _ _ _ Hrs), !length_fmap).
      by apply oneKind_again.
    - drop_tz. by rewrite isMustGather_absorb. }
  rewrite absorb_with_tzAware. drop_tz.
  split; [|split; [|split]].
  - intros name entries. rewrite !get_logEntries_absorb. simpl.
    case_decide; [|done]. by intros [= <-].
  - rewrite (keys_absorb (absorb _ _)), (keys_absorb (newParser mg)).
    apply seeName_seen. intros n Hn. by apply seeName_all.
  - rewrite !timeBounds_absorb. simpl.
    pose proof (boundsOf_lines (allLines rs)) as Hb.
    destruct (allLines rs) as [|p tls] eqn:Eall; [done|].
    destruct Hb as (lo & hi & Hb & [l1 Hl1] & [l2 Hl2] & Hbd). rewrite Hb.
    rewrite boundsOf_Some.
    destruct (foldl_min_spec lo ((p :: tls).*1)) as [Hin1 Hle1].
    destruct (foldl_max_spec hi ((p :: tls).*1)) as [Hin2 Hle2].
    set (m := foldl Z.min lo (p :: tls).*1) in *.
    set (M := foldl Z.max hi (p :: tls).*1) in *.
    assert (m = lo) as ->.
    { specialize (Hle1 lo ltac:(left)).
      apply elem_of_cons in Hin1 as [?|Hin1]; [done|].
      apply list_elem_of_fmap in Hin1 as ([t l] & Ht & Hin1).
      specialize (Hbd _ _ Hin1). simpl in Ht. lia. }
    assert (M = hi) as ->; [|done].
    specialize (Hle2 hi ltac:(left)).
    apply elem_of_cons in Hin2 as [?|Hin2]; [done|].
    apply list_elem_of_fmap in Hin2 as ([t l] & Ht & Hin2).
    specialize (Hbd _ _ Hin2). simpl in Ht. lia.
  - rewrite !vips_absorb. apply foldl_lineVips_again.
Qed.

Lemma parseLogs_twice_witness :
  ∃ self self',
    parseLogs Iso.fromisoformat [rotatedArp] (newParser true) = Ok self
    ∧ parseLogs Iso.fromisoformat [rotatedArp] self = Ok self'
    ∧ length <$> OD.get "keepalived-master-0" (logEntries self') = Some 2%nat.
Proof.
  destruct (parseLogs Iso.fromisoformat [rotatedArp] (newParser true))
    as [self|] eqn:E; [|by vm_compute in E].
  destruct (parseLogs_twice Iso.fromisoformat true [rotatedArp] self E)
    as (self' & E' & Hdouble & _).
  exists self, self'. split; [done|]. split; [done|].
  vm_compute in E. injection E as <-.
  by rewrite (Hdouble "keepalived-master-0"
                [mkLogEntry t_2023_01_01 rotatedArpLine tookVip 0] eq_refl).
Defined.

(** * The view of a run *)

(** ** The rows *)












(** ** The rows of a node *)

Lemma vipRows_Ok t0 t1 data :
  length (vipChanges data) = 4%nat →
  vipRows t0 t1 data (seq 0 4) = Ok (vipRow t0 t1 <$> vipChanges data).
Proof.
  intros Hlen. destruct (vipChanges data) as [|c0 [|c1 [|c2 [|c3 [|]]]]] eqn:E; try done.
  simpl. unfold getitem. rewrite E. done.
Qed.

Lemma vipRows_Raise t0 t1 data :
  length (vipChanges data) ≠ 4%nat → (length (vipChanges data) < 4)%nat →
  vipRows t0 t1 data (seq 0 4) = Raise IndexError.
Proof.
  intros Hne Hlt. destruct (vipChanges data) as [|c0 [|c1 [|c2 [|c3 [|]]]]] eqn:E;
    simpl in *; try lia; unfold getitem; rewrite E; done.
Qed.

Lemma nodeViews_Forall2 t0 t1 items nvs :
  nodeViews t0 t1 items = Ok nvs ↔
  Forall2 (λ item nv, nodeViewOf t0 t1 item.1 item.2 = Ok nv) items nvs.
Proof.
  revert nvs. induction items as [|[node data] items IH]; intros nvs; simpl.
  - split; [by intros [= <-]; constructor|by intros ->%Forall2_nil_inv_l].
  - destruct (nodeViewOf t0 t1 node data) as [nv|] eqn:E; simpl.
    + destruct (nodeViews t0 t1 items) as [nvs'|] eqn:E'; simpl.
      * split.
        -- intros [= <-]. constructor; [done|]. by apply IH.
        -- intros (nv' & nvs'' & H1 & H2 & ->)%Forall2_cons_inv_l. simpl in H1.
           rewrite E in H1. injection H1 as <-. apply IH in H2. by injection H2 as <-.
      * split; [done|].
        intros (nv' & nvs'' & H1 & H2 & ->)%Forall2_cons_inv_l. by apply IH in H2.
    + split; [done|].
      intros (nv' & nvs'' & H1 & H2 & ->)%Forall2_cons_inv_l. simpl in H1. by rewrite E in H1.
Qed.

Lemma nodeViews_Ok t0 t1 items :
  Forall (λ item : string * NodeData, length (vipChanges item.2) = 4%nat) items →
  nodeViews t0 t1 items
  = Ok ((λ item, mkNodeView item.1 (addrs item.2)
                   ((vipRow t0 t1 <$> vipChanges item.2)
                    ++ [eventRow t0 t1 (events item.2)])) <$> items).
Proof.
  induction 1 as [|[node data] items Hlen _ IH]; [done|].
  simpl in *. unfold nodeViewOf. rewrite vipRows_Ok by done. simpl. by rewrite IH.
Qed.

(** [populateView] with both bounds and well-formed data. *)
Lemma populateView_Done self v t0 t1 :
  timeBounds self = (Some t0, Some t1) → length (vips self) = 4%nat →
  Forall (λ item : string * NodeData, length (vipChanges item.2) = 4%nat) (nodeData self) →
  ∃ text,
    populateView self v
    = Done (mkView (Some (t0, t1, t1 - t0)) text
              (viewLayout v
               ++ ((λ item, mkNodeView item.1 (addrs item.2)
                              ((vipRow t0 t1 <$> vipChanges item.2)
                               ++ [eventRow t0 t1 (events item.2)])) <$> nodeData self))).
Proof.
  intros Htb Hv Hnd. unfold populateView. rewrite Htb.
  destruct (vips self) as [|v0 [|v1 [|v2 [|v3 [|]]]]] eqn:E; try done.
  simpl. rewrite nodeViews_Ok by done. simpl. by eexists.
Qed.

Lemma populateView_TypeError self v :
  timeBounds self = (None, None) → populateView self v = Fails TypeError.
Proof. intros Htb. unfold populateView. by rewrite Htb. Qed.

(** ** The data of a run that the view reads *)

Section ViewOfRun.
Variable fromisoformat : string → option datetime.

Lemma run_bounds mg files self :
  run fromisoformat mg files = Ok self →
  (timeBounds self = (None, None) ∧ ∀ f, f ∈ files → lines f = [])
  ∨ (∃ t0 t1, timeBounds self = (Some t0, Some t1) ∧ t0 ≤ t1
              ∧ ∃ f, f ∈ files ∧ lines f ≠ []).
Proof.
  intros Hrun. pose proof Hrun as (rs & nd & Hrs & _)%run_Ok.
  destruct (run_node _ _ _ _ _ "" Hrun Hrs) as (Htb & _).
  pose proof (allLines_lines _ _ _ _ Hrs) as Hl.
  pose proof (boundsOf_lines (allLines rs)) as Hb.
  destruct (allLines rs) as [|[t l] tls] eqn:E.
  - left. split; [by rewrite Htb|]. intros f Hf.
    simpl in Hl. symmetry in Hl.
    destruct (lines f) as [|l ls] eqn:El; [done|].
    assert (l ∈ concat (lines <$> files)) as Hin.
    { apply list_elem_of_In, in_concat. exists (lines f). split.
      - apply list_elem_of_In, list_elem_of_fmap. by exists f.
      - rewrite El. by left. }
    rewrite Hl in Hin. by apply elem_of_nil in Hin.
  - right. destruct Hb as (lo & hi & Hb & _ & _ & Hbd).
    exists lo, hi. split; [by rewrite Htb|]. split.
    + specialize (Hbd t l ltac:(left)). lia.
    + assert (l ∈ concat (lines <$> files)) as Hin.
      { rewrite <-Hl. rewrite fmap_cons. by left. }
      apply list_elem_of_In, in_concat in Hin as (ls & Hls & Hin).
      apply list_elem_of_In, list_elem_of_fmap in Hls as (f & -> & Hf).
      exists f. split; [done|]. intros E'. rewrite E' in Hin. done.
Qed.

Lemma run_vips_length mg files self :
  run fromisoformat mg files = Ok self → length (vips self) = 4%nat.
Proof.
  intros Hrun. pose proof Hrun as (rs & nd & Hrs & _)%run_Ok.
  destruct (run_node _ _ _ _ _ "" Hrun Hrs) as (_ & -> & _).
  by rewrite length_foldl_lineVips.
Qed.

Lemma run_nodeData_NoDup mg files self :
  run fromisoformat mg files = Ok self → NoDup (OD.keys (nodeData self)).
Proof.
  intros (rs & nd & Hrs & _ & Hnd & -> & _)%run_Ok. simpl.
  assert (NoDup (OD.keys (logEntries (absorb (newParser mg) rs)))) as Hno.
  { apply NoDup_keys_absorb. constructor. }
  by rewrite (keys_processItems _ [] _ Hno Hnd).
Qed.

(** The timeline data of a node after a run. *)
Lemma run_node_timeline mg files self name data :
  run fromisoformat mg files = Ok self →
  (name, data) ∈ nodeData self →
  length (vipChanges data) = 4%nat
  ∧ (∀ changes, changes ∈ vipChanges data → Sorted Z.le changes)
  ∧ Sorted Z.le (timestamp <$> events data)
  ∧ Forall (λ e, isHealthEvent e = true) (events data)
  ∧ ∀ t, (t ∈ concat (vipChanges data) ∨ t ∈ timestamp <$> events data) →
         ∃ lo hi, timeBounds self = (Some lo, Some hi) ∧ lo ≤ t ≤ hi.
Proof.
  intros Hrun Hin.
  pose proof (elem_of_get _ _ _ (run_nodeData_NoDup _ _ _ Hrun) Hin) as Hnd.
  pose proof Hrun as (rs & nd & Hrs & _)%run_Ok.
  destruct (run_node _ _ _ _ _ name Hrun Hrs) as (Htb & _ & _ & Hnd').
  rewrite Hnd in Hnd'. destruct (decide (name ∈ rs.*1)) as [Hname|]; [|done].
  destruct (processNode (nodeEntries name rs)) as [d|] eqn:Hnode; [|done].
  injection Hnd' as ->.
  pose proof Hnode as (haveVip & _ & Hlen & Hinv)%processNode_inv.
  apply processNode_spec in Hnode as (_ & Hev & _).
  assert (∀ e, e ∈ nodeEntries name rs →
            ∃ lo hi, timeBounds self = (Some lo, Some hi) ∧ lo ≤ timestamp e ≤ hi) as Hentry.
  { intros e He.
    destruct (nodeEntries_origin _ _ _ _ _ _ Hrs He) as (_ & _ & _ & _ & _ & Hall & _).
    rewrite Htb. pose proof (boundsOf_lines (allLines rs)) as Hb.
    destruct (allLines rs) as [|p tls] eqn:Eall; [by apply elem_of_nil in Hall|].
    destruct Hb as (lo & hi & Hb & _ & _ & Hbd).
    exists lo, hi. split; [done|]. by eapply Hbd. }
  split; [done|]. split; [|split; [|split]].
  - intros changes [s Hs]%list_elem_of_lookup.
    pose proof (lookup_lt_Some _ _ _ Hs) as Hlt. rewrite Hlen in Hlt.
    destruct (Hinv s Hlt) as (es & Hsub & _ & Hes & _).
    rewrite Hs in Hes. injection Hes as ->. by eapply sorted_timestamps.
  - rewrite Hev. apply sorted_timestamps with (nodeEntries name rs), sublist_filter.
  - rewrite Hev. apply Forall_forall. by intros e [? _]%list_elem_of_filter.
  - intros t [Ht|Ht].
    + apply list_elem_of_In, in_concat in Ht as (changes & Hch & Ht).
      apply list_elem_of_In, list_elem_of_lookup in Hch as [s Hs].
      apply list_elem_of_In in Ht.
      pose proof (lookup_lt_Some _ _ _ Hs) as Hlt. rewrite Hlen in Hlt.
      destruct (Hinv s Hlt) as (es & Hsub & _ & Hes & _).
      rewrite Hs in Hes. injection Hes as ->.
      apply list_elem_of_fmap in Ht as (e & -> & He).
      apply Hentry. rewrite <-(sorted_perm timestamp (nodeEntries name rs)).
      by eapply elem_of_sublist.
    + apply list_elem_of_fmap in Ht as (e & -> & He).
      apply Hentry. rewrite Hev in He. apply list_elem_of_filter in He as [_ He].
      by rewrite <-(sorted_perm timestamp (nodeEntries name rs)).
Qed.

Lemma run_nodeData_lengths mg files self :
  run fromisoformat mg files = Ok self →
  Forall (λ item : string * NodeData, length (vipChanges item.2) = 4%nat) (nodeData self).
Proof.
  intros Hrun. apply Forall_forall. intros [name data] Hin.
  by destruct (run_node_timeline _ _ _ _ _ Hrun Hin) as [? _].
Qed.

End ViewOfRun.

(** [populateView] after a run raises [TypeError] exactly when no file had
    a line, and otherwise returns: a run over files that are all empty
    passes [parseLogs] and [processEntries] and fails at line 267. *)
Theorem view_TypeError_iff_no_lines fromisoformat mg files self v :
  run fromisoformat mg files = Ok self →
  (populateView self v = Fails TypeError ↔ ∀ f, f ∈ files → lines f = [])
  ∧ (is_done (populateView self v) = true ↔ ∃ f, f ∈ files ∧ lines f ≠ []).
Proof.
  intros Hrun.
  destruct (run_bounds _ _ _ _ Hrun) as [[Htb Hno]|(t0 & t1 & Htb & _ & f & Hf & Hne)].
  - rewrite (populateView_TypeError _ _ Htb). split; [done|].
    split; [done|]. intros (f & Hf & Hne). by destruct Hne; apply Hno.
  - destruct (populateView_Done self v t0 t1 Htb (run_vips_length _ _ _ _ Hrun)
                (run_nodeData_lengths _ _ _ _ Hrun)) as [text ->].
    split; [|by split; [exists f|]].
    split; [done|]. intros Hno. by destruct Hne; apply Hno.
Qed.

Lemma view_TypeError_iff_no_lines_witness :
  ∃ self, run_iso false [mkLogFile ["logs"; "empty.log"] []] = Ok self
          ∧ populateView self newView = Fails TypeError.
Proof.
  destruct (run_iso false [mkLogFile ["logs"; "empty.log"] []]) as [self|] eqn:E;
    [|by vm_compute in E].
  exists self. split; [done|].
  apply (view_TypeError_iff_no_lines Iso.fromisoformat false _ self newView E).
  intros f ->%list_elem_of_singleton. done.
Defined.




(** Scenario A in the view: the first row has the interval of five minutes
    in lime between two empty red labels, the other rows one red label. *)
Example view_scenarioA :
  ∃ self v,
    run_iso false [scenarioA] = Ok self
    ∧ populateView self newView = Done v
    ∧ (take 4 ∘ timeline) <$> viewLayout v
      = [[ [changeLabel t_2023_01_01 t_2023_01_01 red 0;
            changeLabel t_2023_01_01 (t_2023_01_01 + 300) lime 300;
            changeLabel (t_2023_01_01 + 300) (t_2023_01_01 + 300) red 0];
           [changeLabel t_2023_01_01 (t_2023_01_01 + 300) red 300];
           [changeLabel t_2023_01_01 (t_2023_01_01 + 300) red 300];
           [changeLabel t_2023_01_01 (t_2023_01_01 + 300) red 300] ]].
Proof.
  destruct (run_iso false [scenarioA]) as [self|] eqn:E; [|by vm_compute in E].
  pose proof E as E'. vm_compute in E'. injection E' as E'.
  destruct (populateView self newView) as [v|] eqn:Ev;
    [|rewrite <-E' in Ev; by vm_compute in Ev].
  exists self, v. split; [done|]. split; [done|].
  rewrite <-E' in Ev. vm_compute in Ev. injection Ev as <-. by vm_compute.
Qed.


(** Two checks in the first second of logs of one minute: the event row
    has a stretch of 62, the VIP rows of 60. *)
Example event_row_same_second :
  ∃ self v,
    run_iso false [checksFile] = Ok self
    ∧ populateView self newView = Done v
    ∧ (λ nv, rowStretch <$> timeline nv) <$> viewLayout v = [[60; 60; 60; 60; 62]]
    ∧ (λ nv, fmap (M:=list) stretch <$> last (timeline nv)) <$> viewLayout v
      = [Some [0; 1; 0; 1; 59; 1; 0]].
Proof.
  destruct (run_iso false [checksFile]) as [self|] eqn:E; [|by vm_compute in E].
  pose proof E as E'. vm_compute in E'. injection E' as E'.
  destruct (populateView self newView) as [v|] eqn:Ev;
    [|rewrite <-E' in Ev; by vm_compute in Ev].
  exists self, v. split; [done|]. split; [done|].
  rewrite <-E' in Ev. vm_compute in Ev. injection Ev as <-. by vm_compute.
Qed.

(** * [findLogs] and the whole run *)

(** ** Loops and paths *)

Lemma outcome_bind_Done {A B : Type} (r : outcome A) (k : A → outcome B) b :
  (x ← r; k x) = Done b ↔ ∃ a, r = Done a ∧ k a = Done b.
Proof.
  destruct r as [a|e]; simpl.
  - split; [by exists a|]. by intros (a' & [= <-] & ?).
  - split; [done|]. by intros (a' & ? & _).
Qed.

Section ForEach.
Context {X P : Type} (body : X → list P → outcome (list P)).
Hypothesis body_acc : ∀ x acc, body x acc = new ← body x []; Done (acc ++ new).

Lemma forEach_acc xs acc :
  forEach body xs acc = new ← forEach body xs []; Done (acc ++ new).
Proof.
  revert acc. induction xs as [|x xs IH]; intros acc; simpl.
  - by rewrite app_nil_r.
  - rewrite (body_acc x acc). destruct (body x []) as [new|e]; simpl; [|done].
    rewrite (IH (acc ++ new)), (IH new).
    destruct (forEach body xs []) as [new'|e]; simpl; [|done]. by rewrite app_assoc.
Qed.

Lemma forEach_elem xs new f :
  forEach body xs [] = Done new →
  f ∈ new ↔ ∃ x new', x ∈ xs ∧ body x [] = Done new' ∧ f ∈ new'.
Proof.
  revert new. induction xs as [|x xs IH]; intros new; simpl.
  - intros [= <-]. split; [by intros ?%elem_of_nil|]. by intros (? & ? & ?%elem_of_nil & _).
  - destruct (body x []) as [new1|e] eqn:E1; simpl; [|done].
    rewrite (forEach_acc xs new1).
    destruct (forEach body xs []) as [new2|e] eqn:E2; simpl; [|done].
    intros [= <-]. rewrite elem_of_app, (IH new2 eq_refl). split.
    + intros [Hf|(x' & new' & Hx & Hb & Hf)].
      * exists x, new1. split; [by left|done].
      * exists x', new'. split; [by right|done].
    + intros (x' & new' & [->|Hx]%elem_of_cons & Hb & Hf).
      * left. rewrite E1 in Hb. by injection Hb as <-.
      * right. by exists x', new'.
Qed.

Lemma forEach_Done xs :
  (∀ x, x ∈ xs → is_done (body x []) = true) ↔ is_done (forEach body xs []) = true.
Proof.
  induction xs as [|x xs IH]; simpl.
  { split; [done|]. by intros _ ? ?%elem_of_nil. }
  destruct (body x []) as [new1|e] eqn:E1; simpl.
  - rewrite (forEach_acc xs new1).
    destruct (forEach body xs []) as [new2|e] eqn:E2; simpl in *.
    + split; [done|]. intros _ x' [->|Hx]%elem_of_cons; [by rewrite E1|].
      by apply IH.
    + split; [|done]. intros Hall. apply IH. intros x' Hx. apply Hall. by right.
  - split; [|done]. intros Hall. specialize (Hall x ltac:(left)). by rewrite E1 in Hall.
Qed.
End ForEach.

Lemma lookup_app fs p q : Fs.lookup fs (p ++ q) = n ← Fs.lookup fs p; Fs.lookup n q.
Proof.
  revert fs. induction p as [|x p IH]; intros fs; [done|]. simpl.
  destruct fs as [ls|es]; [done|]. destruct (OD.get x es); [apply IH|done].
Qed.

Lemma lookup_child fs p es x :
  Fs.lookup fs p = Done (Dir es) →
  Fs.lookup fs (p ++ [x])
  = match OD.get x es with Some c => Done c | None => Fails FileNotFoundError end.
Proof. intros Hp. rewrite lookup_app, Hp. simpl. by destruct (OD.get x es). Qed.

Lemma name_snoc p x : Fs.name (p ++ [x]) = x.
Proof. unfold Fs.name. by rewrite last_snoc. Qed.

Lemma iterdir_Done fs p cs :
  Fs.iterdir fs p = Done cs ↔
  ∃ es, Fs.lookup fs p = Done (Dir es) ∧ cs = (λ e, p ++ [e.1]) <$> es.
Proof.
  unfold Fs.iterdir. destruct (Fs.lookup fs p) as [[ls|es]|e]; simpl.
  - split; [done|]. by intros (? & ? & _).
  - split; [intros [= <-]; by exists es|]. by intros (? & [= <-] & ->).
  - split; [done|]. by intros (? & ? & _).
Qed.

Lemma open_Done fs p ls : Fs.open fs p = Done ls ↔ Fs.lookup fs p = Done (File ls).
Proof.
  unfold Fs.open. destruct (Fs.lookup fs p) as [[ls'|es]|e]; simpl; naive_solver.
Qed.

Lemma is_file_open fs p : Fs.is_file fs p = is_done (Fs.open fs p).
Proof. unfold Fs.is_file, Fs.open. by destruct (Fs.lookup fs p) as [[ls'|es]|e]. Qed.

Lemma get_Some_elem_of {V : Type} k (d : list (string * V)) :
  is_Some (OD.get k d) ↔ k ∈ d.*1.
Proof.
  induction d as [|[k' v] d IH]; simpl.
  - split; [by intros [? ?]|by intros ?%elem_of_nil].
  - rewrite elem_of_cons. destruct (String.eqb k' k) eqn:E.
    + apply String.eqb_eq in E as ->. split; [by left|by eexists].
    + apply String.eqb_neq in E. rewrite IH. naive_solver.
Qed.

(** ** The layout *)

Lemma namespaceDirOf_fold dirs init d :
  foldl (λ found d, if String.eqb (Fs.name d) "namespaces" then Some d else found)
        init dirs = Some d →
  init = Some d ∨ (d ∈ dirs ∧ Fs.name d = "namespaces").
Proof.
  revert init. induction dirs as [|x dirs IH]; intros init; simpl; [by left|].
  intros [H|[H1 H2]]%IH.
  - destruct (String.eqb (Fs.name x) "namespaces") eqn:E; [|by left].
    injection H as <-. right. split; [by left|by apply String.eqb_eq].
  - right. split; [by right|done].
Qed.

Lemma namespaceDirOf_fold_Some dirs init :
  (is_Some init ∨ ∃ d, d ∈ dirs ∧ Fs.name d = "namespaces") →
  is_Some (foldl (λ found d, if String.eqb (Fs.name d) "namespaces" then Some d else found)
                 init dirs).
Proof.
  revert init. induction dirs as [|x dirs IH]; intros init; simpl.
  - intros [H|(d & ?%elem_of_nil & _)]; done.
  - intros [H|(d & [->|Hd]%elem_of_cons & Hn)]; apply IH.
    + left. by destruct (String.eqb (Fs.name x) "namespaces").
    + left. apply String.eqb_eq in Hn. by rewrite Hn.
    + right. by exists d.
Qed.

(** The layout is that of a must-gather exactly when the base directory
    has a directory [namespaces]. *)
Lemma namespaceDirOf_children fs p es :
  Fs.lookup fs p = Done (Dir es) →
  namespaceDirOf (filter (λ i, Fs.is_dir fs i = true) ((λ e, p ++ [e.1]) <$> es))
  = if Fs.is_dir fs (p ++ ["namespaces"]) then Some (p ++ ["namespaces"]) else None.
Proof.
  intros Hp. unfold namespaceDirOf.
  destruct (foldl _ None _) as [d|] eqn:E.
  - apply namespaceDirOf_fold in E as [|[Hd Hn]]; [done|].
    apply list_elem_of_filter in Hd as [Hdir Hd].
    apply list_elem_of_fmap in Hd as ([x c] & -> & Hx). simpl in *.
    rewrite name_snoc in Hn. subst x. by rewrite Hdir.
  - destruct (Fs.is_dir fs (p ++ ["namespaces"])) eqn:Hdir; [|done].
    assert (is_Some (@None (list string))) as [? ?]; [|done]. rewrite <-E.
    apply namespaceDirOf_fold_Some. right. exists (p ++ ["namespaces"]).
    split; [|by rewrite name_snoc].
    apply list_elem_of_filter. split; [done|].
    unfold Fs.is_dir in Hdir. rewrite (lookup_child _ _ _ _ Hp) in Hdir.
    destruct (OD.get "namespaces" es) as [c|] eqn:Hg; [|done].
    apply get_elem_of in Hg. apply list_elem_of_fmap. by exists ("namespaces", c).
Qed.

Lemma findLogs_mode fs basePath old mg files :
  findLogs fs basePath old = Done (mg, files) →
  mg = Fs.is_dir fs (basePath ++ ["namespaces"]).
Proof.
  unfold findLogs. intros (cs & (es & Hp & ->)%iterdir_Done & H)%outcome_bind_Done.
  rewrite (namespaceDirOf_children _ _ _ Hp) in H.
  apply outcome_bind_Done in H as (fs' & _ & [= <- _]).
  by destruct (Fs.is_dir fs (basePath ++ ["namespaces"])).
Qed.

(** ** The files of a must-gather *)

Lemma podFiles_acc fs pod acc :
  podFiles fs pod acc = new ← podFiles fs pod []; Done (acc ++ new).
Proof.
  unfold podFiles. destruct (PyStr.contains "keepalived" (Fs.name pod)); simpl.
  - destruct (Fs.exists_ fs _); simpl.
    + destruct (Fs.iterdir fs _) as [rs|e]; simpl; [|done]. by rewrite <-app_assoc.
    + done.
  - by rewrite app_nil_r.
Qed.

Lemma podFiles_spec fs pod new f :
  podFiles fs pod [] = Done new →
  f ∈ new ↔ PyStr.contains "keepalived" (Fs.name pod) = true ∧ podLog fs pod f.
Proof.
  unfold podFiles, podLog.
  destruct (PyStr.contains "keepalived" (Fs.name pod)); simpl.
  2: { intros [= <-]. split; [by intros ?%elem_of_nil|by intros [? _]]. }
  set (L := pod ++ ["keepalived"; "keepalived"; "logs"]).
  unfold Fs.exists_, Fs.iterdir.
  destruct (Fs.lookup fs (L ++ ["rotated"])) as [[ls|rs]|e] eqn:E; simpl; [done|..].
  - intros [= <-]. rewrite elem_of_app, list_elem_of_fmap, !elem_of_cons, elem_of_nil.
    split.
    + intros [([r c] & -> & Hr)|[->|[->|[]]]]; (split; [done|]); [|by left|by right; left].
      right; right. exists rs, r. split; [done|]. split.
      * apply list_elem_of_fmap. by exists (r, c).
      * by rewrite <-app_assoc.
    + intros [_ [->|[->|(rs' & r & [= <-] & Hr & ->)]]]; [by right; left|by right; right; left|].
      left. apply list_elem_of_fmap in Hr as ([r' c] & -> & Hr).
      exists (r', c). split; [|done]. by rewrite <-app_assoc.
  - intros [= <-]. rewrite !elem_of_cons, elem_of_nil. split.
    + intros [->|[->|[]]]; (split; [done|]); [by left|by right; left].
    + intros [_ [->|[->|(rs' & r & [=] & _)]]]; [by left|by right; left].
Qed.

Lemma namespaceFiles_acc fs nd ns acc :
  namespaceFiles fs nd ns acc = new ← namespaceFiles fs nd ns []; Done (acc ++ new).
Proof.
  unfold namespaceFiles. destruct (Fs.exists_ fs _); simpl.
  - destruct (Fs.iterdir fs _) as [pods|e]; simpl; [|done].
    apply forEach_acc, podFiles_acc.
  - by rewrite app_nil_r.
Qed.

Lemma namespaceFiles_spec fs nd ns new f :
  namespaceFiles fs nd ns [] = Done new →
  f ∈ new ↔ ∃ es pod,
    Fs.lookup fs (nd ++ [ns; "pods"]) = Done (Dir es)
    ∧ pod ∈ es.*1
    ∧ PyStr.contains "keepalived" pod = true
    ∧ podLog fs (nd ++ [ns; "pods"; pod]) f.
Proof.
  unfold namespaceFiles, Fs.exists_, Fs.iterdir.
  destruct (Fs.lookup fs (nd ++ [ns; "pods"])) as [[ls|es]|e] eqn:E; simpl; [done|..].
  - intros Hnew. rewrite (forEach_elem _ (podFiles_acc fs) _ _ _ Hnew). split.
    + intros (pod & new' & Hpod & Hnew' & Hf).
      apply list_elem_of_fmap in Hpod as ([x c] & -> & Hx). simpl in *.
      apply (podFiles_spec _ _ _ f) in Hnew'. apply Hnew' in Hf as [Hk Hf].
      rewrite name_snoc in Hk. rewrite <-app_assoc in Hf.
      exists es, x. split; [done|]. split; [|done].
      apply list_elem_of_fmap. by exists (x, c).
    + intros (es' & x & [= <-] & Hx & Hk & Hf).
      apply list_elem_of_fmap in Hx as ([x' c] & -> & Hx). simpl in *.
      assert ((nd ++ [ns; "pods"]) ++ [x'] ∈ (λ e, (nd ++ [ns; "pods"]) ++ [e.1]) <$> es)
        as Hpod.
      { apply list_elem_of_fmap. by exists (x', c). }
      pose proof (proj2 (forEach_Done _ (podFiles_acc fs) _)
                    ltac:(by rewrite Hnew) _ Hpod) as Hd.
      destruct (podFiles fs ((nd ++ [ns; "pods"]) ++ [x']) []) as [new'|] eqn:E'; [|done].
      exists ((nd ++ [ns; "pods"]) ++ [x']), new'. split; [done|]. split; [done|].
      apply (podFiles_spec _ _ _ f E'). rewrite name_snoc, <-app_assoc. done.
  - intros [= <-]. split; [by intros ?%elem_of_nil|]. by intros (? & ? & [=] & _).
Qed.

(** What [findLogs] computes under the must-gather layout. *)
Lemma findLogs_mustGather_found fs basePath old mg files :
  findLogs fs basePath old = Done (mg, files) →
  Fs.is_dir fs (basePath ++ ["namespaces"]) = true →
  mg = true
  ∧ ∃ found,
      forEach (namespaceFiles fs (basePath ++ ["namespaces"])) namespaces [] = Done found
      ∧ files = sorted_lt PyPath.lt (old ++ found).
Proof.
  unfold findLogs. intros (cs & (es & Hp & ->)%iterdir_Done & H)%outcome_bind_Done Hdir.
  rewrite (namespaceDirOf_children _ _ _ Hp), Hdir in H.
  apply outcome_bind_Done in H as (out & Hout & [= <- <-]).
  split; [done|].
  rewrite (forEach_acc _ (namespaceFiles_acc _ _)) in Hout.
  destruct (forEach _ namespaces []) as [found|]; [|done].
  injection Hout as <-. by exists found.
Qed.

Lemma mustGather_found_spec fs basePath found f :
  forEach (namespaceFiles fs (basePath ++ ["namespaces"])) namespaces [] = Done found →
  f ∈ found ↔ mustGatherLog fs basePath f.
Proof.
  intros Hfound. rewrite (forEach_elem _ (namespaceFiles_acc _ _) _ _ _ Hfound).
  unfold mustGatherLog. split.
  - intros (ns & new' & Hns & Hnew' & Hf).
    apply (namespaceFiles_spec _ _ _ _ f Hnew') in Hf as (es & pod & Hes & Hpod & Hk & Hf).
    rewrite <-app_assoc in Hes, Hf. by exists ns, es, pod.
  - intros (ns & es & pod & Hns & Hes & Hpod & Hk & Hf).
    pose proof (proj2 (forEach_Done _ (namespaceFiles_acc _ _) _)
                  ltac:(by rewrite Hfound) _ Hns) as Hd.
    destruct (namespaceFiles fs (basePath ++ ["namespaces"]) ns []) as [new'|] eqn:E';
      [|done].
    exists ns, new'. split; [done|]. split; [done|].
    apply (namespaceFiles_spec _ _ _ _ f E'). exists es, pod.
    rewrite <-!app_assoc. done.
Qed.

Lemma index_app_cons x l1 l2 :
  ∃ i, index x (l1 ++ x :: l2) = Ok i ∧ (i ≤ length l1)%nat ∧ (x ∉ l1 → i = length l1).
Proof.
  induction l1 as [|y l1 (i & Hi & Hle & Heq)]; simpl.
  - exists 0%nat. by rewrite String.eqb_refl.
  - destruct (String.eqb y x) eqn:E.
    + exists 0%nat. split; [done|]. split; [lia|].
      apply String.eqb_eq in E as ->. intros []. by left.
    + exists (S i). rewrite Hi. split; [done|]. split; [lia|].
      intros Hx. rewrite Heq; [done|]. intros ?. apply Hx. by right.
Qed.

Lemma namespaces_not_pods ns : ns ∈ namespaces → ns ≠ "pods".
Proof.
  intros Hns ->. revert Hns. apply (bool_decide_unpack _). by vm_compute.
Qed.

(** The node name of a file of a must-gather. *)
Lemma mustGatherLog_nodeName fs basePath f ls :
  mustGatherLog fs basePath f →
  ∃ ns pod rest,
    f = basePath ++ ["namespaces"; ns; "pods"; pod] ++ rest
    ∧ PyStr.contains "keepalived" pod = true
    ∧ is_ok (nodeName true (mkLogFile f ls)) = true
    ∧ ("pods" ∉ basePath → nodeName true (mkLogFile f ls) = Ok pod).
Proof.
  intros (ns & es & pod & Hns & Hes & Hpod & Hk & Hf).
  assert (∃ rest, f = (basePath ++ ["namespaces"; ns]) ++ "pods" :: pod :: rest)
    as [rest ->].
  { unfold podLog in Hf. destruct Hf as [->|[->|(rs & r & _ & _ & ->)]];
      eexists; rewrite <-!app_assoc; simpl; done. }
  exists ns, pod, rest. split; [by rewrite <-!app_assoc|]. split; [done|].
  unfold nodeName. simpl.
  destruct (index_app_cons "pods" (basePath ++ ["namespaces"; ns]) (pod :: rest))
    as (i & Hi & Hle & Heq).
  rewrite Hi. simpl. unfold getitem. split.
  - destruct (_ !! (i + 1)%nat) eqn:E; [done|].
    apply lookup_ge_None in E. rewrite length_app in E. simpl in E. lia.
  - intros Hbase. rewrite Heq.
    + rewrite lookup_app_r by lia.
      by replace (length (basePath ++ ["namespaces"; ns]) + 1
                  - length (basePath ++ ["namespaces"; ns]))%nat with 1%nat by lia.
    + rewrite elem_of_app, !elem_of_cons, elem_of_nil.
      intros [?|[?|[?|[]]]]; [done..|]. by eapply namespaces_not_pods.
Qed.

(** Under the must-gather layout [findLogs] lists, in the order of the
    paths, the two current logs of every entry of [pods] whose name contains
    [keepalived], in each of the five namespaces, and what its [rotated]
    holds; files elsewhere are not listed. *)
Theorem findLogs_mustGather fs basePath mg files :
  findLogs fs basePath [] = Done (mg, files) →
  Fs.is_dir fs (basePath ++ ["namespaces"]) = true →
  mg = true
  ∧ Sorted (not_after PyPath.lt) files
  ∧ ∀ f, f ∈ files ↔ mustGatherLog fs basePath f.
Proof.
  intros Hfind Hdir.
  destruct (findLogs_mustGather_found _ _ _ _ _ Hfind Hdir) as (-> & found & Hfound & ->).
  split; [done|]. split.
  - apply sorted_lt_Sorted. apply PyPathFacts.lt_asym.
  - intros f. rewrite sorted_lt_perm. simpl. apply (mustGather_found_spec _ _ _ _ Hfound).
Qed.

Lemma findLogs_mustGather_witness :
  ∃ files, findLogs mustGatherTree ["must-gather"] [] = Done (true, files)
           ∧ ∀ f, f ∈ files ↔ mustGatherLog mustGatherTree ["must-gather"] f.
Proof.
  destruct (findLogs mustGatherTree ["must-gather"] []) as [[mg files]|] eqn:E;
    [|by vm_compute in E].
  destruct (findLogs_mustGather mustGatherTree ["must-gather"] mg files E eq_refl)
    as (-> & _ & H).
  by exists files.
Defined.

(** The must-gather of the examples: the current logs stand before the
    rotated one. *)
Example findLogs_mustGatherTree :
  findLogs mustGatherTree ["must-gather"] []
  = Done (true, mustGatherFiles).
Proof. by vm_compute. Qed.

(** Under the must-gather layout the node name of a file found never
    raises, and it is the name of the pod directory unless a part of the
    base path is [pods]. *)
Theorem mustGather_node_is_pod fs basePath files f ls :
  findLogs fs basePath [] = Done (true, files) → f ∈ files →
  ∃ ns pod rest,
    f = basePath ++ ["namespaces"; ns; "pods"; pod] ++ rest
    ∧ PyStr.contains "keepalived" pod = true
    ∧ is_ok (nodeName true (mkLogFile f ls)) = true
    ∧ ("pods" ∉ basePath → nodeName true (mkLogFile f ls) = Ok pod).
Proof.
  intros Hfind Hf. pose proof (findLogs_mode _ _ _ _ _ Hfind) as Hdir.
  destruct (findLogs_mustGather_found _ _ _ _ _ Hfind (eq_sym Hdir))
    as (_ & found & Hfound & ->).
  rewrite sorted_lt_perm in Hf. simpl in Hf.
  apply (mustGather_found_spec _ _ _ _ Hfound) in Hf.
  by apply (mustGatherLog_nodeName fs).
Qed.

Lemma mustGather_node_is_pod_witness :
  nodeName true (mkLogFile (podLogs ++ ["current.log"]) [])
  = Ok "keepalived-master-0".
Proof.
  destruct (mustGather_node_is_pod mustGatherTree ["must-gather"] _
              (podLogs ++ ["current.log"]) []
              findLogs_mustGatherTree)
    as (ns & pod & rest & Hf & _ & _ & Hpod).
  { right. by left. }
  unfold podLogs in Hf. simpl in Hf. injection Hf as _ <- _. apply Hpod.
  apply (bool_decide_unpack _). by vm_compute.
Defined.

(** A base path with a part [pods]: every file gets the name after it. *)
Example mustGather_under_pods :
  (λ f, nodeName true (mkLogFile f []))
  <$> [ ["pods"; "mg"; "namespaces"; "openshift-kni-infra"; "pods"; "keepalived-master-0";
         "keepalived"; "keepalived"; "logs"; "current.log"];
        ["pods"; "mg"; "namespaces"; "openshift-kni-infra"; "pods"; "keepalived-master-1";
         "keepalived"; "keepalived"; "logs"; "current.log"] ]
  = [Ok "mg"; Ok "mg"].
Proof. by vm_compute. Qed.

(** ** A directory of log files *)

Lemma findLogs_flat_found fs basePath old es :
  Fs.lookup fs basePath = Done (Dir es) →
  Fs.is_dir fs (basePath ++ ["namespaces"]) = false →
  findLogs fs basePath old
  = Done (false, sorted_lt PyPath.lt
                   (filter (λ i, Fs.is_file fs i = true) ((λ e, basePath ++ [e.1]) <$> es))).
Proof.
  intros Hp Hdir. unfold findLogs, Fs.iterdir. rewrite Hp. simpl.
  by rewrite (namespaceDirOf_children _ _ _ Hp), Hdir.
Qed.

(** Without a directory [namespaces], [findLogs] lists the regular files
    of the base directory, in the order of their paths: what
    [self.logFiles] held is dropped, and no subdirectory is entered. *)
Theorem findLogs_flat fs basePath old es :
  Fs.lookup fs basePath = Done (Dir es) →
  Fs.is_dir fs (basePath ++ ["namespaces"]) = false →
  ∃ files,
    findLogs fs basePath old = Done (false, files)
    ∧ Sorted (not_after PyPath.lt) files
    ∧ ∀ f, f ∈ files ↔ ∃ x, x ∈ es.*1 ∧ f = basePath ++ [x] ∧ Fs.is_file fs f = true.
Proof.
  intros Hp Hdir. rewrite (findLogs_flat_found _ _ _ _ Hp Hdir).
  eexists. split; [done|]. split.
  - apply sorted_lt_Sorted. apply PyPathFacts.lt_asym.
  - intros f. rewrite sorted_lt_perm, list_elem_of_filter, list_elem_of_fmap. split.
    + intros (Hfile & [x c] & -> & Hx). exists x. split; [|done].
      apply list_elem_of_fmap. by exists (x, c).
    + intros (x & ([x' c] & -> & Hx)%list_elem_of_fmap & -> & Hfile).
      split; [done|]. by exists (x', c).
Qed.

Lemma findLogs_flat_witness :
  ∃ files,
    findLogs flatTree ["logs"] [["stale.log"]] = Done (false, files)
    ∧ ∀ f, f ∈ files ↔ f = ["logs"; "master-0.log"] ∨ f = ["logs"; "worker-1.log"].
Proof.
  destruct (findLogs_flat flatTree ["logs"] [["stale.log"]] _ eq_refl eq_refl)
    as (files & Hfind & _ & Hfiles).
  exists files. split; [done|].
  pose proof Hfind as Hfind'. vm_compute in Hfind'. injection Hfind' as <-.
  intros f. rewrite !elem_of_cons, elem_of_nil. naive_solver.
Defined.

(** ** The whole run and the core *)

Section WholeRun.
Variable fromisoformat : string → option datetime.

Lemma parseFileFs_Done fs p self self' :
  p ≠ [] →
  parseFileFs fromisoformat fs p self = Done self' ↔
  ∃ f, readAs fs p f ∧ parseFile fromisoformat f self = Ok self'.
Proof.
  intros Hp. unfold parseFileFs, parseFile, readAs.
  assert (∀ f, parts f = p → nodeName (isMustGather self) f
                             = nodeName (isMustGather self) (mkLogFile p [])) as Hname.
  { intros f <-. done. }
  assert (∃ x, getlast p = Ok x) as [x Hx].
  { unfold getlast. destruct (last p) eqn:E; [by eexists|]. by apply last_None in E. }
  rewrite Hx. simpl. split.
  - destruct (nodeName _ _) as [name|] eqn:En; simpl; [|done].
    destruct (Fs.open fs p) as [ls|] eqn:Eo; simpl; [|done].
    intros H. exists (mkLogFile p ls). split; [done|].
    rewrite (Hname (mkLogFile p ls) eq_refl). simpl.
    destruct (parseLines _ _ _ _ _) as [[s g]|]; simpl in *; [|done].
    by injection H as <-.
  - intros (f & [Hparts Hopen] & H). rewrite (Hname f Hparts) in H.
    destruct (nodeName _ _) as [name|] eqn:En; simpl in *; [|done].
    rewrite Hopen. simpl.
    destruct (parseLines _ _ _ _ _) as [[s g]|]; simpl in *; [|done].
    by injection H as <-.
Qed.

Lemma parseLogsFs_Done fs ps self self' :
  Forall (λ p, p ≠ []) ps →
  parseLogsFs fromisoformat fs ps self = Done self' ↔
  ∃ files, Forall2 (readAs fs) ps files ∧ parseLogs fromisoformat files self = Ok self'.
Proof.
  unfold parseLogsFs. intros Hps. revert self.
  induction Hps as [|p ps Hp Hps IH]; intros self; simpl.
  - split.
    + intros [= <-]. exists []. by split; [constructor|].
    + intros (files & ->%Forall2_nil_inv_l & H). simpl in H. by injection H as <-.
  - rewrite outcome_bind_Done. split.
    + intros (self1 & (f & Hf & H1)%parseFileFs_Done & (files & Hfiles & H2)%IH); [|done].
      exists (f :: files). split; [by constructor|]. simpl. by rewrite H1.
    + intros (files & (f & files' & Hf & Hfiles & ->)%Forall2_cons_inv_l & H).
      simpl in H. destruct (parseFile fromisoformat f self) as [self1|] eqn:E1; [|done].
      exists self1. split.
      * apply parseFileFs_Done; [done|]. by exists f.
      * apply IH. by exists files'.
Qed.

Lemma mustGatherLog_nonempty fs basePath f : mustGatherLog fs basePath f → f ≠ [].
Proof.
  intros (ns & pod & rest & -> & _)%(mustGatherLog_nodeName _ _ _ []).
  by destruct basePath.
Qed.

Lemma findLogs_nonempty fs basePath mg files :
  findLogs fs basePath [] = Done (mg, files) → Forall (λ p, p ≠ []) files.
Proof.
  intros Hfind. apply Forall_forall. intros f Hf.
  destruct (Fs.is_dir fs (basePath ++ ["namespaces"])) eqn:Hdir.
  - destruct (findLogs_mustGather_found _ _ _ _ _ Hfind Hdir) as (_ & found & Hfound & ->).
    rewrite sorted_lt_perm in Hf. simpl in Hf.
    apply (mustGather_found_spec _ _ _ _ Hfound) in Hf.
    by eapply mustGatherLog_nonempty.
  - pose proof Hfind as (cs & (es & Hp & ->)%iterdir_Done & _)%outcome_bind_Done.
    rewrite (findLogs_flat_found _ _ _ _ Hp Hdir) in Hfind. injection Hfind as _ <-.
    rewrite sorted_lt_perm in Hf.
    apply list_elem_of_filter in Hf as [_ ([x c] & -> & _)%list_elem_of_fmap].
    by destruct basePath.
Qed.

Lemma runView_Done_inv fs basePath v :
  runView fromisoformat fs basePath = Done v →
  ∃ mg paths files self,
    findLogs fs basePath [] = Done (mg, paths)
    ∧ Forall2 (readAs fs) paths files
    ∧ run fromisoformat mg files = Ok self
    ∧ populateView self newView = Done v.
Proof.
  unfold runView, run.
  intros ([mg paths] & Hfind & H)%outcome_bind_Done.
  apply outcome_bind_Done in H as (self1 & H1 & H).
  apply outcome_bind_Done in H as (self2 & H2 & H).
  apply parseLogsFs_Done in H1 as (files & Hfiles & H1);
    [|by eapply findLogs_nonempty].
  exists mg, paths, files, self2. split; [done|]. split; [done|].
  rewrite H1. simpl. split; [|done].
  by destruct (processEntries self1) as [s|]; simpl in *; [injection H2 as <-|].
Qed.

End WholeRun.

(** The whole run returns exactly when [findLogs] returns, every file it
    lists can be read, the core run on these files with their lines returns
    and [populateView] returns: what holds of the core run holds of the run
    on a directory. *)
Theorem runView_is_core_run fromisoformat fs basePath v :
  runView fromisoformat fs basePath = Done v ↔
  ∃ mg paths files self,
    findLogs fs basePath [] = Done (mg, paths)
    ∧ Forall2 (readAs fs) paths files
    ∧ run fromisoformat mg files = Ok self
    ∧ populateView self newView = Done v.
Proof.
  split; [apply runView_Done_inv|].
  intros (mg & paths & files & self & Hfind & Hfiles & Hrun & Hview).
  unfold runView, run in *. rewrite Hfind. simpl.
  destruct (parseLogs fromisoformat files (newParser mg)) as [self1|] eqn:H1; [|done].
  simpl in Hrun.
  assert (parseLogsFs fromisoformat fs paths (newParser mg) = Done self1) as ->.
  { apply parseLogsFs_Done; [by eapply findLogs_nonempty|]. by exists files. }
  simpl. by rewrite Hrun.
Qed.

Lemma runView_is_core_run_witness :
  ∃ v self,
    runView Iso.fromisoformat mustGatherTree ["must-gather"] = Done v
    ∧ run_iso true [mkLogFile (podLogs ++ ["current.insecure.log"]) [];
                    currentArp; rotatedArp] = Ok self
    ∧ populateView self newView = Done v.
Proof.
  destruct (run_iso true [mkLogFile (podLogs ++ ["current.insecure.log"]) [];
                          currentArp; rotatedArp]) as [self|] eqn:E;
    [|by vm_compute in E].
  destruct (populateView self newView) as [v|] eqn:Ev.
  2: { pose proof E as E'. vm_compute in E'. injection E' as E'.
       rewrite <-E' in Ev. by vm_compute in Ev. }
  exists v, self. split; [|done].
  apply runView_is_core_run. eexists true, _, _, self.
  split; [apply findLogs_mustGatherTree|]. split; [|done].
  repeat constructor.
Defined.

(** Under the must-gather layout the run can only return when every entry
    of [pods] whose name contains [keepalived] has both [current.log] and
    [current.insecure.log] as regular files: [findLogs] lists the two paths
    without looking, and [parseLogs] opens them. *)
Theorem mustGather_needs_current_logs fromisoformat fs basePath v ns es pod :
  runView fromisoformat fs basePath = Done v →
  Fs.is_dir fs (basePath ++ ["namespaces"]) = true →
  ns ∈ namespaces →
  Fs.lookup fs (basePath ++ ["namespaces"; ns; "pods"]) = Done (Dir es) →
  pod ∈ es.*1 →
  PyStr.contains "keepalived" pod = true →
  let podLogs := basePath ++ ["namespaces"; ns; "pods"; pod; "keepalived"; "keepalived"; "logs"] in
  Fs.is_file fs (podLogs ++ ["current.log"]) = true
  ∧ Fs.is_file fs (podLogs ++ ["current.insecure.log"]) = true.
Proof.
  intros (mg & paths & files & self & Hfind & Hfiles & _)%runView_Done_inv Hdir Hns Hes Hpod Hk.
  destruct (findLogs_mustGather_found _ _ _ _ _ Hfind Hdir) as (_ & found & Hfound & ->).
  assert (∀ f, mustGatherLog fs basePath f → Fs.is_file fs f = true) as Hopen.
  { intros f Hf%(mustGather_found_spec _ _ _ _ Hfound).
    assert (f ∈ sorted_lt PyPath.lt ([] ++ found)) as Hin by by rewrite sorted_lt_perm.
    apply list_elem_of_lookup in Hin as [i Hi].
    destruct (Forall2_lookup_l _ _ _ _ _ Hfiles Hi) as (lf & _ & _ & Hlf).
    by rewrite is_file_open, Hlf. }
  simpl. split; apply Hopen; exists ns, es, pod; unfold podLog;
    rewrite <-!app_assoc; simpl; (do 4 (split; [done|])); [by left|by right; left].
Qed.

Lemma mustGather_needs_current_logs_witness :
  ∃ v, runView Iso.fromisoformat mustGatherTree ["must-gather"] = Done v
       ∧ Fs.is_file mustGatherTree (podLogs ++ ["current.insecure.log"]) = true.
Proof.
  destruct (runView Iso.fromisoformat mustGatherTree ["must-gather"]) as [v|] eqn:E;
    [|by vm_compute in E].
  exists v. split; [done|].
  refine (proj2 (mustGather_needs_current_logs Iso.fromisoformat mustGatherTree
                   ["must-gather"] v "openshift-kni-infra" _ "keepalived-master-0"
                   E eq_refl _ eq_refl _ eq_refl));
    apply (bool_decide_unpack _); by vm_compute.
Defined.

(** A pod without [current.insecure.log]: the run fails on the missing
    file. *)
Example run_secureOnlyTree :
  runView Iso.fromisoformat secureOnlyTree ["must-gather"] = Fails FileNotFoundError.
Proof. by vm_compute. Qed.

(** The directory of the examples: the two files are read, the
    subdirectory is not. *)
Example run_flatTree :
  ∃ v, runView Iso.fromisoformat flatTree ["logs"] = Done v
       ∧ nameEdit <$> viewLayout v = ["master-0.log"; "worker-1.log"].
Proof.
  destruct (runView Iso.fromisoformat flatTree ["logs"]) as [v|] eqn:E;
    [|by vm_compute in E].
  exists v. split; [done|]. vm_compute in E. injection E as <-. by vm_compute.
Qed.

(** ** What [findLogs] keeps, and when it returns *)

Lemma findLogs_mustGather_eq fs basePath old es :
  Fs.lookup fs basePath = Done (Dir es) →
  Fs.is_dir fs (basePath ++ ["namespaces"]) = true →
  findLogs fs basePath old
  = found ← forEach (namespaceFiles fs (basePath ++ ["namespaces"])) namespaces [];
    Done (true, sorted_lt PyPath.lt (old ++ found)).
Proof.
  intros Hp Hdir. unfold findLogs, Fs.iterdir. rewrite Hp. cbn [mbind outcome_bind].
  rewrite (namespaceDirOf_children _ _ _ Hp), Hdir.
  rewrite (forEach_acc _ (namespaceFiles_acc _ _)).
  by destruct (forEach _ namespaces []).
Qed.

(** Under the must-gather layout [findLogs] appends to [self.logFiles]
    without clearing it: called on a parser that already lists files, it
    lists these again beside those it finds. *)
Theorem findLogs_keeps_old fs basePath old files :
  findLogs fs basePath [] = Done (true, files) →
  ∃ files', findLogs fs basePath old = Done (true, files') ∧ files' ≡ₚ old ++ files.
Proof.
  intros Hfind. pose proof (findLogs_mode _ _ _ _ _ Hfind) as Hdir. symmetry in Hdir.
  pose proof Hfind as (cs & (es & Hp & ->)%iterdir_Done & _)%outcome_bind_Done.
  rewrite (findLogs_mustGather_eq _ _ _ _ Hp Hdir) in Hfind.
  rewrite (findLogs_mustGather_eq _ _ _ _ Hp Hdir).
  destruct (forEach _ namespaces []) as [found|]; [|done]. simpl in *.
  injection Hfind as <-. eexists. split; [done|]. by rewrite !sorted_lt_perm.
Qed.

Lemma findLogs_keeps_old_witness :
  ∃ files files',
    findLogs mustGatherTree ["must-gather"] [] = Done (true, files)
    ∧ findLogs mustGatherTree ["must-gather"] files = Done (true, files')
    ∧ files' ≡ₚ files ++ files.
Proof.
  destruct (findLogs_keeps_old mustGatherTree ["must-gather"] mustGatherFiles
              mustGatherFiles findLogs_mustGatherTree) as (files' & H1 & H2).
  exists mustGatherFiles, files'. split; [apply findLogs_mustGatherTree|]. split; [apply H1|apply H2].
Defined.

Lemma podFiles_Done fs pod :
  is_done (podFiles fs pod []) = true ↔
  (PyStr.contains "keepalived" (Fs.name pod) = true →
   Fs.is_file fs (pod ++ ["keepalived"; "keepalived"; "logs"; "rotated"]) = false).
Proof.
  unfold podFiles, Fs.exists_, Fs.iterdir, Fs.is_file.
  destruct (PyStr.contains "keepalived" (Fs.name pod)); simpl; [|done].
  rewrite <-!app_assoc. simpl.
  destruct (Fs.lookup fs (pod ++ ["keepalived"; "keepalived"; "logs"; "rotated"]))
    as [[ls|rs]|e]; simpl; naive_solver.
Qed.

Lemma namespaceFiles_Done fs nd ns :
  is_done (namespaceFiles fs nd ns []) = true ↔
  Fs.is_file fs (nd ++ [ns; "pods"]) = false
  ∧ ∀ es pod, Fs.lookup fs (nd ++ [ns; "pods"]) = Done (Dir es) → pod ∈ es.*1 →
      PyStr.contains "keepalived" pod = true →
      Fs.is_file fs (nd ++ [ns; "pods"; pod; "keepalived"; "keepalived"; "logs"; "rotated"])
      = false.
Proof.
  unfold namespaceFiles, Fs.exists_, Fs.iterdir, Fs.is_file.
  destruct (Fs.lookup fs (nd ++ [ns; "pods"])) as [[ls|es]|e] eqn:E; simpl.
  - split; [done|]. by intros [? _].
  - rewrite <-(forEach_Done _ (podFiles_acc fs)). split.
    + intros Hall. split; [done|]. intros es' pod [= <-] Hpod Hk.
      apply list_elem_of_fmap in Hpod as ([x c] & -> & Hx). simpl in *.
      assert ((nd ++ [ns; "pods"]) ++ [x]
              ∈ (λ e : string * fsNode, (nd ++ [ns; "pods"]) ++ [e.1]) <$> es) as Hin.
      { apply list_elem_of_fmap. by exists (x, c). }
      specialize (Hall _ Hin).
      rewrite podFiles_Done, name_snoc, <-!app_assoc in Hall. by apply Hall.
    + intros [_ Hall] pod ([x c] & -> & Hx)%list_elem_of_fmap. simpl.
      rewrite podFiles_Done, name_snoc, <-!app_assoc. simpl. intros Hk.
      unfold Fs.is_file in Hall. apply (Hall es x); [done| |done].
      apply list_elem_of_fmap. by exists (x, c).
  - split; [|done]. intros _. split; [done|]. by intros es pod [=].
Qed.

(** [findLogs] returns exactly when the base path is a directory and,
    under the must-gather layout, no [pods] of a namespace and no [rotated]
    of a keepalived pod is a regular file; a missing namespace, an empty
    [pods] and a missing log are no error for it. *)
Theorem findLogs_returns fs basePath old :
  is_done (findLogs fs basePath old) = true ↔
  Fs.is_dir fs basePath = true
  ∧ (Fs.is_dir fs (basePath ++ ["namespaces"]) = true →
     ∀ ns, ns ∈ namespaces →
       Fs.is_file fs (basePath ++ ["namespaces"; ns; "pods"]) = false
       ∧ ∀ es pod,
           Fs.lookup fs (basePath ++ ["namespaces"; ns; "pods"]) = Done (Dir es) →
           pod ∈ es.*1 → PyStr.contains "keepalived" pod = true →
           Fs.is_file fs (basePath ++ ["namespaces"; ns; "pods"; pod;
                                       "keepalived"; "keepalived"; "logs"; "rotated"])
           = false).
Proof.
  unfold Fs.is_dir at 1.
  destruct (Fs.lookup fs basePath) as [[ls|es]|e] eqn:Hp.
  - unfold findLogs, Fs.iterdir. rewrite Hp. simpl. split; [done|]. by intros [? _].
  - destruct (Fs.is_dir fs (basePath ++ ["namespaces"])) eqn:Hdir.
    + rewrite (findLogs_mustGather_eq _ _ _ _ Hp Hdir).
      assert (∀ r : outcome (list (list string)),
                is_done (found ← r; Done (true, sorted_lt PyPath.lt (old ++ found)))
                = is_done r) as -> by by intros [|].
      rewrite <-(forEach_Done _ (namespaceFiles_acc _ _)). split.
      * intros Hall. split; [done|]. intros _ ns Hns.
        specialize (Hall ns Hns). rewrite namespaceFiles_Done, <-!app_assoc in Hall.
        destruct Hall as [H1 H2]. split; [done|]. intros es' pod Hes' Hpod Hk.
        specialize (H2 es' pod Hes' Hpod Hk). by rewrite <-app_assoc in H2.
      * intros [_ Hall] ns Hns. destruct (Hall eq_refl ns Hns) as [H1 H2].
        rewrite namespaceFiles_Done, <-!app_assoc. split; [done|].
        intros es' pod Hes' Hpod Hk. rewrite <-app_assoc. by apply (H2 es').
    + rewrite (findLogs_flat_found _ _ _ _ Hp Hdir). simpl. split; [|done].
      intros _. split; [done|]. done.
  - unfold findLogs, Fs.iterdir. rewrite Hp. simpl. split; [done|]. by intros [? _].
Qed.

(** [pods] as a regular file: [findLogs] raises. *)
Example findLogs_pods_file :
  findLogs (Dir [("mg", Dir [("namespaces",
                   Dir [("openshift-vsphere-infra", Dir [("pods", File [])])])])])
           ["mg"] []
  = Fails NotADirectoryError.
Proof. by vm_compute. Qed.

(** * The progress text *)

Lemma substring_list n m s :
  substring n m s = string_of_list_ascii (take m (drop n (list_ascii_of_string s))).
Proof.
  revert n m. induction s as [|c s IH]; intros n m.
  - simpl. rewrite drop_nil, take_nil. by destruct n, m.
  - destruct n as [|n]; simpl.
    + destruct m as [|m]; simpl; [done|]. by rewrite IH.
    + apply IH.
Qed.

Lemma length_list_ascii s : length (list_ascii_of_string s) = String.length s.
Proof. induction s as [|c s IH]; simpl; [done|]. by rewrite IH. Qed.

Lemma list_ascii_app s1 s2 :
  list_ascii_of_string (s1 ++ s2)%string = list_ascii_of_string s1 ++ list_ascii_of_string s2.
Proof. induction s1 as [|c s1 IH]; simpl; [done|]. by rewrite IH. Qed.

Lemma string_of_list_app l1 l2 :
  string_of_list_ascii (l1 ++ l2)
  = (string_of_list_ascii l1 ++ string_of_list_ascii l2)%string.
Proof. induction l1 as [|c l1 IH]; simpl; [done|]. by rewrite IH. Qed.

Lemma length_string_of_list cs : String.length (string_of_list_ascii cs) = length cs.
Proof. induction cs as [|c cs IH]; simpl; [done|]. by rewrite IH. Qed.

(** The shortened name has at most 128 characters; a name of at most 125
    characters is kept, a longer one becomes its first 25 characters, three
    dots and its last 100 characters.  For a name of 126 or 127 characters
    the result is longer than the name. *)
Theorem shortname_length s :
  (String.length (shortname s) ≤ 128)%nat
  ∧ ((String.length s ≤ 125)%nat → shortname s = s)
  ∧ ((125 < String.length s)%nat →
       String.length (shortname s) = 128%nat
       ∧ substring 0 25 (shortname s) = substring 0 25 s
       ∧ substring 25 3 (shortname s) = "..."
       ∧ substring 28 100 (shortname s) = substring (String.length s - 100) 100 s)
  ∧ ((String.length s < String.length (shortname s))%nat ↔
     String.length s = 126%nat ∨ String.length s = 127%nat).
Proof.
  unfold shortname. destruct (Nat.ltb_spec 125 (String.length s)) as [Hlt|Hle].
  - assert (String.length (substring 0 25 s ++ "..."
                           ++ substring (String.length s - 100) 100 s)%string = 128%nat
            ∧ substring 0 25 (substring 0 25 s ++ "..."
                              ++ substring (String.length s - 100) 100 s)%string
              = substring 0 25 s
            ∧ substring 25 3 (substring 0 25 s ++ "..."
                              ++ substring (String.length s - 100) 100 s)%string
              = "..."
            ∧ substring 28 100 (substring 0 25 s ++ "..."
                                ++ substring (String.length s - 100) 100 s)%string
              = substring (String.length s - 100) 100 s) as (H1 & H2 & H3 & H4).
    { set (cs := list_ascii_of_string s).
      set (a := take 25 cs). set (b := take 100 (drop (String.length s - 100) cs)).
      assert (length cs = String.length s) as Hcs by apply length_list_ascii.
      assert (length a = 25%nat) as Ha by (unfold a; rewrite length_take; lia).
      assert (length b = 100%nat) as Hb.
      { unfold b. rewrite length_take, length_drop. lia. }
      assert ((substring 0 25 s ++ "..." ++ substring (String.length s - 100) 100 s)%string
              = string_of_list_ascii (a ++ list_ascii_of_string "..." ++ b)) as ->.
      { rewrite !string_of_list_app, !substring_list, string_of_list_ascii_of_string.
        by rewrite drop_0. }
      rewrite length_string_of_list, !substring_list, !list_ascii_of_string_of_list_ascii.
      rewrite !length_app, Ha, Hb, drop_0. fold cs a b.
      split; [done|]. split; [|split].
      - by rewrite take_app_length' by done.
      - rewrite drop_app_length' by done. done.
      - rewrite (app_assoc a), drop_app_length' by (rewrite length_app, Ha; done).
        by rewrite take_ge by lia. }
    rewrite H1. split; [lia|]. split; [lia|]. split; [done|]. lia.
  - split; [lia|]. split; [done|]. split; lia.
Qed.

(** A path of 126 characters is shown with 128. *)
Example shortname_longer :
  String.length longName = 126%nat ∧ String.length (shortname longName) = 128%nat
  ∧ progressText "/logs/master-0.log" = "Parsing file /logs/master-0.log".
Proof. by vm_compute. Qed.

(** * [processEntries] again *)

Lemma set_same {V : Type} k (v : V) d : OD.get k d = Some v → OD.set k v d = d.
Proof.
  induction d as [|[k' v'] d IH]; simpl; [done|].
  destruct (String.eqb k' k); [by intros [= ->]|]. intros H. by rewrite IH.
Qed.

Lemma processItems_fixed items nd :
  (∀ name entries, (name, entries) ∈ items →
     ∃ data, processNode entries = Ok data ∧ OD.get name nd = Some data) →
  processItems items nd = Ok nd.
Proof.
  induction items as [|[name entries] items IH]; intros Hall; simpl; [done|].
  destruct (Hall name entries ltac:(left)) as (data & -> & Hget). simpl.
  rewrite (set_same _ _ _ Hget). apply IH. intros n es Hin. apply Hall. by right.
Qed.

(** [processEntries] rebuilds [nodeData] from [logEntries]: after it has
    returned, calling it again returns and changes nothing; unlike
    [logEntries], the node data do not pile up. *)
Theorem processEntries_idempotent self self' :
  NoDup (OD.keys (logEntries self)) →
  processEntries self = Ok self' →
  processEntries self' = Ok self'.
Proof.
  intros Hno (Hne & nd & Hnd & ->)%processEntries_Ok.
  apply processEntries_Ok. split; [done|]. exists nd. split; [|by destruct self].
  simpl. apply processItems_fixed. intros name entries Hin.
  pose proof (processItems_Ok_inv _ _ _ Hnd) as Hall.
  rewrite Forall_forall in Hall. specialize (Hall _ Hin). simpl in Hall.
  destruct (processNode entries) as [data|] eqn:E; [|done].
  exists data. split; [done|].
  rewrite (processItems_get name _ _ _ Hno Hnd), (elem_of_get _ _ _ Hno Hin), E. done.
Qed.

Lemma processEntries_idempotent_witness :
  ∃ self, run_iso false [scenarioA] = Ok self ∧ processEntries self = Ok self.
Proof.
  destruct (parseLogs Iso.fromisoformat [scenarioA] (newParser false)) as [self0|] eqn:E0;
    [|by vm_compute in E0].
  destruct (processEntries self0) as [self|] eqn:E.
  2: { pose proof E0 as E'. vm_compute in E'. injection E' as E'.
       rewrite <-E' in E. by vm_compute in E. }
  exists self. split.
  - unfold run_iso, run. rewrite E0. done.
  - apply (processEntries_idempotent self0 self); [|done].
    pose proof E0 as E'. vm_compute in E'. injection E' as E'.
    rewrite <-E'. apply (bool_decide_unpack _). by vm_compute.
Defined.

(** * The dropped path *)

Module PurePathFacts.
Import PurePath.

Lemma split_no_sep s x : x ∈ split s → has_sep x = false.
Proof.
  revert x. induction s as [|c s IH]; intros x; simpl.
  - by intros ->%list_elem_of_singleton.
  - destruct (Ascii.eqb c sep) eqn:Ec.
    + intros [->|Hx]%elem_of_cons; [done|by apply IH].
    + destruct (split s) as [|y ys].
      * intros ->%list_elem_of_singleton. simpl. by rewrite Ec.
      * intros [->|Hx]%elem_of_cons.
        -- simpl. rewrite Ec. apply IH. by left.
        -- apply IH. by right.
Qed.

Lemma split_single x : has_sep x = false → split x = [x].
Proof.
  induction x as [|c x IH]; simpl; [done|].
  intros [Hc Hx]%orb_false_elim. by rewrite Hc, (IH Hx).
Qed.

Lemma split_join_cons x s : has_sep x = false → split (x ++ "/" ++ s) = x :: split s.
Proof.
  induction x as [|c x IH]; simpl; [done|].
  intros [Hc Hx]%orb_false_elim. by rewrite Hc, (IH Hx).
Qed.

Lemma split_join l : l ≠ [] → Forall (λ x, has_sep x = false) l → split (join l) = l.
Proof.
  induction l as [|x l IH]; [done|]. intros _ [Hx Hl]%Forall_cons.
  destruct l as [|y l]; [by apply split_single|].
  change (join (x :: y :: l)) with (x ++ "/" ++ join (y :: l))%string.
  rewrite (split_join_cons _ _ Hx), IH; done.
Qed.

Lemma component_head x : component x → ∃ c r, x = String c r ∧ Ascii.eqb c sep = false.
Proof.
  intros (Hne & _ & Hs). destruct x as [|c r]; [done|].
  simpl in Hs. apply orb_false_elim in Hs as [Hc _]. by exists c, r.
Qed.

Lemma join_head x l : component x → ∃ c r, join (x :: l) = String c r ∧ Ascii.eqb c sep = false.
Proof.
  intros (c & r & -> & Hc)%component_head. destruct l; simpl; by eexists _, _.
Qed.

Lemma splitroot_component x : component x → splitroot x = ("", x).
Proof. intros (c & r & -> & Hc)%component_head. unfold splitroot. by rewrite Hc. Qed.

Lemma filter_components l :
  Forall component l → filter (λ x, x ≠ "" ∧ x ≠ ".") l = l.
Proof.
  induction 1 as [|x l (H1 & H2 & _) _ IH]; [done|].
  rewrite filter_cons_True by done. by rewrite IH.
Qed.

Lemma parts_of_component x : component x → parts_of x = [x].
Proof.
  intros Hx. unfold parts_of. rewrite (splitroot_component _ Hx).
  rewrite split_single by apply Hx. rewrite filter_components by by constructor.
  done.
Qed.

Lemma parts_of_args_components l : Forall component l → parts_of_args l = l.
Proof.
  induction 1 as [|x l Hx Hl IH]; [done|]. simpl.
  assert (existsb absolute l = false) as ->.
  { clear IH. induction Hl as [|y l Hy _ IH]; [done|]. simpl.
    unfold absolute at 1. by rewrite (splitroot_component _ Hy), IH. }
  by rewrite (parts_of_component _ Hx), IH.
Qed.

Lemma str_components x l : component x → str (x :: l) = join (x :: l).
Proof.
  intros (_ & _ & Hs). unfold str.
  destruct (String.eqb_spec x "/") as [->|_]; [done|].
  destruct (String.eqb_spec x "//") as [->|_]; [done|]. done.
Qed.

Lemma splitroot_slash c r :
  Ascii.eqb c sep = false → splitroot (String sep (String c r)) = ("/", String c r).
Proof.
  intros Hc. unfold splitroot.
  assert (lstrip (String sep (String c r)) = String c r) as ->.
  { simpl. by rewrite Hc. }
  assert ((String.length (String sep (String c r)) - String.length (String c r) =? 2)%nat
          = false) as ->.
  { apply Nat.eqb_neq. simpl String.length. lia. }
  done.
Qed.

Lemma parts_of_rooted l :
  l ≠ [] → Forall component l → parts_of ("/" ++ join l) = "/" :: l.
Proof.
  intros Hne Hl. destruct l as [|x l]; [done|].
  pose proof Hl as [Hx _]%Forall_cons.
  destruct (join_head x l Hx) as (c & r & Hj & Hc).
  unfold parts_of.
  change ("/" ++ join (x :: l))%string with (String sep (join (x :: l))).
  rewrite Hj, (splitroot_slash _ _ Hc), <-Hj.
  rewrite split_join; [|done|].
  - by rewrite filter_components.
  - eapply Forall_impl; [done|]. by intros ? (_ & _ & ?).
Qed.

Lemma parts_of_components text : Forall component (tail (parts_of text)).
Proof.
  unfold parts_of. destruct (splitroot text) as [root rel].
  assert (Forall component (filter (λ x, x ≠ "" ∧ x ≠ ".") (split rel))) as Hc.
  { apply Forall_forall. intros x [[H1 H2] Hx]%list_elem_of_filter.
    split; [done|]. split; [done|]. by eapply split_no_sep. }
  case_decide; [|done].
  destruct (filter _ _); [done|]. by apply Forall_cons in Hc as [_ ?].
Qed.

End PurePathFacts.

(** Whatever text is dropped, the base path that [dropEvent] sets is the
    text's path without its first part, made absolute: [file:///a/b] gives
    [/a/b], an absolute path stays as it is, and a relative path loses its
    first component. *)
Theorem dropEvent_parts text :
  PurePath.parts_of (dropEvent text) = "/" :: tail (PurePath.parts_of text).
Proof.
  unfold dropEvent.
  pose proof (PurePathFacts.parts_of_components text) as Hc.
  rewrite (PurePathFacts.parts_of_args_components _ Hc).
  destruct (tail (PurePath.parts_of text)) as [|x l]; [by vm_compute|].
  pose proof Hc as [Hx _]%Forall_cons.
  rewrite (PurePathFacts.str_components _ _ Hx).
  by apply PurePathFacts.parts_of_rooted.
Qed.

Example dropEvent_examples :
  dropEvent "file:///home/u/must-gather" = "/home/u/must-gather"
  ∧ dropEvent "/home/u/logs/" = "/home/u/logs"
  ∧ dropEvent "logs/today" = "/today"
  ∧ dropEvent "file:///home/u/my%20logs" = "/home/u/my%20logs"
  ∧ dropEvent "" = "/.".
Proof. by vm_compute. Qed.

(** * The order of the files of a pod *)

Lemma compare_app p x y : PyPath.compare (p ++ x) (p ++ y) = PyPath.compare x y.
Proof.
  induction p as [|a p IH]; [done|]. simpl.
  by rewrite PyPathFacts.part_compare_refl.
Qed.

Lemma Sorted_lookup_not_after (files : list (list string)) i j f g :
  Sorted (not_after PyPath.lt) files →
  files !! i = Some f → files !! j = Some g → (i < j)%nat → PyPath.lt g f = false.
Proof.
  intros Hs Hi Hj Hlt.
  apply Sorted_StronglySorted in Hs; [|intros x y z; apply PyPathFacts.not_after_trans].
  rewrite <-(take_drop_middle _ _ _ Hi) in Hs.
  apply StronglySorted_app_1_r, StronglySorted_inv in Hs as [_ Hall].
  rewrite Forall_forall in Hall. apply Hall.
  apply list_elem_of_lookup. exists (j - S i)%nat.
  rewrite lookup_drop. by replace (S i + (j - S i))%nat with j by lia.
Qed.

(** Among the files that [findLogs] lists, the current logs of a pod stand
    before its rotated logs, whatever their names: the sort of line 161
    goes by the parts of the path, and [current...] is less than
    [rotated].  So [parseLogs] reads the newest log of a pod first. *)
Theorem current_before_rotated fs basePath old mg files logs c r i j :
  findLogs fs basePath old = Done (mg, files) →
  c = "current.log" ∨ c = "current.insecure.log" →
  files !! i = Some (logs ++ [c]) →
  files !! j = Some (logs ++ ["rotated"; r]) →
  (i < j)%nat.
Proof.
  intros Hfind Hc Hi Hj.
  assert (Sorted (not_after PyPath.lt) files) as Hs.
  { unfold findLogs in Hfind.
    apply outcome_bind_Done in Hfind as (cs & _ & Hfind).
    apply outcome_bind_Done in Hfind as (found & _ & [= _ <-]).
    apply sorted_lt_Sorted, PyPathFacts.lt_asym. }
  assert (PyPath.lt (logs ++ [c]) (logs ++ ["rotated"; r]) = true) as Hlt.
  { unfold PyPath.lt. rewrite compare_app. by destruct Hc as [->| ->]. }
  destruct (Nat.lt_trichotomy i j) as [?|[->|Hji]]; [done|..].
  - rewrite Hi in Hj. injection Hj as Hj%app_inv_head. by destruct Hc as [->| ->].
  - by rewrite (Sorted_lookup_not_after _ _ _ _ _ Hs Hj Hi Hji) in Hlt.
Qed.

Lemma current_before_rotated_witness :
  findLogs mustGatherTree ["must-gather"] [] = Done (true, mustGatherFiles)
  ∧ mustGatherFiles !! 1%nat = Some (podLogs ++ ["current.log"])
  ∧ mustGatherFiles !! 2%nat = Some (podLogs ++ ["rotated"; "0.log"])
  ∧ (1 < 2)%nat.
Proof.
  split; [apply findLogs_mustGatherTree|]. split; [done|]. split; [done|].
  apply (current_before_rotated mustGatherTree ["must-gather"] [] true mustGatherFiles
           podLogs "current.log" "0.log" 1 2 findLogs_mustGatherTree);
    [by left|done..].
Defined.
